(** * grist-sync-plugin: field mapping, error diagnosis and Grist client

    A shallow embedding of [utils/mapping.ts], [utils/errorHandler.ts] and
    [utils/grist.ts], of the editing of the list of mappings in
    [components/MappingTable.vue] and of the reading of the response in
    [components/wizard/Step1ApiSource.vue], and the properties of the
    specification checked against it.

    JavaScript data is modelled by primitive values and references into a
    store of objects and arrays, so that shared and self-referential
    structures are ordinary inputs.  Exceptions are values of [result];
    the effects of the Grist client (the log callback, console warnings
    and HTTP requests) are recorded in a trace.  What the engine decides
    (the members the prototypes hold, the wording of the errors it
    raises) is a parameter, [Platform]; [Sample.engine] is an instance.
    Where a program reads what is no data, a member found in a
    prototype, its run is [Beyond], and nothing is said of it. *)

From Stdlib Require Import ZArith String Ascii DecimalString DecimalPos.
From stdpp Require Import base option list gmap strings.

Local Open Scope Z_scope.

(** ** JavaScript strings

    Strings are sequences of bytes (UTF-8); the functions below are the
    string methods the sources call.  [toLowerCase] folds the ASCII
    letters, which is what the patterns searched for by the error handler
    are made of. *)

Module Str.

Definition quote : string := String (ascii_of_nat 34) EmptyString.

Fixpoint includes (needle s : string) : bool :=
  String.prefix needle s ||
  match s with
  | EmptyString => false
  | String _ rest => includes needle rest
  end.

Definition lower_char (c : ascii) : ascii :=
  let n := nat_of_ascii c in
  if (65 <=? n)%nat && (n <=? 90)%nat then ascii_of_nat (n + 32) else c.

Fixpoint toLowerCase (s : string) : string :=
  match s with
  | EmptyString => EmptyString
  | String c rest => String (lower_char c) (toLowerCase rest)
  end.

(** [s.split(sep)] for a one-character separator: never empty, one more
    piece than there are separators. *)
Fixpoint split (sep : ascii) (s : string) : list string :=
  match s with
  | EmptyString => [EmptyString]
  | String c rest =>
      if Ascii.eqb c sep then EmptyString :: split sep rest
      else match split sep rest with
           | piece :: pieces => String c piece :: pieces
           | [] => [String c EmptyString]
           end
  end.

(** [s.replace(/c/g, d)] for single characters. *)
Fixpoint replace_all (c d : ascii) (s : string) : string :=
  match s with
  | EmptyString => EmptyString
  | String x rest => String (if Ascii.eqb x c then d else x) (replace_all c d rest)
  end.

(** [pieces.join(sep)]. *)
Fixpoint join (sep : string) (pieces : list string) : string :=
  match pieces with
  | [] => EmptyString
  | [piece] => piece
  | piece :: rest => piece +:+ sep +:+ join sep rest
  end.

Definition is_digit (c : ascii) : bool :=
  let n := nat_of_ascii c in (48 <=? n)%nat && (n <=? 57)%nat.

Definition digit_value (c : ascii) : Z := Z.of_nat (nat_of_ascii c) - 48.

(** The longest run of digits at the head of a string, and what follows. *)
Fixpoint span_digits (s : string) : string * string :=
  match s with
  | String c rest =>
      if is_digit c then let '(ds, tl) := span_digits rest in (String c ds, tl)
      else (EmptyString, s)
  | EmptyString => (EmptyString, EmptyString)
  end.

(** [parseInt] of a string of digits. *)
Fixpoint parse_digits (acc : Z) (ds : string) : Z :=
  match ds with
  | EmptyString => acc
  | String c rest => parse_digits (10 * acc + digit_value c) rest
  end.

Fixpoint all_digits (s : string) : bool :=
  match s with
  | EmptyString => true
  | String c rest => is_digit c && all_digits rest
  end.

Definition starts_with_digit (s : string) : bool :=
  match s with
  | String c _ => is_digit c
  | EmptyString => false
  end.

Definition of_Z (z : Z) : string := NilZero.string_of_int (Z.to_int z).

Definition of_nat (n : nat) : string := of_Z (Z.of_nat n).

Definition is_empty (s : string) : bool :=
  match s with EmptyString => true | _ => false end.

Fixpoint drop (n : nat) (s : string) : string :=
  match n, s with
  | S m, String _ rest => drop m rest
  | _, _ => s
  end.

Definition newline : string := String (ascii_of_nat 10) EmptyString.

(** [a || b] on strings that may be absent: the empty string is falsy. *)
Definition or_else (a : option string) (b : string) : string :=
  match a with
  | Some s => if is_empty s then b else s
  | None => b
  end.

End Str.

(** ** JavaScript values

    The values a record fetched from an API, or built by a caller, is made
    of.  Objects and arrays live in a store and are named by references,
    as in the language: two references to one location are the same
    object, and an object may contain itself.  An object is its list of
    own enumerable properties in enumeration order, and its prototype is
    the one of object literals; an array is its elements.  Functions,
    symbols and bigints are no values of the model: where the program
    reaches one (a member inherited from a prototype), the model stops
    with [Beyond]. *)

Module JS.

(** A number: integral (zero stands for both zeros), or a finite number
    with a fractional part, identified by the text [String] gives for it,
    or one of the non-finite numbers. *)
Inductive number : Type :=
| Int (z : Z)
| Frac (text : string)
| NaN
| Infinity (negative : bool).

Definition Number_isInteger (n : number) : bool :=
  match n with Int _ => true | _ => false end.

Definition Number_isFinite (n : number) : bool :=
  match n with Int _ | Frac _ => true | _ => false end.

Definition Number_toString (n : number) : string :=
  match n with
  | Int z => Str.of_Z z
  | Frac text => text
  | NaN => "NaN"
  | Infinity false => "Infinity"
  | Infinity true => "-Infinity"
  end.

(** A [Date], by what its two renderings give: [toISOString] is [None]
    for an invalid date, on which the method raises a [RangeError]. *)
Record Date : Type := { toISOString : option string; Date_toString : string }.

Definition loc := positive.

Inductive value : Type :=
| undefined
| null
| VBool (b : bool)
| VNum (n : number)
| VStr (s : string)
| VDate (d : Date)
| VRef (l : loc).
Arguments VRef l%_positive.

Inductive object : Type :=
| Obj (props : list (string * value))
| Arr (elems : list value).

Abbreviation store := (gmap loc object).

#[global] Instance number_eq_dec : EqDecision number.
Proof. solve_decision. Defined.

#[global] Instance Date_eq_dec : EqDecision Date.
Proof. solve_decision. Defined.

#[global] Instance value_eq_dec : EqDecision value.
Proof. solve_decision. Defined.

(** *** Exceptions *)

Record exn : Type := {
  instanceof_Error : bool;
  name : option string;
  message : option string;
  stack : option string;
  toString : string
}.

(** [new Kind(msg)] for [Error] and its subclasses.  The stack is the
    heading alone: the frames an engine appends are left out. *)
Definition new_error (kind msg : string) : exn :=
  let heading := if Str.is_empty msg then kind else kind +:+ ": " +:+ msg in
  {| instanceof_Error := true; name := Some kind; message := Some msg;
     stack := Some heading; toString := heading |}.

Definition new_Error : string -> exn := new_error "Error".
Definition new_TypeError : string -> exn := new_error "TypeError".
Definition new_RangeError : string -> exn := new_error "RangeError".
Definition new_SyntaxError : string -> exn := new_error "SyntaxError".

(** The outcome of a piece of program: a value, an exception, or
    [Beyond]: the program has read something that is no data of the model
    (a function or an object of the platform, found where a member is
    inherited; the length or a character of a string that is not ASCII,
    which the model does not count as the language does), and the model
    does not follow it further.  Nothing is claimed of a run that is
    [Beyond]. *)
Inductive result (A : Type) : Type :=
| Ok (a : A)
| Throw (e : exn)
| Beyond.
Arguments Ok {A} a.
Arguments Throw {A} e.
Arguments Beyond {A}.

Definition bind {A B} (r : result A) (k : A -> result B) : result B :=
  match r with Ok a => k a | Throw e => Throw e | Beyond => Beyond end.

Definition returns {A} (r : result A) : Prop := exists a, r = Ok a.

(** *** The platform

    What the engine and its standard library decide: the names of the
    members each kind of value inherits from its prototypes (the methods
    of strings, of arrays, of every object), and the wording of the
    errors the engine raises itself.  The program is modelled on any
    platform. *)

Inductive kind : Type :=
| a_boolean
| a_number
| a_string
| a_date
| an_array
| an_object.

Class Platform : Type := {
  (** [inherited k key]: the prototypes of the values of kind [k] hold a
      member [key]. *)
  inherited : kind -> string -> bool;
  (** The message of the [TypeError] for reading the property [key] of
      [null] or [undefined]. *)
  cannot_read : value -> string -> string;
  (** The message of the [TypeError] for calling what is no function,
      from the text of the call. *)
  not_a_function : string -> string;
  (** The message of the [TypeError] of [JSON.stringify] for an object
      met again below itself: from the store, the objects being written
      (the innermost first) and the object met again. *)
  circular_structure : store -> list loc -> loc -> string
}.

(** *** Operators *)

Definition nullish (v : value) : bool :=
  match v with undefined | null => true | _ => false end.

(** [typeof v === 'object'] *)
Definition typeof_object (v : value) : bool :=
  match v with null | VDate _ | VRef _ => true | _ => false end.

(** [!!v] *)
Definition truthy (v : value) : bool :=
  match v with
  | undefined | null => false
  | VBool b => b
  | VNum (Int z) => negb (z =? 0)
  | VNum NaN => false
  | VNum _ => true
  | VStr s => negb (Str.is_empty s)
  | VDate _ | VRef _ => true
  end.

Definition Array_isArray (h : store) (v : value) : bool :=
  match v with
  | VRef l => match h !! l with Some (Arr _) => true | _ => false end
  | _ => false
  end.

Fixpoint assoc {A} (key : string) (props : list (string * A)) : option A :=
  match props with
  | [] => None
  | (k, a) :: rest => if String.eqb k key then Some a else assoc key rest
  end.

Definition indexed (elems : list value) : list (string * value) :=
  imap (fun i v => (Str.of_nat i, v)) elems.

(** The own enumerable properties [for (key in v)] visits, with their
    values.  A reference outside the store is an object with none. *)
Definition own_properties (h : store) (v : value) : list (string * value) :=
  match v with
  | VRef l =>
      match h !! l with
      | Some (Obj props) => props
      | Some (Arr elems) => indexed elems
      | None => []
      end
  | _ => []
  end.

Definition Object_keys (h : store) (v : value) : list string :=
  (own_properties h v).*1.

(** The kind of a value that has properties. *)
Definition kind_of (h : store) (v : value) : option kind :=
  match v with
  | undefined | null => None
  | VBool _ => Some a_boolean
  | VNum _ => Some a_number
  | VStr _ => Some a_string
  | VDate _ => Some a_date
  | VRef l => match h !! l with Some (Arr _) => Some an_array | _ => Some an_object end
  end.

Fixpoint is_ascii (s : string) : bool :=
  match s with
  | EmptyString => true
  | String c rest => (nat_of_ascii c <? 128)%nat && is_ascii rest
  end.

(** The characters of a string, each a string. *)
Fixpoint characters (s : string) : list value :=
  match s with
  | EmptyString => []
  | String c rest => VStr (String c EmptyString) :: characters rest
  end.

(** The property [key] a value has of its own, enumerable or not: a
    property of an object; an element of an array, or its length; a
    character of a string, or its length. *)
Definition own (h : store) (v : value) (key : string) : option (result value) :=
  match v with
  | VStr s =>
      if String.eqb key "length"
      then Some (if is_ascii s then Ok (VNum (Int (Z.of_nat (String.length s)))) else Beyond)
      else match assoc key (indexed (characters s)) with
           | Some c => Some (if is_ascii s then Ok c else Beyond)
           | None => None
           end
  | VRef l =>
      match h !! l with
      | Some (Obj props) => Ok <$> assoc key props
      | Some (Arr elems) =>
          if String.eqb key "length" then Some (Ok (VNum (Int (Z.of_nat (length elems)))))
          else Ok <$> assoc key (indexed elems)
      | None => None
      end
  | _ => None
  end.

(** The prototype of an object the program builds and fills: the one of
    object literals, none, or a value given through [__proto__]. *)
Inductive prototype : Type :=
| Object_prototype
| no_prototype
| prototype_of (v : value).

(** Whether the name [__proto__] is found to be the accessor of
    [Object.prototype] from an object of this prototype: not without a
    prototype, nor below an object that has a property of that name. *)
Definition reaches_accessor (h : store) (proto : prototype) : bool :=
  match proto with
  | Object_prototype => true
  | no_prototype => false
  | prototype_of v => negb (bool_decide ("__proto__" ∈ Object_keys h v))
  end.

(** A key that is an array index: the decimal writing of a whole number
    below 2^32 - 1.  Such keys come first among the properties of an
    object, by increasing number. *)
Definition array_index (key : string) : option Z :=
  if Str.all_digits key && negb (Str.is_empty key)
     && (String.eqb key "0" || negb (String.prefix "0" key))
  then let i := Str.parse_digits 0 key in
       if i <? 4294967295 then Some i else None
  else None.

Fixpoint replace (key : string) (x : value) (props : list (string * value))
  : list (string * value) :=
  match props with
  | [] => []
  | (k, y) :: rest =>
      if String.eqb k key then (k, x) :: rest else (k, y) :: replace key x rest
  end.

(** A new property whose key is the index [i]: after the indices below
    it. *)
Fixpoint insert_index (i : Z) (key : string) (x : value) (props : list (string * value))
  : list (string * value) :=
  match props with
  | [] => [(key, x)]
  | (k, y) :: rest =>
      match array_index k with
      | Some j => if j <? i then (k, y) :: insert_index i key x rest
                  else (key, x) :: (k, y) :: rest
      | None => (key, x) :: (k, y) :: rest
      end
  end.

(** [obj[key] = x] where the assignment makes or changes an own property:
    an existing property keeps its place, a new one goes among the
    indices when its key is one, and last otherwise. *)
Definition update (key : string) (x : value) (props : list (string * value))
  : list (string * value) :=
  match assoc key props with
  | Some _ => replace key x props
  | None =>
      match array_index key with
      | Some i => insert_index i key x props
      | None => props ++ [(key, x)]
      end
  end.

(** [obj[key] = x] on an object the program has built, given by its own
    properties and its prototype.  The name [__proto__] that is no own
    property and is found to be the accessor of [Object.prototype] calls
    its setter: an object or [null] becomes the prototype, any other value
    is ignored.  In every other case the own property is made or
    changed. *)
Definition assign (h : store) (key : string) (x : value)
  (obj : list (string * value) * prototype) : list (string * value) * prototype :=
  let '(props, proto) := obj in
  if String.eqb key "__proto__" && negb (bool_decide (key ∈ props.*1))
     && reaches_accessor h proto
  then (props,
        match x with
        | null => no_prototype
        | VDate _ | VRef _ => prototype_of x
        | _ => proto
        end)
  else (update key x props, proto).

(** [String(v)] for a value that is not a reference. *)
Definition String_ (v : value) : string :=
  match v with
  | undefined => "undefined"
  | null => "null"
  | VBool true => "true"
  | VBool false => "false"
  | VNum n => Number_toString n
  | VStr s => s
  | VDate d => Date_toString d
  | VRef _ => "[object Object]"
  end.

(** *** JSON texts *)

Definition hex_digit (n : nat) : ascii :=
  ascii_of_nat (if (n <? 10)%nat then 48 + n else 87 + n).

Definition escape_char (c : ascii) : string :=
  let n := nat_of_ascii c in
  if (n =? 34)%nat then "\" +:+ Str.quote
  else if (n =? 92)%nat then "\\"
  else if (n =? 8)%nat then "\b"
  else if (n =? 9)%nat then "\t"
  else if (n =? 10)%nat then "\n"
  else if (n =? 12)%nat then "\f"
  else if (n =? 13)%nat then "\r"
  else if (n <? 32)%nat
       then "\u00" +:+ String (hex_digit (n / 16)) (String (hex_digit (n mod 16)) EmptyString)
  else String c EmptyString.

Fixpoint escape (s : string) : string :=
  match s with
  | EmptyString => EmptyString
  | String c rest => escape_char c +:+ escape rest
  end.

Definition JSON_quote (s : string) : string := Str.quote +:+ escape s +:+ Str.quote.

(** The elements of an array, in order: [undefined] is written [null]. *)
Fixpoint serialize_elements (property : value -> option (result (option string)))
  (elems : list value) : option (result (list string)) :=
  match elems with
  | [] => Some (Ok [])
  | v :: rest =>
      match property v with
      | None => None
      | Some (Throw e) => Some (Throw e)
      | Some Beyond => Some Beyond
      | Some (Ok text) =>
          match serialize_elements property rest with
          | None => None
          | Some (Throw e) => Some (Throw e)
          | Some Beyond => Some Beyond
          | Some (Ok texts) => Some (Ok (default "null" text :: texts))
          end
      end
  end.

(** The members of an object, in order: a property whose value is
    [undefined] is left out. *)
Fixpoint serialize_members (property : value -> option (result (option string)))
  (props : list (string * value)) : option (result (list string)) :=
  match props with
  | [] => Some (Ok [])
  | (k, v) :: rest =>
      match property v with
      | None => None
      | Some (Throw e) => Some (Throw e)
      | Some Beyond => Some Beyond
      | Some (Ok text) =>
          match serialize_members property rest with
          | None => None
          | Some (Throw e) => Some (Throw e)
          | Some Beyond => Some Beyond
          | Some (Ok texts) =>
              Some (Ok (match text with
                        | Some t => (JSON_quote k +:+ ":" +:+ t) :: texts
                        | None => texts
                        end))
          end
      end
  end.

Section OnPlatform.

Context {p : Platform}.

Definition TypeError_read (v : value) (key : string) : exn :=
  new_TypeError (cannot_read v key).

Definition TypeError_call (call : string) : exn :=
  new_TypeError (not_a_function call).

Definition TypeError_circular (h : store) (stack : list loc) (l : loc) : exn :=
  new_TypeError (circular_structure h stack l).

(** [v[key]]: raises on [null] and [undefined]; gives the own property
    when there is one; and else looks into the prototypes, where a member
    found is no data of the model. *)
Definition get (h : store) (v : value) (key : string) : result value :=
  match kind_of h v with
  | None => Throw (TypeError_read v key)
  | Some k =>
      match own h v key with
      | Some r => r
      | None => if inherited k key then Beyond else Ok undefined
      end
  end.

(** [SerializeJSONProperty]: the text of a value, [Ok None] where the
    language gives [undefined], and a [TypeError] when an object is met
    again below itself ([stack] holds the objects being written).  The
    prototypes of objects and arrays hold no [toJSON]; a date is written
    through the one of dates.  The outer [None] is a lack of fuel;
    [serialize_property_fuel] shows that as many steps as the store has
    objects, and one more, are enough. *)
Fixpoint serialize_property (fuel : nat) (h : store) (stack : list loc) (v : value)
  {struct fuel} : option (result (option string)) :=
  match v with
  | undefined => Some (Ok None)
  | null => Some (Ok (Some "null"))
  | VBool true => Some (Ok (Some "true"))
  | VBool false => Some (Ok (Some "false"))
  | VNum n => Some (Ok (Some (if Number_isFinite n then Number_toString n else "null")))
  | VStr s => Some (Ok (Some (JSON_quote s)))
  | VDate d =>
      Some (Ok (Some (match toISOString d with
                      | Some iso => JSON_quote iso
                      | None => "null"
                      end)))
  | VRef l =>
      if bool_decide (l ∈ stack) then Some (Throw (TypeError_circular h stack l))
      else match fuel with
           | O => None
           | S fuel' =>
               let property := serialize_property fuel' h (l :: stack) in
               match h !! l with
               | Some (Arr elems) =>
                   match serialize_elements property elems with
                   | None => None
                   | Some (Throw e) => Some (Throw e)
                   | Some Beyond => Some Beyond
                   | Some (Ok texts) => Some (Ok (Some ("[" +:+ Str.join "," texts +:+ "]")))
                   end
               | Some (Obj props) =>
                   match serialize_members property props with
                   | None => None
                   | Some (Throw e) => Some (Throw e)
                   | Some Beyond => Some Beyond
                   | Some (Ok texts) => Some (Ok (Some ("{" +:+ Str.join "," texts +:+ "}")))
                   end
               | None => Some (Ok (Some "{}"))
               end
           end
  end.

Definition JSON_stringify (h : store) (v : value) : result (option string) :=
  match serialize_property (S (size h)) h [] v with
  | Some r => r
  | None => Throw (new_RangeError "Maximum call stack size exceeded")
  end.

End OnPlatform.

(** *** Shapes of data *)

(** The values an object or an array holds. *)
Definition children (h : store) (l : loc) : list value :=
  match h !! l with
  | Some (Obj props) => props.*2
  | Some (Arr elems) => elems
  | None => []
  end.

(** [reaches h l v]: [v] is held by the object at [l], or by an object
    that one reaches. *)
Inductive reaches (h : store) : loc -> value -> Prop :=
| reaches_child l c : c ∈ children h l -> reaches h l c
| reaches_step l m c : VRef m ∈ children h l -> reaches h m c -> reaches h l c.

(** A value is acyclic when unfolding it ends: it is a tree, possibly
    with shared parts, and no object below it contains itself. *)
Inductive acyclic (h : store) : value -> Prop :=
| acyclic_leaf v : (forall l, v <> VRef l) -> acyclic h v
| acyclic_node l : (forall c, c ∈ children h l -> acyclic h c) -> acyclic h (VRef l).

Definition invalid_date (v : value) : bool :=
  match v with
  | VDate d => match toISOString d with Some _ => false | None => true end
  | _ => false
  end.

End JS.

(** ** utils/mapping.ts *)

Module Mapping.
Import JS.

(** A transform attached to a mapping is arbitrary code of the caller: it
    may read and change the store, and it may raise. *)
Definition callback : Type := value -> store -> result (value * store).

Record FieldMapping : Type := {
  gristColumn : string;
  apiField : string;
  enabled : option bool;
  transform : option callback
}.

Definition RangeError_date : exn := new_RangeError "Invalid time value".

Section OnPlatform.

Context {p : Platform}.

(** [items.map(item => ...)] in [serializeValue], as [join] reads it: an
    element that is [undefined] is written as the empty string. *)
Fixpoint serialize_items (h : store) (items : list value) : result (list string) :=
  match items with
  | [] => Ok []
  | item :: rest =>
      bind (if negb (nullish item) && typeof_object item
               && negb (match item with VDate _ => true | _ => false end)
            then bind (JSON_stringify h item) (fun text => Ok (default EmptyString text))
            else Ok (String_ item))
           (fun text => bind (serialize_items h rest) (fun texts => Ok (text :: texts)))
  end.

Definition serializeValue (h : store) (v : value) : result value :=
  match v with
  | undefined | null => Ok v
  | VDate d =>
      match toISOString d with
      | Some iso => Ok (VStr iso)
      | None => Throw RangeError_date
      end
  | VRef l =>
      match h !! l with
      | Some (Arr items) =>
          if (length items =? 0)%nat then Ok (VStr EmptyString)
          else bind (serialize_items h items) (fun texts => Ok (VStr (Str.join ";" texts)))
      | _ =>
          bind (JSON_stringify h v)
               (fun text => Ok (match text with Some t => VStr t | None => undefined end))
      end
  | _ => Ok v
  end.

(** The loop of [getNestedValue] over the keys of the path. *)
Fixpoint walk (h : store) (keys : list string) (current : value) : result value :=
  match keys with
  | [] => Ok current
  | key :: rest =>
      if nullish current then Ok undefined
      else bind (get h current key) (walk h rest)
  end.

Definition getNestedValue (h : store) (obj : value) (path : string) : result value :=
  if Str.is_empty path || negb (truthy obj) then Ok undefined
  else walk h (Str.split "." path) obj.

(** The property of a value that has properties, where it is data. *)
Definition read (h : store) (v : value) (key : string) : value :=
  match get h v key with Ok x => x | _ => undefined end.

(** The loop of [transformRecord]; [gristRecord] is the object being
    filled: its own properties and its prototype. *)
Fixpoint transform_loop (apiRecord : value) (mappings : list FieldMapping)
  (gristRecord : list (string * value) * prototype) (h : store)
  : result (list (string * value) * prototype * store) :=
  match mappings with
  | [] => Ok (gristRecord, h)
  | mapping :: rest =>
      if Str.is_empty (gristColumn mapping) || Str.is_empty (apiField mapping)
      then transform_loop apiRecord rest gristRecord h
      else if bool_decide (enabled mapping = Some false)
      then transform_loop apiRecord rest gristRecord h
      else
        bind (getNestedValue h apiRecord (apiField mapping)) (fun v =>
        bind (match transform mapping with
              | Some f => f v h
              | None => bind (serializeValue h v) (fun v' => Ok (v', h))
              end) (fun '(v', h') =>
        transform_loop apiRecord rest (assign h' (gristColumn mapping) v' gristRecord) h'))
  end.

(** The record returned is given by its own properties: what
    [Object.keys] and [JSON.stringify] see of it. *)
Definition transformRecord (apiRecord : value) (mappings : list FieldMapping)
  (h : store) : result (list (string * value) * store) :=
  bind (transform_loop apiRecord mappings ([], Object_prototype) h)
       (fun '(gristRecord, h') => Ok (gristRecord.1, h')).

Fixpoint transform_each (records : list value) (mappings : list FieldMapping)
  (h : store) : result (list (list (string * value)) * store) :=
  match records with
  | [] => Ok ([], h)
  | record :: rest =>
      bind (transformRecord record mappings h) (fun '(r, h') =>
      bind (transform_each rest mappings h') (fun '(rs, h'') => Ok (r :: rs, h'')))
  end.

Definition transformRecords (apiRecords : value) (mappings : list FieldMapping)
  (h : store) : result (list (list (string * value)) * store) :=
  match apiRecords with
  | VRef l =>
      match h !! l with
      | Some (Arr records) => transform_each records mappings h
      | _ => Ok ([], h)
      end
  | _ => Ok ([], h)
  end.

End OnPlatform.

Definition isValidMapping (mapping : FieldMapping) : bool :=
  negb (Str.is_empty (gristColumn mapping)) && negb (Str.is_empty (apiField mapping)).

Definition getValidMappings (mappings : list FieldMapping) : list FieldMapping :=
  filter (fun m => Is_true (isValidMapping m)) mappings.

Section OnPlatform.

Context {p : Platform}.

(** [obj.hasOwnProperty(key)] for a key the loop visits.  The method is
    looked up on the object: a member inherited under this name is the
    method of the language, which answers [true] for an own property; an
    own property of this name is data, and calling it raises. *)
Definition hasOwnProperty (h : store) (obj : value) : result unit :=
  match get h obj "hasOwnProperty" with
  | Beyond => Ok ()
  | Ok _ => Throw (TypeError_call "obj.hasOwnProperty")
  | Throw e => Throw e
  end.

(** The loop of [extractAllKeys] over the properties of [obj]; [below]
    is the recursive call. *)
Fixpoint extract_loop (h : store) (obj : value) (prefix : string)
  (below : value -> string -> result (list string)) (props : list (string * value))
  : result (list string) :=
  match props with
  | [] => Ok []
  | (key, v) :: rest =>
      bind (hasOwnProperty h obj) (fun _ =>
      let path := if Str.is_empty prefix then key else prefix +:+ "." +:+ key in
      bind (if typeof_object v && negb (nullish v) && negb (Array_isArray h v)
            then below v path else Ok []) (fun nested =>
      bind (extract_loop h obj prefix below rest) (fun others =>
      Ok (path :: nested ++ others))))
  end.

(** [maxDepth] counts down to zero; a negative depth behaves as zero. *)
Fixpoint extractAllKeys (h : store) (obj : value) (prefix : string) (maxDepth : nat)
  : result (list string) :=
  match maxDepth with
  | O => Ok []
  | S depth =>
      if negb (truthy obj) || negb (typeof_object obj) then Ok []
      else extract_loop h obj prefix (fun v path => extractAllKeys h v path depth)
             (own_properties h obj)
  end.

End OnPlatform.

(** A mapping is applied by [transformRecord] when it has both sides and
    is not switched off. *)
Definition applied (m : FieldMapping) : Prop :=
  negb (Str.is_empty (gristColumn m)) && negb (Str.is_empty (apiField m)) = true
  /\ enabled m <> Some false.

(** A mapping of the list is applied and writes to the column. *)
Definition names (column : string) (mappings : list FieldMapping) : Prop :=
  exists m, m ∈ mappings /\ applied m /\ gristColumn m = column.

Definition criticalColumns : list (string * string) :=
  [("id", "api_id"); ("createdAt", "createdAt"); ("updatedAt", "updatedAt")].

Definition derive_column (apiField : string) : string :=
  match assoc apiField criticalColumns with
  | Some column => if Str.is_empty column then Str.replace_all "." "_" apiField else column
  | None => Str.replace_all "." "_" apiField
  end.



Section OnPlatform.

Context {p : Platform}.

Definition generateMappingsFromApiData (h : store) (sampleData : value)
  (defaultEnabled : bool) : result (list FieldMapping) :=
  if negb (truthy sampleData) || negb (typeof_object sampleData) then Ok []
  else
    bind (extractAllKeys h sampleData EmptyString 5) (fun apiFields =>
    Ok (map (fun apiField =>
               {| apiField := apiField;
                  gristColumn := derive_column apiField;
                  enabled := Some defaultEnabled;
                  transform := None |})
            apiFields)).



End OnPlatform.

(** The walk as the specification words it, to compare [getNestedValue]
    with: one key at a time, each the name of a property the value
    reached has of its own, down to [x]. *)
Fixpoint reached (h : store) (v : value) (keys : list string) (x : value) : Prop :=
  match keys with
  | [] => x = v
  | key :: rest => exists y, own h v key = Some (Ok y) /\ reached h y rest x
  end.


(** A key that a dotted path can name: not empty and without a dot. *)
Definition plain_key (key : string) : bool :=
  negb (Str.is_empty key) && negb (Str.includes "." key).

(** Every key met within [depth] levels below a value is plain, and no
    object has a key twice. *)
Fixpoint plain (h : store) (depth : nat) (v : value) : Prop :=
  match depth with
  | O => True
  | S d =>
      NoDup (own_properties h v).*1
      /\ forall key x, (key, x) ∈ own_properties h v -> plain_key key = true /\ plain h d x
  end.

(** The keys name own properties, one below the other, and the last one
    holds [x]. *)
Fixpoint resolves (h : store) (v : value) (keys : list string) (x : value) : Prop :=
  match keys with
  | [] => x = v
  | key :: rest =>
      exists y, assoc key (own_properties h v) = Some y /\ resolves h y rest x
  end.

End Mapping.

(** ** components/MappingTable.vue

    The functions of the table that edit the list of mappings.  Each one
    emits the new list; [updateMapping] emits nothing ([None]) when the
    row does not exist. *)

Module MappingTable.
Import JS Mapping.

Definition blank : FieldMapping :=
  {| gristColumn := EmptyString; apiField := EmptyString; enabled := Some true;
     transform := None |}.

Definition addMapping (mappings : list FieldMapping) : list FieldMapping :=
  mappings ++ [blank].

(** [mappings.filter((_, i) => i !== index)] *)
Definition removeMapping (mappings : list FieldMapping) (index : nat) : list FieldMapping :=
  (filter (fun im => im.1 <> index) (imap (fun i m => (i, m)) mappings)).*2.

(** The field [updateMapping] sets, with its value. *)
Inductive edit : Type :=
| set_gristColumn (value : string)
| set_apiField (value : string)
| set_enabled (value : bool).

(** [{ ...currentMapping, [field]: value }] *)
Definition edited (currentMapping : FieldMapping) (e : edit) : FieldMapping :=
  match e with
  | set_gristColumn value =>
      {| gristColumn := value; apiField := apiField currentMapping;
         enabled := enabled currentMapping; transform := transform currentMapping |}
  | set_apiField value =>
      {| gristColumn := gristColumn currentMapping; apiField := value;
         enabled := enabled currentMapping; transform := transform currentMapping |}
  | set_enabled value =>
      {| gristColumn := gristColumn currentMapping; apiField := apiField currentMapping;
         enabled := Some value; transform := transform currentMapping |}
  end.

Definition updateMapping (mappings : list FieldMapping) (index : nat) (e : edit)
  : option (list FieldMapping) :=
  match mappings !! index with
  | None => None
  | Some currentMapping => Some (<[index := edited currentMapping e]> mappings)
  end.

Definition with_enabled (value : bool) (m : FieldMapping) : FieldMapping :=
  {| gristColumn := gristColumn m; apiField := apiField m; enabled := Some value;
     transform := transform m |}.

Definition selectAll (mappings : list FieldMapping) : list FieldMapping :=
  with_enabled true <$> mappings.

Definition deselectAll (mappings : list FieldMapping) : list FieldMapping :=
  with_enabled false <$> mappings.

Definition enabledCount (mappings : list FieldMapping) : nat :=
  length (filter (fun m => enabled m <> Some false) mappings).

End MappingTable.

(** ** components/wizard/Step1ApiSource.vue

    The reading of the body of the response in [fetchApiData]: the
    records are the body when it is an array, else the array under
    [data], [results] or [items], else the body alone. *)

Module ApiSource.
Import JS.

Definition elements (h : store) (v : value) : option (list value) :=
  match v with
  | VRef l => match h !! l with Some (Arr elems) => Some elems | _ => None end
  | _ => None
  end.

Section OnPlatform.

Context {p : Platform}.

(** [data[key] && Array.isArray(data[key])], with the array. *)
Definition wrapped (h : store) (data : value) (key : string) : result (option (list value)) :=
  bind (get h data key) (fun x => Ok (if truthy x then elements h x else None)).

Definition apiData (h : store) (data : value) : result (list value) :=
  match elements h data with
  | Some records => Ok records
  | None =>
      bind (wrapped h data "data") (fun found =>
      match found with
      | Some records => Ok records
      | None =>
          bind (wrapped h data "results") (fun found =>
          match found with
          | Some records => Ok records
          | None =>
              bind (wrapped h data "items") (fun found =>
              match found with
              | Some records => Ok records
              | None => Ok [data]
              end)
          end)
      end)
  end.

End OnPlatform.

End ApiSource.

(** ** utils/errorHandler.ts *)

Module ErrorHandler.
Import JS.

Inductive ErrorType : Type :=
| cors
| network
| unauthorized
| forbidden
| not_found
| unprocessable
| server_error
| timeout
| invalid_json
| unknown.

Record ErrorInfo : Type := {
  type : ErrorType;
  title : string;
  message : string;
  explanation : string;
  solutions : list string;
  technicalDetails : option string
}.

(** [error.message?.toLowerCase() || ''] *)
Definition lowered (error : exn) : string :=
  match JS.message error with
  | Some m => Str.toLowerCase m
  | None => EmptyString
  end.

Definition is_TypeError (error : exn) : bool :=
  bool_decide (JS.name error = Some "TypeError").

Definition isCorsError (error : exn) : bool :=
  let message := lowered error in
  Str.includes "cors" message
  || Str.includes "cross-origin" message
  || Str.includes "access-control-allow-origin" message
  || (is_TypeError error && Str.includes "failed to fetch" message)
  || (is_TypeError error && Str.includes "network request failed" message).

Definition isNetworkError (error : exn) : bool :=
  let message := lowered error in
  (is_TypeError error && negb (isCorsError error))
  || Str.includes "network" message
  || Str.includes "failed to fetch" message
  || Str.includes "network request failed" message
  || Str.includes "networkerror" message
  || Str.includes "connection" message
  || Str.includes "econnrefused" message
  || Str.includes "offline" message.

(** The first match of [/HTTP (\d+)/]: its group of digits. *)
Fixpoint match_status (s : string) : option string :=
  let here :=
    if String.prefix "HTTP " s
    then let digits := fst (Str.span_digits (Str.drop 5 s)) in
         if Str.is_empty digits then None else Some digits
    else None in
  match here with
  | Some digits => Some digits
  | None =>
      match s with
      | EmptyString => None
      | String _ rest => match_status rest
      end
  end.

(** [parseInt] of the digits matched.  The status is kept as an integer;
    its decimal rendering in the texts below is the language's for every
    status below ten to the twenty-first. *)
Definition parseInt (digits : string) : Z := Str.parse_digits 0 digits.

Definition grist (context : string) : bool := String.eqb context "grist_sync".

Definition analyzeHttpError (status : Z) (error : exn) (context : string) : ErrorInfo :=
  if status =? 401 then
    {| type := unauthorized;
       title := "401 - Non autorisé";
       message := "Authentification requise ou token invalide";
       explanation :=
         if grist context
         then "Le document Grist est privé et nécessite un token API, ou votre token est invalide."
         else "L'API nécessite une authentification que votre backend doit gérer.";
       solutions := [
         if grist context
         then "✓ Ajoutez un token API Grist valide dans la configuration"
         else "✓ Vérifiez que votre backend gère correctement l'authentification";
         "✓ Vérifiez que le token n'a pas expiré";
         "✓ Vérifiez les permissions du token" ];
       technicalDetails := JS.message error |}
  else if status =? 403 then
    {| type := forbidden;
       title := "403 - Accès interdit";
       message := "Permissions insuffisantes";
       explanation :=
         if grist context
         then "Votre token API Grist n'a pas les permissions nécessaires pour modifier ce document ou cette table."
         else "Votre backend ou l'API distante refuse l'accès à cette ressource.";
       solutions := [
         "✓ Vérifiez que vous avez les droits d'accès sur le document/table";
         if grist context
         then "✓ Vérifiez les permissions du token API dans les paramètres Grist"
         else "✓ Contactez l'administrateur de l'API pour obtenir les permissions";
         "✓ Assurez-vous que le token utilisé est le bon" ];
       technicalDetails := JS.message error |}
  else if status =? 404 then
    {| type := not_found;
       title := "404 - Ressource introuvable";
       message := "Document, table ou URL introuvable";
       explanation :=
         if grist context
         then "Le Document ID ou le Table ID spécifié n'existe pas, ou l'URL de l'API Grist est incorrecte."
         else "L'URL du backend est incorrecte ou la ressource n'existe pas.";
       solutions := [
         if grist context
         then "✓ Vérifiez que le Document ID est correct (dans l'URL Grist)"
         else "✓ Vérifiez que l'URL du backend est correcte";
         if grist context
         then "✓ Vérifiez que le Table ID correspond exactement au nom de la table (sensible à la casse)"
         else "✓ Vérifiez que l'endpoint existe";
         if grist context
         then "✓ Testez la connexion avec le bouton " +:+ Str.quote
              +:+ "🔍 Tester la connexion Grist" +:+ Str.quote
         else "✓ Testez l'URL dans un navigateur ou avec un outil comme Postman" ];
       technicalDetails := JS.message error |}
  else if status =? 422 then
    {| type := unprocessable;
       title := "422 - Données invalides";
       message := "Erreur de validation des données";
       explanation := "Les données envoyées ne respectent pas le format attendu par l'API.";
       solutions := [
         "✓ Vérifiez que les types de données correspondent (texte, nombre, date, etc.)";
         "✓ Vérifiez que les colonnes Grist existent et sont correctement configurées";
         "✓ Vérifiez le mapping des champs entre l'API et Grist";
         "✓ Consultez le journal de synchronisation pour plus de détails" ];
       technicalDetails := JS.message error |}
  else if (status =? 500) || (status =? 502) || (status =? 503) || (status =? 504) then
    {| type := server_error;
       title := Str.of_Z status +:+ " - Erreur serveur";
       message := "Le serveur a rencontré une erreur";
       explanation :=
         if grist context
         then "Le serveur Grist a rencontré une erreur interne. Cela peut être temporaire."
         else "Votre backend ou l'API distante a rencontré une erreur interne.";
       solutions := [
         "✓ Réessayez dans quelques instants";
         "✓ Vérifiez le statut du service (Grist ou votre backend)";
         "✓ Si le problème persiste, contactez le support";
         "✓ Consultez les logs du serveur pour plus d'informations" ];
       technicalDetails := JS.message error |}
  else
    {| type := unknown;
       title := "Erreur HTTP " +:+ Str.of_Z status;
       message := "Le serveur a renvoyé une erreur " +:+ Str.of_Z status;
       explanation := "Une erreur HTTP inattendue s'est produite.";
       solutions := [
         "✓ Consultez la documentation de l'API";
         "✓ Vérifiez la console du navigateur pour plus de détails";
         "✓ Contactez le support si nécessaire" ];
       technicalDetails := JS.message error |}.

(** The messages truthy and holding [needle]:
    [error.message && error.message.includes(needle)]. *)
Definition message_includes (needle : string) (error : exn) : bool :=
  match JS.message error with
  | Some m => negb (Str.is_empty m) && Str.includes needle m
  | None => false
  end.

Definition http_status (error : exn) : option Z :=
  if message_includes "HTTP" error
  then match JS.message error with
       | Some m => parseInt <$> match_status m
       | None => None
       end
  else None.

Definition analyzeError (error : exn) (context : string) : ErrorInfo :=
  if isCorsError error then
    {| type := cors;
       title := "Erreur CORS (Cross-Origin Resource Sharing)";
       message := "La requête a été bloquée par la politique CORS du navigateur";
       explanation :=
         if String.eqb context "api_fetch"
         then "Votre backend n'autorise pas les requêtes depuis ce domaine. Les navigateurs bloquent les requêtes cross-origin pour des raisons de sécurité."
         else "L'API Grist ou votre backend n'autorise pas les requêtes depuis ce domaine.";
       solutions := [
         "✓ Configurez votre backend pour autoriser les requêtes CORS depuis ce domaine";
         "✓ Ajoutez les headers CORS appropriés : Access-Control-Allow-Origin";
         "✓ Pour le développement local, utilisez un proxy ou configurez votre serveur";
         "⚠️ Évitez d'utiliser des extensions pour désactiver CORS en production" ];
       technicalDetails := Some (Str.or_else (JS.message error) "CORS policy violation") |}
  else if isNetworkError error then
    {| type := network;
       title := "Erreur de connexion réseau";
       message := "Impossible de se connecter au serveur";
       explanation := "Le serveur est injoignable. Cela peut être dû à une connexion internet interrompue, une URL incorrecte, ou un serveur hors ligne.";
       solutions := [
         "✓ Vérifiez votre connexion internet";
         "✓ Vérifiez que l'URL est correcte et accessible";
         "✓ Vérifiez que le serveur est en ligne";
         "✓ Vérifiez qu'il n'y a pas de pare-feu bloquant la connexion" ];
       technicalDetails := Some (Str.or_else (JS.message error) "Network request failed") |}
  else
    match http_status error with
    | Some status => analyzeHttpError status error context
    | None =>
        if message_includes "JSON" error || message_includes "parse" error then
          {| type := invalid_json;
             title := "Erreur de format de données";
             message := "La réponse du serveur n'est pas au format JSON valide";
             explanation := "Le serveur a renvoyé des données qui ne peuvent pas être interprétées comme du JSON.";
             solutions := [
               "✓ Vérifiez que l'URL pointe vers une API JSON";
               "✓ Vérifiez que le serveur renvoie bien du JSON et non du HTML ou du texte";
               "✓ Consultez la console du navigateur (F12) pour voir la réponse brute" ];
             technicalDetails := JS.message error |}
        else if match JS.message error with
                | Some m => negb (Str.is_empty m) && Str.includes "timeout" (Str.toLowerCase m)
                | None => false
                end then
          {| type := timeout;
             title := "Délai d'attente dépassé";
             message := "Le serveur met trop de temps à répondre";
             explanation := "La requête a pris trop de temps et a été annulée.";
             solutions := [
               "✓ Vérifiez que le serveur fonctionne correctement";
               "✓ Réessayez plus tard";
               "✓ Vérifiez qu'il n'y a pas de problème de performance côté serveur" ];
             technicalDetails := JS.message error |}
        else
          {| type := unknown;
             title := "Erreur inattendue";
             message := Str.or_else (JS.message error) "Une erreur inconnue s'est produite";
             explanation := "Une erreur imprévue s'est produite. Consultez les détails techniques ci-dessous.";
             solutions := [
               "✓ Vérifiez la console du navigateur (F12) pour plus de détails";
               "✓ Réessayez l'opération";
               "✓ Contactez le support si le problème persiste" ];
             technicalDetails := Some (Str.or_else (stack error) (toString error)) |}
    end.

(** The table of the specification, to compare [analyzeHttpError] with. *)
Definition kind_of_status (status : Z) : ErrorType :=
  match status with
  | 401 => unauthorized
  | 403 => forbidden
  | 404 => not_found
  | 422 => unprocessable
  | 500 | 502 | 503 | 504 => server_error
  | _ => unknown
  end.

(** An error shaped like a failure of [fetch]: a [TypeError] whose
    message holds one of the two texts browsers give it. *)
Definition fetch_failure_shaped (error : exn) : bool :=
  is_TypeError error
  && (Str.includes "failed to fetch" (lowered error)
      || Str.includes "network request failed" (lowered error)).

(** The messages the network detector looks for. *)
Definition mentions_network (error : exn) : bool :=
  let message := lowered error in
  Str.includes "network" message
  || Str.includes "failed to fetch" message
  || Str.includes "network request failed" message
  || Str.includes "networkerror" message
  || Str.includes "connection" message
  || Str.includes "econnrefused" message
  || Str.includes "offline" message.

(** [solutions[0]] inside a template literal. *)
Definition first_solution (errorInfo : ErrorInfo) : string :=
  default "undefined" (head (solutions errorInfo)).

Definition formatErrorForLog (errorInfo : ErrorInfo) : string :=
  "❌ " +:+ title errorInfo +:+ Str.newline +:+ Str.newline
  +:+ explanation errorInfo +:+ Str.newline +:+ Str.newline
  +:+ "💡 Solutions :" +:+ Str.newline +:+ Str.join Str.newline (solutions errorInfo).

Definition formatErrorShort (errorInfo : ErrorInfo) : string :=
  message errorInfo +:+ " - " +:+ first_solution errorInfo.

End ErrorHandler.

(** ** utils/grist.ts

    The methods of [GristClient] are computations that append to a trace
    what they make observable: a call of the log callback, a console
    warning, a request handed to [fetch].  The host answers a request by
    resolving or rejecting; [fetch], [text()] and [json()] reject with
    instances of [Error] ([TypeError], [DOMException], [SyntaxError]), as
    the Fetch standard has it.  The body [json()] gives is a value of the
    store, of any shape: the types the sources declare for it are not
    checked when the program runs. *)

Module Grist.
Import JS.

Record GristConfig : Type := {
  docId : string;
  tableId : string;
  apiTokenGrist : option string;
  gristApiUrl : option string;
  autoCreateColumns : option bool
}.

(** An element of the argument of [addColumns]. *)
Record ColumnSpec : Type := {
  spec_id : string;
  spec_label : option string;
  spec_type : option string
}.

Inductive level : Type := info | success | error.

Record Request : Type := {
  method : string;
  url : string;
  headers : list (string * string);
  body : option string
}.

Inductive event : Type :=
| Log (message : string) (type : level)
| ConsoleWarn (message : string)
| Fetch (request : Request).

Inductive settled (A : Type) : Type :=
| Resolved (a : A)
| Rejected (name message : string).
Arguments Resolved {A} a.
Arguments Rejected {A} name message.

Record Response (J : Type) : Type := {
  status : Z;
  text : settled string;
  json : settled J
}.
Arguments status {J} _.
Arguments text {J} _.
Arguments json {J} _.

Definition ok {J} (response : Response J) : bool :=
  (200 <=? status response) && (status response <=? 299).

(** What the network answers, per endpoint. *)
Record Host : Type := {
  GET_records : Request -> settled (Response value);
  GET_columns : Request -> settled (Response value);
  POST_records : Request -> settled (Response value);
  POST_columns : Request -> settled (Response value)
}.

(** [onLog] tells whether a callback was given; its calls are the [Log]
    events of the trace. *)
Record GristClient : Type := { config : GristConfig; onLog : bool }.

(** *** Computations with a trace and exceptions *)

Definition M (A : Type) : Type := list event -> result A * list event.

Definition ret {A} (a : A) : M A := fun t => (Ok a, t).

Definition throw {A} (e : exn) : M A := fun t => (Throw e, t).

Definition mbind {A B} (m : M A) (k : A -> M B) : M B :=
  fun t => match m t with
           | (Ok a, t') => k a t'
           | (Throw e, t') => (Throw e, t')
           | (Beyond, t') => (Beyond, t')
           end.

Definition try_catch {A} (m : M A) (handler : exn -> M A) : M A :=
  fun t => match m t with
           | (Ok a, t') => (Ok a, t')
           | (Throw e, t') => handler e t'
           | (Beyond, t') => (Beyond, t')
           end.

Definition emit (e : event) : M unit := fun t => (Ok (), t ++ [e]).

Definition lift {A} (r : result A) : M A := fun t => (r, t).

Definition await {A} (s : settled A) : M A :=
  match s with
  | Resolved a => ret a
  | Rejected name message => throw (new_error name message)
  end.

Definition fetch {J} (answer : Request -> settled (Response J)) (request : Request)
  : M (Response J) :=
  mbind (emit (Fetch request)) (fun _ => await (answer request)).

Declare Scope client_scope.
Delimit Scope client_scope with client.
Notation "x <- m ;; k" := (mbind m (fun x => k))
  (at level 100, m at next level, right associativity) : client_scope.
Notation "m ;; k" := (mbind m (fun _ => k))
  (at level 100, right associativity) : client_scope.
Local Open Scope client_scope.

(** *** Request bodies *)

(** A record to insert: a plain object, by its own properties. *)
Definition record : Type := list (string * value).

Section OnPlatform.

Context {p : Platform}.

(** [JSON.stringify] of an object given by its properties. *)
Definition JSON_stringify_object (h : store) (props : record) : result string :=
  match serialize_members (serialize_property (S (size h)) h []) props with
  | Some (Ok texts) => Ok ("{" +:+ Str.join "," texts +:+ "}")
  | Some (Throw e) => Throw e
  | Some Beyond => Beyond
  | None => Throw (new_RangeError "Maximum call stack size exceeded")
  end.

Fixpoint stringify_fields (h : store) (records : list record) : result (list string) :=
  match records with
  | [] => Ok []
  | fields :: rest =>
      bind (JSON_stringify_object h fields) (fun text =>
      bind (stringify_fields h rest) (fun texts =>
      Ok (("{" +:+ JSON_quote "fields" +:+ ":" +:+ text +:+ "}") :: texts)))
  end.

(** [JSON.stringify({ records: records.map(fields => ({ fields })) })] *)
Definition records_body (h : store) (records : list record) : result string :=
  bind (stringify_fields h records) (fun texts =>
  Ok ("{" +:+ JSON_quote "records" +:+ ":[" +:+ Str.join "," texts +:+ "]}")).

End OnPlatform.

Definition column_text (col : ColumnSpec) : string :=
  "{" +:+ JSON_quote "id" +:+ ":" +:+ JSON_quote (spec_id col) +:+ ","
  +:+ JSON_quote "fields" +:+ ":{"
  +:+ JSON_quote "colId" +:+ ":" +:+ JSON_quote (spec_id col) +:+ ","
  +:+ JSON_quote "label" +:+ ":" +:+ JSON_quote (Str.or_else (spec_label col) (spec_id col)) +:+ ","
  +:+ JSON_quote "type" +:+ ":" +:+ JSON_quote (Str.or_else (spec_type col) "Text")
  +:+ "}}".

(** [JSON.stringify] of the body [addColumns] builds. *)
Definition columns_body (cols : list ColumnSpec) : string :=
  "{" +:+ JSON_quote "columns" +:+ ":[" +:+ Str.join "," (column_text <$> cols) +:+ "]}".

(** *** Type inference *)

(** [/^\d{4}-\d{2}-\d{2}/.test(s)] *)
Definition dateRegex (s : string) : bool :=
  match s with
  | String y1 (String y2 (String y3 (String y4 (String d1
      (String m1 (String m2 (String d2 (String a1 (String a2 _))))))))) =>
      Str.is_digit y1 && Str.is_digit y2 && Str.is_digit y3 && Str.is_digit y4
      && Ascii.eqb d1 "-" && Str.is_digit m1 && Str.is_digit m2
      && Ascii.eqb d2 "-" && Str.is_digit a1 && Str.is_digit a2
  | _ => false
  end.

(** The type [inferColumnType] gives for a value that is not [null] or
    [undefined]. *)
Definition column_type (v : value) : string :=
  match v with
  | VNum n => if Number_isInteger n then "Int" else "Numeric"
  | VBool _ => "Bool"
  | VStr s => if dateRegex s then "DateTime" else "Text"
  | _ => "Text"
  end.

Section OnPlatform.

Context {p : Platform}.

(** The loop of [inferColumnType].  [record[columnName]] is the own
    property of the record or, when it has none of this name, the member
    every object inherits under it: a function or an object of the
    platform, for which the type is [Text]. *)
Fixpoint infer (records : list record) (columnName : string) : string :=
  match records with
  | [] => "Text"
  | rec :: rest =>
      match assoc columnName rec with
      | Some v => if nullish v then infer rest columnName else column_type v
      | None => if inherited an_object columnName then "Text" else infer rest columnName
      end
  end.

Definition inferColumnType (records : list record) (columnName : string) : string :=
  infer (take 10 records) columnName.

End OnPlatform.

(** *** The columns a list of records needs *)

(** [set.add(key)]: a [Set] keeps the order of first insertion. *)
Definition Set_add (set : list string) (key : string) : list string :=
  if bool_decide (key ∈ set) then set else set ++ [key].

Definition requiredColumns (records : list record) : list string :=
  fold_left (fun set rec => fold_left Set_add rec.*1 set) records [].

(** [existingColumnIds] are the members of a [Set] of values of any
    kind; [has] is asked for strings. *)
Definition missingColumns (existingColumnIds : list value) (records : list record)
  : list string :=
  filter (fun col => VStr col ∉ existingColumnIds) (requiredColumns records).

Section OnPlatform.

Context {p : Platform}.

Definition columnsToCreate (existingColumnIds : list value) (records : list record)
  : list ColumnSpec :=
  (fun id => {| spec_id := id; spec_label := Some id;
                spec_type := Some (inferColumnType records id) |})
    <$> missingColumns existingColumnIds records.

End OnPlatform.

(** *** The client *)

Section Client.

Context {p : Platform}.

Variable h : store.
Variable host : Host.
Variable this : GristClient.

Definition log (message : string) (type : level) : M unit :=
  if onLog this then emit (Log message type) else ret ().

Definition baseUrl : string :=
  Str.or_else (gristApiUrl (config this)) "https://docs.getgrist.com".

Definition buildApiUrl (endpoint : string) : string :=
  baseUrl +:+ "/api/docs/" +:+ docId (config this)
  +:+ "/tables/" +:+ tableId (config this) +:+ endpoint.

Definition buildHeaders : list (string * string) :=
  ("Content-Type", "application/json") ::
  match apiTokenGrist (config this) with
  | Some token =>
      if Str.is_empty token then [] else [("Authorization", "Bearer " +:+ token)]
  | None => []
  end.

(** [throw new Error(`Erreur HTTP ${response.status}: ${errorText}`)] *)
Definition http_failure {J A} (response : Response J) : M A :=
  errorText <- await (text response);;
  throw (new_Error ("Erreur HTTP " +:+ Str.of_Z (status response) +:+ ": " +:+ errorText)).

(** The end of the [catch] blocks of the four requests. *)
Definition rethrow {A} (error : exn) (errorInfo : ErrorHandler.ErrorInfo) : M A :=
  if instanceof_Error error
  then throw (new_Error (ErrorHandler.message errorInfo +:+ " - "
                         +:+ ErrorHandler.first_solution errorInfo))
  else throw error.

Definition log_diagnosis (errorInfo : ErrorHandler.ErrorInfo) : M unit :=
  log (ErrorHandler.title errorInfo +:+ ": " +:+ ErrorHandler.message errorInfo) error;;
  log ("💡 " +:+ ErrorHandler.first_solution errorInfo) error.

Definition reading (limit : option number) : Request :=
  {| method := "GET";
     url := buildApiUrl "/records" +:+
            match limit with
            | Some n => if truthy (VNum n) then "?limit=" +:+ Number_toString n
                        else EmptyString
            | None => EmptyString
            end;
     headers := buildHeaders;
     body := None |}.

(** [data[key] || []]: [None] is the new empty array. *)
Definition or_empty (data : value) (key : string) : M (option value) :=
  found <- lift (get h data key);;
  ret (if truthy found then Some found else None).

Definition getRecords (limit : option number) : M (option value) :=
  try_catch
    (response <- fetch (GET_records host) (reading limit);;
     if negb (ok response) then http_failure response
     else data <- await (json response);;
          or_empty data "records")
    (fun error =>
       let errorInfo := ErrorHandler.analyzeError error "grist_sync" in
       rethrow error errorInfo).

(** The URL [getColumns] and [addColumns] both build. *)
Definition columnsUrl : string :=
  baseUrl +:+ "/api/docs/" +:+ docId (config this)
  +:+ "/tables/" +:+ tableId (config this) +:+ "/columns".

Definition listing : Request :=
  {| method := "GET"; url := columnsUrl; headers := buildHeaders; body := None |}.

Definition creation (cols : list ColumnSpec) : Request :=
  {| method := "POST"; url := columnsUrl; headers := buildHeaders;
     body := Some (columns_body cols) |}.

Definition getColumns : M (option value) :=
  try_catch
    (response <- fetch (GET_columns host) listing;;
     if negb (ok response) then http_failure response
     else data <- await (json response);;
          or_empty data "columns")
    (fun error =>
       let errorInfo := ErrorHandler.analyzeError error "grist_sync" in
       rethrow error errorInfo).

(** [None] is the value [{ columns: [] }] returned when nothing is asked
    for; otherwise the body of the response. *)
Definition addColumns (cols : list ColumnSpec) : M (option value) :=
  if (length cols =? 0)%nat then ret None
  else
    try_catch
      (response <- fetch (POST_columns host) (creation cols);;
       if negb (ok response) then http_failure response
       else data <- await (json response);;
            ret (Some data))
      (fun error =>
         let errorInfo := ErrorHandler.analyzeError error "grist_sync" in
         log_diagnosis errorInfo;;
         rethrow error errorInfo).

Definition warning (error : exn) : string :=
  "Avertissement lors de la création automatique des colonnes: "
  +:+ default "undefined" (JS.message error).

(** [col => col.fields.colId] over the elements of an array. *)
Fixpoint colIds (cols : list value) : result (list value) :=
  match cols with
  | [] => Ok []
  | col :: rest =>
      bind (get h col "fields") (fun fields =>
      bind (get h fields "colId") (fun colId =>
      bind (colIds rest) (fun ids => Ok (colId :: ids))))
  end.

(** [existingColumns.map(col => col.fields.colId)] on what [getColumns]
    returned: the method of arrays on an array; on any other value the
    property [map] is looked up, and what is found is data, the call of
    which raises. *)
Definition existingColumnIds (existingColumns : option value) : result (list value) :=
  match existingColumns with
  | None => Ok []
  | Some v =>
      match ApiSource.elements h v with
      | Some cols => colIds cols
      | None => bind (get h v "map") (fun _ => Throw (TypeError_call "existingColumns.map"))
      end
  end.

(** [existingColumns.length], once the ids are known. *)
Definition existingColumns_length (existingColumns : option value) : nat :=
  match existingColumns with
  | None => 0
  | Some v => length (default [] (ApiSource.elements h v))
  end.

(** The [try] block of [ensureColumnsExist]. *)
Definition createMissingColumns (records : list record) : M unit :=
  log "🔍 Vérification des colonnes existantes..." info;;
  existingColumns <- getColumns;;
  ids <- lift (existingColumnIds existingColumns);;
  log ("✓ " +:+ Str.of_nat (existingColumns_length existingColumns)
       +:+ " colonne(s) existante(s) détectée(s)") success;;
  let missing := missingColumns ids records in
  if (0 <? length missing)%nat then
    log ("➕ Création de " +:+ Str.of_nat (length missing)
         +:+ " colonne(s) manquante(s): " +:+ Str.join ", " missing) info;;
    addColumns (columnsToCreate ids records);;
    log "✅ Colonnes créées avec succès!" success
  else
    log "✓ Toutes les colonnes nécessaires existent déjà" success.

(** Its [catch] block. *)
Definition warn (error : exn) : M unit :=
  if instanceof_Error error then
    log ("⚠️ " +:+ warning error) Grist.error;;
    emit (ConsoleWarn (warning error))
  else ret ().

Definition ensureColumnsExist (records : list record) : M unit :=
  if (length records =? 0)%nat then ret ()
  else try_catch (createMissingColumns records) warn.

Definition insertion (body : string) : Request :=
  {| method := "POST"; url := buildApiUrl "/records"; headers := buildHeaders;
     body := Some body |}.

(** The [try] statement of [addRecords]. *)
Definition postRecords (records : list record) : M value :=
  try_catch
    (body <- lift (records_body h records);;
     response <- fetch (POST_records host) (insertion body);;
     if negb (ok response) then http_failure response
     else await (json response))
    (fun error =>
       let errorInfo := ErrorHandler.analyzeError error "grist_sync" in
       log_diagnosis errorInfo;;
       rethrow error errorInfo).

Definition addRecords (records : option (list record)) : M value :=
  match records with
  | None | Some [] => throw (new_Error "Aucun enregistrement à ajouter")
  | Some records =>
      (if bool_decide (autoCreateColumns (config this) <> Some false)
       then ensureColumnsExist records else ret ());;
      postRecords records
  end.

Definition testConnection : M bool :=
  try_catch (getRecords (Some (Int 1));; ret true) (fun _ => ret false).

Record TokenValidation : Type := {
  valid : bool;
  validation_message : option string;
  needsAuth : bool
}.

Definition probing : Request :=
  {| method := "GET"; url := buildApiUrl "/records?limit=1"; headers := buildHeaders;
     body := None |}.

Definition has_token : bool :=
  match apiTokenGrist (config this) with
  | Some token => negb (Str.is_empty token)
  | None => false
  end.

Definition validateApiToken : M TokenValidation :=
  try_catch
    (response <- fetch (GET_records host) probing;;
     if status response =? 401 then
       ret {| valid := false;
              validation_message := Some "Document privé - Token API requis";
              needsAuth := true |}
     else if status response =? 403 then
       ret {| valid := false;
              validation_message := Some "Token API invalide ou permissions insuffisantes";
              needsAuth := true |}
     else if ok response then
       if has_token then
         ret {| valid := true;
                validation_message := Some "Token API valide et authentifié";
                needsAuth := false |}
       else
         ret {| valid := true;
                validation_message := Some "Document public - Aucune authentification requise";
                needsAuth := false |}
     else
       ret {| valid := false;
              validation_message := Some ("Erreur HTTP " +:+ Str.of_Z (status response));
              needsAuth := (status response =? 401) || (status response =? 403) |})
    (fun error =>
       ret {| valid := false;
              validation_message :=
                if instanceof_Error error then JS.message error
                else Some "Erreur de connexion";
              needsAuth := false |}).

End Client.

(** [new GristClient(config)] has no log callback. *)
Definition insertRecordsToGrist {p : Platform} (h : store) (host : Host)
  (records : option (list record)) (config : GristConfig) : M value :=
  addRecords h host {| config := config; onLog := false |} records.

(** *** URLs of documents

    [new URL(url)] is the parser of the platform: it gives the parts of a
    URL, or fails. *)

Record URL : Type := { protocol : string; host : string; pathname : string }.

Record ParsedGristUrl : Type := { parsed_docId : option string; parsed_gristApiUrl : option string }.

(** A character of the class [[^\/\?#]]. *)
Definition id_char (c : ascii) : bool :=
  negb (Ascii.eqb c "/") && negb (Ascii.eqb c "?") && negb (Ascii.eqb c "#").

Fixpoint span_id (s : string) : string * string :=
  match s with
  | String c rest =>
      if id_char c then let '(cs, tl) := span_id rest in (String c cs, tl)
      else (EmptyString, s)
  | EmptyString => (EmptyString, EmptyString)
  end.

(** The first match of [/\/doc\/([^\/\?#]+)/]: its group. *)
Fixpoint match_doc (s : string) : option string :=
  let here :=
    if String.prefix "/doc/" s
    then let id := fst (span_id (Str.drop 5 s)) in
         if Str.is_empty id then None else Some id
    else None in
  match here with
  | Some id => Some id
  | None =>
      match s with
      | EmptyString => None
      | String _ rest => match_doc rest
      end
  end.

(** The strings of the class, and those that start in it. *)
Fixpoint all_id (s : string) : bool :=
  match s with
  | EmptyString => true
  | String c rest => id_char c && all_id rest
  end.

Definition starts_with_id (s : string) : bool :=
  match s with
  | String c _ => id_char c
  | EmptyString => false
  end.

Section Urls.

Variable new_URL : string -> option URL.

Definition parseGristUrl (url : string) : ParsedGristUrl :=
  match new_URL url with
  | Some urlObj =>
      let baseUrl := protocol urlObj +:+ "//" +:+ host urlObj in
      match match_doc (pathname urlObj) with
      | Some docId =>
          if Str.is_empty docId
          then {| parsed_docId := None; parsed_gristApiUrl := None |}
          else {| parsed_docId := Some docId; parsed_gristApiUrl := Some baseUrl |}
      | None => {| parsed_docId := None; parsed_gristApiUrl := None |}
      end
  | None => {| parsed_docId := None; parsed_gristApiUrl := None |}
  end.

Definition isValidGristUrl (url : string) : bool :=
  let parsed := parseGristUrl url in
  bool_decide (parsed_docId parsed <> None) && bool_decide (parsed_gristApiUrl parsed <> None).

End Urls.

(** The requests of a trace, in order. *)
Definition requests (t : list event) : list Request :=
  omap (fun e => match e with Fetch request => Some request | _ => None end) t.

(** The calls of the log callback in a trace. *)
Definition logged (t : list event) : list (string * level) :=
  omap (fun e => match e with Log message type => Some (message, type) | _ => None end) t.

(** An exception whose message is the message of some diagnosis joined
    with the first step of its remedy. *)
Definition diagnosed (e : exn) : Prop :=
  exists caught,
    instanceof_Error caught = true
    /\ JS.message e
       = Some (ErrorHandler.message (ErrorHandler.analyzeError caught "grist_sync")
               +:+ " - "
               +:+ ErrorHandler.first_solution (ErrorHandler.analyzeError caught "grist_sync")).

(** What the [catch] blocks of the requests raise for an exception that
    is an [Error]. *)
Definition short (caught : exn) : exn :=
  new_Error (ErrorHandler.formatErrorShort (ErrorHandler.analyzeError caught "grist_sync")).

(** What an answer of the host settles to in the [try] blocks: the body
    of a successful response, and otherwise the exception raised. *)
Definition settle {J} (answer : settled (Response J)) : result J :=
  match answer with
  | Rejected name message => Throw (new_error name message)
  | Resolved response =>
      if ok response then
        match json response with
        | Resolved data => Ok data
        | Rejected name message => Throw (new_error name message)
        end
      else
        match text response with
        | Resolved errorText =>
            Throw (new_Error ("Erreur HTTP " +:+ Str.of_Z (status response)
                              +:+ ": " +:+ errorText))
        | Rejected name message => Throw (new_error name message)
        end
  end.

(** The prototypes of the platform hold no member under the names
    [ensureColumnsExist] reads in a listing of columns, but [map] for
    arrays: what is read there is data. *)
Definition listing_is_data {p : Platform} : Prop :=
  forall k,
    inherited k "columns" = false /\ inherited k "fields" = false
    /\ inherited k "colId" = false /\ (k <> an_array -> inherited k "map" = false).

(** The failure the [try] statement of [addRecords] caught: raised while
    the body was written, or what the answer of the host settled to. *)
Definition post_failure {p : Platform} (h : store) (host : Host) (this : GristClient)
  (records : list record) (caught : exn) : Prop :=
  records_body h records = Throw caught
  \/ exists body,
       records_body h records = Ok body
       /\ settle (POST_records host (insertion this body)) = Throw caught.

(** A call of the log callback, when there is one. *)
Definition note (this : GristClient) (message : string) (type : level) : list event :=
  if onLog this then [Log message type] else [].

(** The two calls that tell a diagnosis. *)
Definition told (this : GristClient) (caught : exn) : list event :=
  let errorInfo := ErrorHandler.analyzeError caught "grist_sync" in
  note this (ErrorHandler.title errorInfo +:+ ": " +:+ ErrorHandler.message errorInfo) error
  ++ note this ("💡 " +:+ ErrorHandler.first_solution errorInfo) error.

(** The warning of [ensureColumnsExist]: at the callback and on the
    console. *)
Definition warned (this : GristClient) (e : exn) : list event :=
  note this ("⚠️ " +:+ warning e) error ++ [ConsoleWarn (warning e)].

(** The value [inferColumnType] reads in a record is [null] or
    [undefined]: the record has the property with such a value, or it has
    none of this name and inherits none. *)
Definition skipped {p : Platform} (rec : record) (columnName : string) : Prop :=
  match assoc columnName rec with
  | Some v => nullish v = true
  | None => inherited an_object columnName = false
  end.

End Grist.

(** ** Sample data *)

Module Sample.
Import JS.

(** *** A platform

    The members the prototypes of the language hold, and the errors as
    the V8 engine words them. *)

Definition Object_prototype_names : list string :=
  [ "constructor"; "hasOwnProperty"; "isPrototypeOf"; "propertyIsEnumerable";
    "toLocaleString"; "toString"; "valueOf"; "__proto__";
    "__defineGetter__"; "__defineSetter__"; "__lookupGetter__"; "__lookupSetter__" ].

Definition Array_prototype_names : list string :=
  [ "at"; "concat"; "copyWithin"; "entries"; "every"; "fill"; "filter"; "find";
    "findIndex"; "findLast"; "findLastIndex"; "flat"; "flatMap"; "forEach";
    "includes"; "indexOf"; "join"; "keys"; "lastIndexOf"; "map"; "pop"; "push";
    "reduce"; "reduceRight"; "reverse"; "shift"; "slice"; "some"; "sort"; "splice";
    "toReversed"; "toSorted"; "toSpliced"; "unshift"; "values"; "with" ].

Definition String_prototype_names : list string :=
  [ "anchor"; "at"; "big"; "blink"; "bold"; "charAt"; "charCodeAt"; "codePointAt";
    "concat"; "endsWith"; "fixed"; "fontcolor"; "fontsize"; "includes"; "indexOf";
    "isWellFormed"; "italics"; "lastIndexOf"; "link"; "localeCompare"; "match";
    "matchAll"; "normalize"; "padEnd"; "padStart"; "repeat"; "replace"; "replaceAll";
    "search"; "slice"; "small"; "split"; "startsWith"; "strike"; "sub"; "substr";
    "substring"; "sup"; "toLocaleLowerCase"; "toLocaleUpperCase"; "toLowerCase";
    "toUpperCase"; "toWellFormed"; "trim"; "trimEnd"; "trimLeft"; "trimRight";
    "trimStart" ].

Definition Number_prototype_names : list string :=
  [ "toExponential"; "toFixed"; "toPrecision" ].

Definition Date_prototype_names : list string :=
  [ "getDate"; "getDay"; "getFullYear"; "getHours"; "getMilliseconds"; "getMinutes";
    "getMonth"; "getSeconds"; "getTime"; "getTimezoneOffset"; "getUTCDate";
    "getUTCDay"; "getUTCFullYear"; "getUTCHours"; "getUTCMilliseconds";
    "getUTCMinutes"; "getUTCMonth"; "getUTCSeconds"; "getYear"; "setDate";
    "setFullYear"; "setHours"; "setMilliseconds"; "setMinutes"; "setMonth";
    "setSeconds"; "setTime"; "setUTCDate"; "setUTCFullYear"; "setUTCHours";
    "setUTCMilliseconds"; "setUTCMinutes"; "setUTCMonth"; "setUTCSeconds"; "setYear";
    "toDateString"; "toGMTString"; "toISOString"; "toJSON"; "toLocaleDateString";
    "toLocaleTimeString"; "toTimeString"; "toUTCString" ].

Definition prototype_names (k : kind) : list string :=
  match k with
  | a_boolean => Object_prototype_names
  | a_number => Number_prototype_names ++ Object_prototype_names
  | a_string => String_prototype_names ++ Object_prototype_names
  | a_date => Date_prototype_names ++ Object_prototype_names
  | an_array => Array_prototype_names ++ Object_prototype_names
  | an_object => Object_prototype_names
  end.

Definition constructor_name (h : store) (l : loc) : string :=
  match h !! l with Some (Arr _) => "Array" | _ => "Object" end.

Definition key_text (key : string) : string :=
  match array_index key with
  | Some _ => "index " +:+ key
  | None => if Str.is_empty key then "<anonymous>" else "property '" +:+ key +:+ "'"
  end.

(** The first key under which the object at [parent] holds the one at
    [child]. *)
Definition key_to (h : store) (parent child : loc) : string :=
  default EmptyString
    (fst <$> head (filter (fun kv => kv.2 = VRef child) (own_properties h (VRef parent)))).

Fixpoint circle_lines (h : store) (parent : loc) (path : list loc) : list string :=
  match path with
  | [] => []
  | child :: rest =>
      (Str.newline +:+ "    |     " +:+ key_text (key_to h parent child)
       +:+ " -> object with constructor '" +:+ constructor_name h child +:+ "'")
      :: circle_lines h child rest
  end.

Fixpoint from (l : loc) (path : list loc) : list loc :=
  match path with
  | [] => []
  | m :: rest => if bool_decide (m = l) then m :: rest else from l rest
  end.

(** The objects of the circle, from the one met again down to the
    innermost. *)
Definition circle (stack : list loc) (l : loc) : list loc :=
  from l (reverse stack).

Definition circular_text (h : store) (stack : list loc) (l : loc) : string :=
  let path := tail (circle stack l) in
  let lines := circle_lines h l path in
  "Converting circular structure to JSON"
  +:+ Str.newline +:+ "    --> starting at object with constructor '"
  +:+ constructor_name h l +:+ "'"
  +:+ String.concat EmptyString
        (if (length lines <=? 3)%nat then lines
         else take 2 lines ++ [Str.newline +:+ "    |     ..."] ++ drop (length lines - 1) lines)
  +:+ Str.newline +:+ "    --- " +:+ key_text (key_to h (default l (last path)) l)
  +:+ " closes the circle".

Definition engine : Platform :=
  {| inherited := fun k key => bool_decide (key ∈ prototype_names k);
     cannot_read := fun v key =>
       "Cannot read properties of " +:+ String_ v +:+ " (reading '" +:+ key +:+ "')";
     not_a_function := fun call => call +:+ " is not a function";
     circular_structure := circular_text |}.

(** *** Records *)

(** [{ user: { name: "Alice" } }] at 1, and [{}] at 3. *)
Definition alice : store :=
  <[1%positive := Obj [("user", VRef 2)]]>
  (<[2%positive := Obj [("name", VStr "Alice")]]>
  (<[3%positive := Obj []]> ∅)).

(** A table [T] of a document [D], with a token; a client with a log
    callback. *)
Definition table : Grist.GristConfig :=
  {| Grist.docId := "D"; Grist.tableId := "T"; Grist.apiTokenGrist := Some "secret";
     Grist.gristApiUrl := None; Grist.autoCreateColumns := None |}.

Definition client : Grist.GristClient := {| Grist.config := table; Grist.onLog := true |}.

(** A host no request reaches. *)
Definition unreachable : Grist.Host :=
  {| Grist.GET_records := fun _ => Grist.Rejected "TypeError" "Failed to fetch";
     Grist.GET_columns := fun _ => Grist.Rejected "TypeError" "Failed to fetch";
     Grist.POST_records := fun _ => Grist.Rejected "TypeError" "Failed to fetch";
     Grist.POST_columns := fun _ => Grist.Rejected "TypeError" "Failed to fetch" |}.

Definition answer {J} (status : Z) (data : J) : Grist.Response J :=
  {| Grist.status := status; Grist.text := Grist.Resolved "{}";
     Grist.json := Grist.Resolved data |}.

(** The bodies the hosts below answer with: [{ records: [] }] at 10,
    [{ columns: [{ id: "id", fields: { label: "id", type: "Int",
    colId: "id" } }] }] at 20 and [{ records: [{ id: 10 }, { id: 11 }] }]
    at 30. *)
Definition bodies : store :=
  <[10%positive := Obj [("records", VRef 11)]]>
  (<[11%positive := Arr []]>
  (<[20%positive := Obj [("columns", VRef 21)]]>
  (<[21%positive := Arr [VRef 22]]>
  (<[22%positive := Obj [("id", VStr "id"); ("fields", VRef 23)]]>
  (<[23%positive := Obj [("label", VStr "id"); ("type", VStr "Int"); ("colId", VStr "id")]]>
  (<[30%positive := Obj [("records", VRef 31)]]>
  (<[31%positive := Arr [VRef 32; VRef 33]]>
  (<[32%positive := Obj [("id", VNum (Int 10))]]>
  (<[33%positive := Obj [("id", VNum (Int 11))]]> ∅))))))))).

(** A host whose table has the column [id], that refuses new columns and
    accepts records. *)
Definition restricted : Grist.Host :=
  {| Grist.GET_records := fun _ => Grist.Resolved (answer 200 (VRef 10));
     Grist.GET_columns := fun _ => Grist.Resolved (answer 200 (VRef 20));
     Grist.POST_records := fun _ => Grist.Resolved (answer 200 (VRef 30));
     Grist.POST_columns := fun _ =>
       Grist.Resolved {| Grist.status := 403; Grist.text := Grist.Resolved "forbidden";
                         Grist.json := Grist.Rejected "SyntaxError" "Unexpected token" |} |}.

(** The same table on a host that accepts new columns. *)
Definition open : Grist.Host :=
  {| Grist.GET_records := Grist.GET_records restricted;
     Grist.GET_columns := Grist.GET_columns restricted;
     Grist.POST_records := Grist.POST_records restricted;
     Grist.POST_columns := fun _ => Grist.Resolved (answer 200 null) |}.

(** A host that answers every request with the body [null]. *)
Definition hollow : Grist.Host :=
  {| Grist.GET_records := fun _ => Grist.Resolved (answer 200 null);
     Grist.GET_columns := fun _ => Grist.Resolved (answer 200 null);
     Grist.POST_records := fun _ => Grist.Resolved (answer 200 null);
     Grist.POST_columns := fun _ => Grist.Resolved (answer 200 null) |}.

(** Two records with the keys [id] and [score]. *)
Definition scores : list Grist.record :=
  [ [("id", VNum (Int 1)); ("score", VNum (Int 85))];
    [("id", VNum (Int 2)); ("score", VNum (Int 92))] ].

(** [{ id: 1, user: { name: "Alice" }, email: "a@x.com" }] at 1, the
    array [[1, 2, 3]] at 3, the empty array at 4, [{ x: 1 }] at 5 and
    [{ a: { b: { c: 1 } } }] at 6. *)
Definition documented : store :=
  <[1%positive := Obj [("id", VNum (Int 1)); ("user", VRef 2); ("email", VStr "a@x.com")]]>
  (<[2%positive := Obj [("name", VStr "Alice")]]>
  (<[3%positive := Arr [VNum (Int 1); VNum (Int 2); VNum (Int 3)]]>
  (<[4%positive := Arr []]>
  (<[5%positive := Obj [("x", VNum (Int 1))]]>
  (<[6%positive := Obj [("a", VRef 7)]]>
  (<[7%positive := Obj [("b", VRef 8)]]>
  (<[8%positive := Obj [("c", VNum (Int 1))]]> ∅))))))).

Definition name_and_email : list Mapping.FieldMapping :=
  [ {| Mapping.gristColumn := "Name"; Mapping.apiField := "user.name";
       Mapping.enabled := None; Mapping.transform := None |};
    {| Mapping.gristColumn := "Email"; Mapping.apiField := "email";
       Mapping.enabled := None; Mapping.transform := None |} ].

(** Three mappings to the column [Name]: the first two applied, the
    third switched off. *)
Definition first_name : Mapping.FieldMapping :=
  {| Mapping.gristColumn := "Name"; Mapping.apiField := "user.name";
     Mapping.enabled := None; Mapping.transform := None |}.

Definition second_name : Mapping.FieldMapping :=
  {| Mapping.gristColumn := "Name"; Mapping.apiField := "user.email";
     Mapping.enabled := Some true; Mapping.transform := None |}.

Definition hidden_name : Mapping.FieldMapping :=
  {| Mapping.gristColumn := "Name"; Mapping.apiField := "user.name";
     Mapping.enabled := Some false; Mapping.transform := None |}.

(** [{ user: { name: "Alice", email: "user@example.org" } }] at 1. *)
Definition account : store :=
  <[1%positive := Obj [("user", VRef 2)]]>
  (<[2%positive := Obj [("name", VStr "Alice"); ("email", VStr "user@example.org")]]> ∅).

(** The array [[{ name: "Alice" }, { name: "Bob" }]] at 1. *)
Definition people : store :=
  <[1%positive := Arr [VRef 2; VRef 3]]>
  (<[2%positive := Obj [("name", VStr "Alice")]]>
  (<[3%positive := Obj [("name", VStr "Bob")]]> ∅)).

Definition by_name : list Mapping.FieldMapping :=
  [ {| Mapping.gristColumn := "Name"; Mapping.apiField := "name";
       Mapping.enabled := None; Mapping.transform := None |} ].

(** A mapping to [Name], and one to [Hidden] that is switched off. *)
Definition two_mappings : list Mapping.FieldMapping :=
  [ {| Mapping.gristColumn := "Name"; Mapping.apiField := "user.name";
       Mapping.enabled := None; Mapping.transform := None |};
    {| Mapping.gristColumn := "Hidden"; Mapping.apiField := "user.name";
       Mapping.enabled := Some false; Mapping.transform := None |} ].

(** An object that is its own property [self], at 1. *)
Definition looped : store := <[1%positive := Obj [("self", VRef 1)]]> ∅.

(** An object that is its own property [cors], at 1. *)
Definition crossed : store := <[1%positive := Obj [("cors", VRef 1)]]> ∅.

(** A date with no time value. *)
Definition no_date : Date :=
  {| toISOString := None; Date_toString := "Invalid Date" |}.

(** [{ user: { id: 1 } }] at 1. *)
Definition nested_id : store :=
  <[1%positive := Obj [("user", VRef 2)]]>
  (<[2%positive := Obj [("id", VNum (Int 1))]]> ∅).

(** [{ hasOwnProperty: 1, a: 2 }] at 1, and [{ a: { hasOwnProperty: 1 } }]
    at 2. *)
Definition shadowed : store :=
  <[1%positive := Obj [("hasOwnProperty", VNum (Int 1)); ("a", VNum (Int 2))]]>
  (<[2%positive := Obj [("a", VRef 3)]]>
  (<[3%positive := Obj [("hasOwnProperty", VNum (Int 1))]]> ∅)).

(** [{ a: null, b: 1 }] at 1, and two mappings to the column
    [__proto__]. *)
Definition nothing_then_one : store :=
  <[1%positive := Obj [("a", null); ("b", VNum (Int 1))]]> ∅.

Definition twice_proto : list Mapping.FieldMapping :=
  [ {| Mapping.gristColumn := "__proto__"; Mapping.apiField := "a";
       Mapping.enabled := None; Mapping.transform := None |};
    {| Mapping.gristColumn := "__proto__"; Mapping.apiField := "b";
       Mapping.enabled := None; Mapping.transform := None |} ].




End Sample.

(** * Properties *)

Import JS.

(** ** The examples of the sources and of the specification

    On the sample platform. *)

Example serializeValue_array :
  Mapping.serializeValue (p := Sample.engine) Sample.documented (VRef 3)
  = Ok (VStr "1;2;3").
Proof. reflexivity. Qed.

Example serializeValue_empty_array :
  Mapping.serializeValue (p := Sample.engine) Sample.documented (VRef 4)
  = Ok (VStr EmptyString).
Proof. reflexivity. Qed.

Example serializeValue_object :
  Mapping.serializeValue (p := Sample.engine) Sample.documented (VRef 5)
  = Ok (VStr ("{" +:+ Str.quote +:+ "x" +:+ Str.quote +:+ ":1}")).
Proof. reflexivity. Qed.

Example transformRecord_documented :
  Mapping.transformRecord (p := Sample.engine) (VRef 1) Sample.name_and_email
    Sample.documented
  = Ok ([("Name", VStr "Alice"); ("Email", VStr "a@x.com")], Sample.documented).
Proof. reflexivity. Qed.

Example extractAllKeys_documented :
  Mapping.extractAllKeys (p := Sample.engine) Sample.documented (VRef 1) EmptyString 5
  = Ok ["id"; "user"; "user.name"; "email"].
Proof. reflexivity. Qed.

Example extractAllKeys_depth_one :
  Mapping.extractAllKeys (p := Sample.engine) Sample.documented (VRef 6) EmptyString 1
  = Ok ["a"].
Proof. reflexivity. Qed.

Example extractAllKeys_loop :
  Mapping.extractAllKeys (p := Sample.engine) Sample.looped (VRef 1) EmptyString 2
  = Ok ["self"; "self.self"].
Proof. reflexivity. Qed.

(** On [{ hasOwnProperty: 1, a: 2 }] the call [obj.hasOwnProperty(key)]
    finds the number. *)
Example extractAllKeys_shadowed :
  Mapping.extractAllKeys (p := Sample.engine) Sample.shadowed (VRef 1) EmptyString 5
  = Throw (new_TypeError "obj.hasOwnProperty is not a function").
Proof. reflexivity. Qed.

Example generateMappings_reserved :
  bind (Mapping.generateMappingsFromApiData (p := Sample.engine) Sample.documented
          (VRef 1) true)
       (fun ms => Ok ((fun m => (Mapping.apiField m, Mapping.gristColumn m)) <$> ms))
  = Ok [("id", "api_id"); ("user", "user"); ("user.name", "user_name"); ("email", "email")].
Proof. reflexivity. Qed.

(** A property written under an index goes among the indices. *)
Example update_index :
  update "2" (VStr "c") [("1", VStr "a"); ("10", VStr "b"); ("x", VStr "d")]
  = [("1", VStr "a"); ("2", VStr "c"); ("10", VStr "b"); ("x", VStr "d")].
Proof. reflexivity. Qed.

(** A first assignment of [null] to [__proto__] takes the prototype of
    the record away, and with it the accessor: the second assignment
    makes a property. *)
Example transformRecord_twice_proto :
  Mapping.transformRecord (p := Sample.engine) (VRef 1) Sample.twice_proto
    Sample.nothing_then_one
  = Ok ([("__proto__", VNum (Int 1))], Sample.nothing_then_one).
Proof. reflexivity. Qed.

Example transformRecord_once_proto :
  Mapping.transformRecord (p := Sample.engine) (VRef 1) (drop 1 Sample.twice_proto)
    Sample.nothing_then_one
  = Ok ([], Sample.nothing_then_one).
Proof. reflexivity. Qed.

Example ensureColumnsExist_logs :
  Grist.ensureColumnsExist (p := Sample.engine) Sample.bodies Sample.open Sample.client
    Sample.scores []
  = (Ok (),
     [ Grist.Log "🔍 Vérification des colonnes existantes..." Grist.info;
       Grist.Fetch (Grist.listing Sample.client);
       Grist.Log "✓ 1 colonne(s) existante(s) détectée(s)" Grist.success;
       Grist.Log "➕ Création de 1 colonne(s) manquante(s): score" Grist.info;
       Grist.Fetch
         (Grist.creation Sample.client
            [ {| Grist.spec_id := "score"; Grist.spec_label := Some "score";
                 Grist.spec_type := Some "Int" |} ]);
       Grist.Log "✅ Colonnes créées avec succès!" Grist.success ]).
Proof. by vm_compute. Qed.

Example addRecords_posts :
  Grist.addRecords (p := Sample.engine) Sample.bodies Sample.open
    {| Grist.config := Sample.table; Grist.onLog := false |}
    (Some [[("Name", VStr "Alice")]; [("Name", VStr "Bob")]]) []
  = (Ok (VRef 30),
     [ Grist.Fetch (Grist.listing {| Grist.config := Sample.table; Grist.onLog := false |});
       Grist.Fetch
         {| Grist.method := "POST";
            Grist.url := "https://docs.getgrist.com/api/docs/D/tables/T/columns";
            Grist.headers :=
              [("Content-Type", "application/json"); ("Authorization", "Bearer secret")];
            Grist.body := Some
              ("{" +:+ Str.quote +:+ "columns" +:+ Str.quote +:+ ":[{"
               +:+ Str.quote +:+ "id" +:+ Str.quote +:+ ":"
               +:+ Str.quote +:+ "Name" +:+ Str.quote +:+ ","
               +:+ Str.quote +:+ "fields" +:+ Str.quote +:+ ":{"
               +:+ Str.quote +:+ "colId" +:+ Str.quote +:+ ":"
               +:+ Str.quote +:+ "Name" +:+ Str.quote +:+ ","
               +:+ Str.quote +:+ "label" +:+ Str.quote +:+ ":"
               +:+ Str.quote +:+ "Name" +:+ Str.quote +:+ ","
               +:+ Str.quote +:+ "type" +:+ Str.quote +:+ ":"
               +:+ Str.quote +:+ "Text" +:+ Str.quote +:+ "}}]}") |};
       Grist.Fetch
         {| Grist.method := "POST";
            Grist.url := "https://docs.getgrist.com/api/docs/D/tables/T/records";
            Grist.headers :=
              [("Content-Type", "application/json"); ("Authorization", "Bearer secret")];
            Grist.body := Some
              ("{" +:+ Str.quote +:+ "records" +:+ Str.quote +:+ ":[{"
               +:+ Str.quote +:+ "fields" +:+ Str.quote +:+ ":{"
               +:+ Str.quote +:+ "Name" +:+ Str.quote +:+ ":"
               +:+ Str.quote +:+ "Alice" +:+ Str.quote +:+ "}},{"
               +:+ Str.quote +:+ "fields" +:+ Str.quote +:+ ":{"
               +:+ Str.quote +:+ "Name" +:+ Str.quote +:+ ":"
               +:+ Str.quote +:+ "Bob" +:+ Str.quote +:+ "}}]}") |} ]).
Proof. by vm_compute. Qed.

(** ** Strings *)

Lemma prefix_append (needle rest : string) : String.prefix needle (needle +:+ rest) = true.
Proof.
  induction needle as [|c needle IH]; simpl.
  - by destruct rest.
  - destruct (ascii_dec c c); [exact IH | done].
Qed.

Lemma includes_prefix (needle s : string) : String.prefix needle s = true -> Str.includes needle s = true.
Proof. intros H. destruct s; cbn [Str.includes]; rewrite H; done. Qed.

Lemma includes_append (needle before after : string) :
  Str.includes needle (before +:+ needle +:+ after) = true.
Proof.
  induction before as [|c before IH].
  - change (EmptyString +:+ needle +:+ after) with (needle +:+ after).
    apply includes_prefix, prefix_append.
  - change (String c before +:+ needle +:+ after)
      with (String c (before +:+ needle +:+ after)).
    cbn [Str.includes]. rewrite IH. apply orb_true_r.
Qed.

Lemma is_empty_true (s : string) : Str.is_empty s = true <-> s = EmptyString.
Proof. destruct s; simpl; split; congruence. Qed.

(** *** Decimal numbers, written and read *)

Lemma parse_digits_acc (d : Decimal.uint) :
  forall p : positive,
    Str.parse_digits (Z.pos p) (NilEmpty.string_of_uint d) = Z.pos (Pos.of_uint_acc d p).
Proof.
  induction d; intros p; cbn [NilEmpty.string_of_uint Str.parse_digits Pos.of_uint_acc];
    [done|..];
    match goal with
    | |- Str.parse_digits ?acc _ = Z.pos (Pos.of_uint_acc _ ?q) =>
        replace acc with (Z.pos q)
          by (match goal with
              | |- context [Str.digit_value ?c] =>
                  let v := eval vm_compute in (Str.digit_value c) in
                  change (Str.digit_value c) with v
              end; lia)
    end; apply IHd.
Qed.

Lemma parse_digits_uint (d : Decimal.uint) :
  Str.parse_digits 0 (NilEmpty.string_of_uint d) = Z.of_N (Pos.of_uint d).
Proof.
  induction d; cbn [NilEmpty.string_of_uint Str.parse_digits Pos.of_uint]; [done|..];
    try exact IHd; apply (parse_digits_acc d).
Qed.

Lemma all_digits_uint (d : Decimal.uint) :
  Str.all_digits (NilEmpty.string_of_uint d) = true.
Proof. induction d; simpl; done. Qed.

Lemma of_Z_uint (z : Z) :
  0 <= z ->
  exists d, d <> Decimal.Nil /\ Str.of_Z z = NilEmpty.string_of_uint d
            /\ Z.of_N (Pos.of_uint d) = z.
Proof.
  intros Hz. destruct z as [|p|p]; [| |lia].
  - by exists (Decimal.D0 Decimal.Nil).
  - exists (Pos.to_uint p). split; [apply Unsigned.to_uint_nonnil|]. split.
    + unfold Str.of_Z. simpl. pose proof (Unsigned.to_uint_nonnil p).
      by destruct (Pos.to_uint p).
    + by rewrite Unsigned.of_to.
Qed.

Lemma of_nat_digits (n : nat) : Str.all_digits (Str.of_nat n) = true.
Proof.
  destruct (of_Z_uint (Z.of_nat n) ltac:(lia)) as (d & _ & Hd & _).
  unfold Str.of_nat. rewrite Hd. apply all_digits_uint.
Qed.

(** The keys of the elements of an array are numbers. *)
Lemma indexed_digits (elems : list value) (key : string) (v : value) :
  assoc key (indexed elems) = Some v -> Str.all_digits key = true.
Proof.
  unfold indexed.
  assert (Hgen : forall k, assoc key (imap (fun i x => (Str.of_nat (k + i), x)) elems) = Some v ->
                   Str.all_digits key = true).
  { induction elems as [|x elems IH]; intros k; [done|]. cbn [imap assoc].
    destruct (String.eqb (Str.of_nat (k + 0)) key) eqn:E.
    - apply String.eqb_eq in E as <-. intros _. apply of_nat_digits.
    - intros H. apply (IH (S k)). rewrite <- H. f_equal. apply imap_ext.
      intros i y _. simpl. do 2 f_equal. lia. }
  apply (Hgen 0%nat).
Qed.

(** ** Properties of objects *)

Section Objects.

Lemma assoc_Some_elem {A} (key : string) (props : list (string * A)) (a : A) :
  assoc key props = Some a -> (key, a) ∈ props.
Proof.
  induction props as [|[k b] props IH]; simpl; [done|].
  destruct (String.eqb k key) eqn:E.
  - apply String.eqb_eq in E as ->. intros [= ->]. apply elem_of_cons. by left.
  - intros H. apply elem_of_cons. right. by apply IH.
Qed.

Lemma assoc_None {A} (key : string) (props : list (string * A)) :
  assoc key props = None <-> key ∉ props.*1.
Proof.
  induction props as [|[k b] props IH]; simpl.
  - split; [intros _; apply not_elem_of_nil | done].
  - rewrite not_elem_of_cons. destruct (String.eqb k key) eqn:E.
    + apply String.eqb_eq in E as ->. split; [done | by intros [? _]].
    + apply String.eqb_neq in E. rewrite IH. split; [by split | by intros [_ ?]].
Qed.

Lemma replace_keys (key : string) (x : value) (props : list (string * value)) :
  (replace key x props).*1 = props.*1.
Proof.
  induction props as [|[k y] props IH]; [done|]. simpl.
  destruct (String.eqb k key); [done|]. rewrite !fmap_cons, IH. done.
Qed.

Lemma insert_index_keys (i : Z) (key : string) (x : value) (props : list (string * value)) :
  (insert_index i key x props).*1 ≡ₚ key :: props.*1.
Proof.
  induction props as [|[k y] props IH]; [done|]. simpl.
  destruct (array_index k) as [j|]; [|done].
  destruct (j <? i); [|done].
  rewrite !fmap_cons, IH. simpl. apply Permutation_swap.
Qed.

Lemma update_keys (key : string) (x : value) (props : list (string * value)) :
  (update key x props).*1 ≡ₚ if bool_decide (key ∈ props.*1) then props.*1
                              else key :: props.*1.
Proof.
  unfold update. destruct (assoc key props) as [y|] eqn:Hkey.
  - rewrite replace_keys, bool_decide_eq_true_2; [done|].
    apply assoc_Some_elem in Hkey. apply list_elem_of_fmap. by exists (key, y).
  - rewrite bool_decide_eq_false_2 by (by apply assoc_None).
    destruct (array_index key) as [i|]; [apply insert_index_keys|].
    rewrite fmap_app. simpl. by rewrite Permutation_app_comm.
Qed.

Lemma update_elem (key k : string) (x : value) (props : list (string * value)) :
  k ∈ (update key x props).*1 <-> k ∈ props.*1 \/ k = key.
Proof.
  rewrite update_keys. destruct (bool_decide (key ∈ props.*1)) eqn:Hkey.
  - apply bool_decide_eq_true in Hkey. split; [by left | by intros [?| ->]].
  - rewrite elem_of_cons. tauto.
Qed.

Lemma update_NoDup (key : string) (x : value) (props : list (string * value)) :
  NoDup props.*1 -> NoDup (update key x props).*1.
Proof.
  intros Hprops. rewrite update_keys. destruct (bool_decide (key ∈ props.*1)) eqn:Hkey;
    [done|].
  apply bool_decide_eq_false in Hkey. by apply NoDup_cons.
Qed.





(** An assignment changes the properties of the record, or its
    prototype, and the second only under the name [__proto__]. *)
Lemma assign_cases (h : store) (key : string) (x : value)
  (props : list (string * value)) (proto : prototype) :
  (assign h key x (props, proto)).1 = update key x props
  /\ (assign h key x (props, proto)).2 = proto
  \/ key = "__proto__"
     /\ (key ∉ props.*1)
     /\ reaches_accessor h proto = true
     /\ (assign h key x (props, proto)).1 = props.
Proof.
  unfold assign. destruct (String.eqb key "__proto__") eqn:E; [|by left].
  apply String.eqb_eq in E as ->.
  destruct (bool_decide ("__proto__" ∈ props.*1)) eqn:Hown; [by left|].
  apply bool_decide_eq_false in Hown.
  destruct (reaches_accessor h proto) eqn:Hreach; [|by left]. by right.
Qed.

Lemma assign_keys (h : store) (key k : string) (x : value)
  (obj : list (string * value) * prototype) :
  key ∈ (assign h k x obj).1.*1 -> key = k \/ key ∈ obj.1.*1.
Proof.
  destruct obj as [props proto].
  destruct (assign_cases h k x props proto) as [[-> _]|(_ & _ & _ & ->)]; [|by right].
  rewrite update_elem. simpl. tauto.
Qed.

Lemma assign_NoDup (h : store) (k : string) (x : value)
  (obj : list (string * value) * prototype) :
  NoDup obj.1.*1 -> NoDup (assign h k x obj).1.*1.
Proof.
  destruct obj as [props proto].
  destruct (assign_cases h k x props proto) as [[-> _]|(_ & _ & _ & ->)]; [|done].
  apply update_NoDup.
Qed.

Lemma assign_other (h : store) (k : string) (x : value)
  (obj : list (string * value) * prototype) :
  k <> "__proto__" -> assign h k x obj = (update k x obj.1, obj.2).
Proof.
  intros Hk. destruct obj as [props proto]. unfold assign.
  apply String.eqb_neq in Hk. by rewrite Hk.
Qed.

End Objects.

(** ** The field mapper *)

Section Mapper.
Import Mapping.

Context {p : Platform}.

(** One turn of the loop of [transformRecord] for a mapping that is
    applied. *)
Lemma transform_loop_cons (apiRecord : value) (m : FieldMapping) (ms : list FieldMapping)
  (gristRecord : list (string * value) * prototype) (h : store) :
  transform_loop apiRecord (m :: ms) gristRecord h
  = if Str.is_empty (gristColumn m) || Str.is_empty (apiField m)
         || bool_decide (enabled m = Some false)
    then transform_loop apiRecord ms gristRecord h
    else bind (getNestedValue h apiRecord (apiField m)) (fun v =>
         bind (match transform m with
               | Some f => f v h
               | None => bind (serializeValue h v) (fun v' => Ok (v', h))
               end) (fun '(v', h') =>
         transform_loop apiRecord ms (assign h' (gristColumn m) v' gristRecord) h')).
Proof.
  cbn [transform_loop].
  destruct (Str.is_empty (gristColumn m) || Str.is_empty (apiField m)); [done|].
  by destruct (bool_decide (enabled m = Some false)).
Qed.

Lemma applied_dec (m : FieldMapping) :
  applied m
  <-> Str.is_empty (gristColumn m) || Str.is_empty (apiField m)
      || bool_decide (enabled m = Some false) = false.
Proof.
  unfold applied.
  destruct (Str.is_empty (gristColumn m)), (Str.is_empty (apiField m)); simpl;
    try (split; [by intros [? _] | done]).
  destruct (bool_decide (enabled m = Some false)) eqn:E.
  - apply bool_decide_eq_true in E. split; [by intros [_ ?] | done].
  - apply bool_decide_eq_false in E. done.
Qed.

Lemma transform_loop_valid (apiRecord : value) (mappings : list FieldMapping) :
  forall gristRecord h,
    transform_loop apiRecord (getValidMappings mappings) gristRecord h
    = transform_loop apiRecord mappings gristRecord h.
Proof.
  induction mappings as [|m ms IH]; intros gristRecord h; [done|].
  unfold getValidMappings. rewrite filter_cons. fold (getValidMappings ms).
  unfold isValidMapping.
  destruct (Str.is_empty (gristColumn m)) eqn:Ec, (Str.is_empty (apiField m)) eqn:Ef;
    simpl; rewrite ?Ec, ?Ef; simpl; try apply IH.
  destruct (bool_decide (enabled m = Some false)); [apply IH|].
  destruct (getNestedValue h apiRecord (apiField m)) as [v|e|]; simpl; [|done..].
  destruct (match transform m with Some f => f v h | None => _ end) as [[v' h']|e|];
    simpl; [apply IH | done..].
Qed.

Lemma transform_loop_keys (apiRecord : value) (mappings : list FieldMapping) :
  forall gristRecord h out h',
    transform_loop apiRecord mappings gristRecord h = Ok (out, h') ->
    forall key, key ∈ out.1.*1 ->
      key ∈ gristRecord.1.*1 \/ exists m, m ∈ mappings /\ applied m /\ gristColumn m = key.
Proof.
  induction mappings as [|m ms IH]; intros acc h out h' Hrun key Hkey.
  - simpl in Hrun. inversion Hrun; subst. by left.
  - assert (Hrest : forall acc0 h0, transform_loop apiRecord ms acc0 h0 = Ok (out, h') ->
              key ∈ acc0.1.*1 \/ exists m', m' ∈ m :: ms /\ applied m' /\ gristColumn m' = key).
    { intros acc0 h0 H0. destruct (IH _ _ _ _ H0 key Hkey) as [?|(m' & ? & ? & ?)]; [by left|].
      right. exists m'. split; [by apply elem_of_cons; right | done]. }
    rewrite transform_loop_cons in Hrun.
    destruct (Str.is_empty (gristColumn m) || Str.is_empty (apiField m)
              || bool_decide (enabled m = Some false)) eqn:Hskip; [by eapply Hrest|].
    destruct (getNestedValue h apiRecord (apiField m)) as [v|e|]; simpl in Hrun; [|done..].
    destruct (match transform m with Some f => f v h | None => _ end) as [[v' h0]|e|];
      simpl in Hrun; [|done..].
    destruct (Hrest _ _ Hrun) as [Hin|?]; [|by right].
    apply assign_keys in Hin as [->|Hin]; [|by left].
    right. exists m. split; [by apply elem_of_cons; left|].
    split; [|done]. by apply applied_dec.
Qed.

Lemma transform_loop_enabled (apiRecord : value) (mappings : list FieldMapping) :
  forall gristRecord h,
    transform_loop apiRecord (filter (fun m => enabled m <> Some false) mappings) gristRecord h
    = transform_loop apiRecord mappings gristRecord h.
Proof.
  induction mappings as [|m ms IH]; intros gristRecord h; [done|].
  rewrite filter_cons. destruct (decide (enabled m <> Some false)) as [Hen|Hen]; simpl.
  - destruct (Str.is_empty (gristColumn m) || Str.is_empty (apiField m)); [apply IH|].
    destruct (bool_decide (enabled m = Some false)); [apply IH|].
    destruct (getNestedValue h apiRecord (apiField m)) as [v|e|]; simpl; [|done..].
    destruct (match transform m with Some f => f v h | None => _ end) as [[v' h']|e|];
      simpl; [apply IH | done..].
  - assert (enabled m = Some false) as Hoff.
    { destruct (enabled m) as [[]|]; [| done |]; exfalso; by apply Hen. }
    rewrite (bool_decide_eq_true_2 _ Hoff).
    destruct (Str.is_empty (gristColumn m) || Str.is_empty (apiField m)); apply IH.
Qed.

(** What [transformRecord] returns is what its loop leaves. *)
Lemma transformRecord_loop (apiRecord : value) (mappings : list FieldMapping)
  (h h' : store) (gristRecord : list (string * value)) :
  transformRecord apiRecord mappings h = Ok (gristRecord, h')
  <-> exists proto,
        transform_loop apiRecord mappings ([], Object_prototype) h
        = Ok ((gristRecord, proto), h').
Proof.
  unfold transformRecord.
  destruct (transform_loop apiRecord mappings ([], Object_prototype) h)
    as [[[props proto] h1]|e|]; simpl.
  - split.
    + intros [= <- <-]. by exists proto.
    + by intros (proto' & [= <- _ <-]).
  - split; [done | by intros [? ?]].
  - split; [done | by intros [? ?]].
Qed.

(** C10: filtering the mappings with [getValidMappings] before the
    transformation changes nothing: the record built, the store left by
    the transforms, or the exception raised, are those of the whole
    list. *)
Theorem transformRecord_getValidMappings :
  forall (apiRecord : value) (mappings : list FieldMapping) (h : store),
    transformRecord apiRecord (getValidMappings mappings) h
    = transformRecord apiRecord mappings h.
Proof. intros. unfold transformRecord. by rewrite transform_loop_valid. Qed.

(** C8: a mapping with [enabled == false] contributes no key.  Taking
    the disabled mappings out of the list changes nothing of the outcome;
    every key of a transformed record is the column of a mapping of the
    list that has both sides and is not disabled; and a column that only
    disabled mappings name is no key of the record. *)
Theorem transformRecord_skips_disabled :
  forall (apiRecord : value) (mappings : list FieldMapping) (h : store),
    transformRecord apiRecord (filter (fun m => enabled m <> Some false) mappings) h
    = transformRecord apiRecord mappings h
    /\ forall gristRecord h',
         transformRecord apiRecord mappings h = Ok (gristRecord, h') ->
         (forall key, key ∈ gristRecord.*1 ->
            exists m, m ∈ mappings /\ applied m /\ gristColumn m = key)
         /\ (forall key,
               (forall m, m ∈ mappings -> gristColumn m = key -> enabled m = Some false) ->
               key ∉ gristRecord.*1).
Proof.
  intros apiRecord mappings h. split.
  { unfold transformRecord. by rewrite transform_loop_enabled. }
  intros gristRecord h' Hrun. apply transformRecord_loop in Hrun as [proto Hrun].
  assert (Hkeys : forall key, key ∈ gristRecord.*1 ->
            exists m, m ∈ mappings /\ applied m /\ gristColumn m = key).
  { intros key Hkey.
    destruct (transform_loop_keys _ _ _ _ _ _ Hrun key Hkey) as [Hin|?]; [|done].
    simpl in Hin. by apply elem_of_nil in Hin. }
  split; [exact Hkeys|].
  intros key Hoff Hkey. destruct (Hkeys key Hkey) as (m & Hm & [_ Hen] & Hcol).
  apply Hen. by apply Hoff.
Qed.

End Mapper.

(** The theorem at [{ user: { name: "Alice" } }] with an enabled mapping
    to [Name] and a disabled one to [Hidden]. *)
Lemma transformRecord_skips_disabled_witness :
  Mapping.transformRecord (p := Sample.engine) (VRef 1) Sample.two_mappings Sample.alice
  = Ok ([("Name", VStr "Alice")], Sample.alice)
  /\ "Hidden" ∉ [("Name", VStr "Alice")].*1.
Proof.
  split; [reflexivity|].
  destruct (transformRecord_skips_disabled (p := Sample.engine) (VRef 1)
              Sample.two_mappings Sample.alice) as [_ H].
  destruct (H [("Name", VStr "Alice")] Sample.alice eq_refl) as [_ Hoff].
  apply Hoff. intros m Hm Hcol.
  apply elem_of_cons in Hm as [->|Hm]; [discriminate|].
  apply list_elem_of_singleton in Hm as ->. reflexivity.
Defined.

(** ** Reading properties *)

Section Reading.
Import Mapping.

Context {p : Platform}.

Lemma own_kind (h : store) (v : value) (key : string) (r : result value) :
  own h v key = Some r -> nullish v = false /\ forall e, r <> Throw e.
Proof.
  destruct v as [| |b|n|s|d|l]; try done; simpl.
  - destruct (String.eqb key "length").
    + intros [= <-]. split; [done|]. by destruct (is_ascii s).
    + destruct (assoc key (indexed (characters s))); [|done].
      intros [= <-]. split; [done|]. by destruct (is_ascii s).
  - destruct (h !! l) as [[props|elems]|]; [| |done].
    + destruct (assoc key props); [|done]. by intros [= <-].
    + destruct (String.eqb key "length"); [by intros [= <-]|].
      destruct (assoc key (indexed elems)); [|done]. by intros [= <-].
Qed.

Lemma kind_of_nullish (h : store) (v : value) :
  kind_of h v = None <-> nullish v = true.
Proof.
  destruct v as [| |b|n|s|d|l]; try done. simpl.
  by destruct (h !! l) as [[props|elems]|].
Qed.

Lemma get_nullish (h : store) (v : value) (key : string) :
  nullish v = true -> get h v key = Throw (TypeError_read v key).
Proof. intros Hv. unfold get. by rewrite (proj2 (kind_of_nullish h v) Hv). Qed.

Lemma get_own (h : store) (v : value) (key : string) (r : result value) :
  own h v key = Some r -> get h v key = r.
Proof.
  intros Hown. unfold get. rewrite Hown.
  destruct (kind_of h v) eqn:Hkind; [done|].
  apply (proj1 (kind_of_nullish h v)) in Hkind. apply own_kind in Hown as [Hv _].
  congruence.
Qed.



(** A property is read without an exception from any value but [null]
    and [undefined]. *)
Lemma get_no_throw (h : store) (v : value) (key : string) (e : exn) :
  nullish v = false -> get h v key <> Throw e.
Proof.
  intros Hv. unfold get. destruct (kind_of h v) as [k|] eqn:Hkind.
  - destruct (own h v key) as [r|] eqn:Hown.
    + apply own_kind in Hown as [_ Hr]. apply Hr.
    + by destruct (inherited k key).
  - apply (proj1 (kind_of_nullish h v)) in Hkind. congruence.
Qed.

(** The keys of the elements of an array are not the name of its
    length. *)
Lemma indexed_length (elems : list value) : assoc "length" (indexed elems) = None.
Proof.
  destruct (assoc "length" (indexed elems)) as [v|] eqn:H; [|done].
  by apply indexed_digits in H.
Qed.

(** An enumerable property is a property. *)
Lemma own_properties_own (h : store) (v : value) (key : string) (y : value) :
  assoc key (own_properties h v) = Some y -> own h v key = Some (Ok y).
Proof.
  destruct v as [| |b|n|s|d|l]; try done. simpl.
  destruct (h !! l) as [[props|elems]|]; [| |done].
  - by intros ->.
  - intros Hkey. destruct (String.eqb key "length") eqn:E.
    + apply String.eqb_eq in E as ->. by rewrite indexed_length in Hkey.
    + by rewrite Hkey.
Qed.




Lemma walk_reached (h : store) (keys : list string) :
  forall v x, reached h v keys x -> walk h keys v = Ok x.
Proof.
  induction keys as [|key rest IH]; intros v x; simpl; [by intros ->|].
  intros (y & Hown & Hrest). rewrite (get_own _ _ _ _ Hown).
  apply own_kind in Hown as [-> _]. simpl. by apply IH.
Qed.


Lemma resolves_reached (h : store) (keys : list string) :
  forall v x, resolves h v keys x -> reached h v keys x.
Proof.
  induction keys as [|key rest IH]; intros v x; simpl; [done|].
  intros (y & Hkey & Hrest). exists y. split; [by apply own_properties_own | by apply IH].
Qed.


End Reading.



(** ** Paths *)

Section Paths.
Import Mapping.

Context {p : Platform}.






End Paths.




(** ** The serializer *)

Section Shapes.

Lemma reaches_child_trans (h : store) (a l : loc) (c : value) :
  reaches h a (VRef l) -> c ∈ children h l -> reaches h a c.
Proof.
  intros Hreach Hc. remember (VRef l) as v eqn:Hv.
  induction Hreach as [a v Hin | a m v Hin Hreach IH]; subst v.
  - eapply reaches_step; [exact Hin|]. by apply reaches_child.
  - eapply reaches_step; [exact Hin|]. by apply IH.
Qed.

Lemma acyclic_no_loop (h : store) (v : value) :
  acyclic h v ->
  forall l, v = VRef l \/ (exists m, v = VRef m /\ reaches h m (VRef l)) ->
    ~ reaches h l (VRef l).
Proof.
  induction 1 as [v Hleaf | m Hchildren IH]; intros l Hv Hloop.
  - destruct Hv as [->|(m & -> & _)]; by eapply Hleaf.
  - assert (Hbelow : reaches h m (VRef l) -> False).
    { intros Hreach. inversion Hreach as [? ? Hin | ? m' ? Hin Hreach']; subst.
      - apply (IH _ Hin l); [by left | done].
      - apply (IH _ Hin l); [right; by exists m' | done]. }
    destruct Hv as [Heq|(m' & Heq & Hreach)]; inversion Heq; subst; by apply Hbelow.
Qed.

End Shapes.

Section Serializer.
Import Mapping.

Context {p : Platform}.

Lemma serialize_elements_no_throw (property : value -> option (result (option string)))
  (elems : list value) :
  (forall v, v ∈ elems -> forall e, property v <> Some (Throw e)) ->
  forall e, serialize_elements property elems <> Some (Throw e).
Proof.
  induction elems as [|v rest IH]; intros Hall e; simpl; [done|].
  pose proof (Hall v ltac:(by apply elem_of_cons; left)) as Hv.
  destruct (property v) as [[text|e'|]|]; [|by destruct (Hv e')|done..].
  assert (Hrest : forall e, serialize_elements property rest <> Some (Throw e)).
  { apply IH. intros v' Hv'. apply Hall. by apply elem_of_cons; right. }
  destruct (serialize_elements property rest) as [[texts|e'|]|]; [done| |done..].
  by destruct (Hrest e').
Qed.

Lemma serialize_members_no_throw (property : value -> option (result (option string)))
  (props : list (string * value)) :
  (forall v, v ∈ props.*2 -> forall e, property v <> Some (Throw e)) ->
  forall e, serialize_members property props <> Some (Throw e).
Proof.
  induction props as [|[k v] rest IH]; intros Hall e; simpl; [done|].
  pose proof (Hall v ltac:(by apply elem_of_cons; left)) as Hv.
  destruct (property v) as [[text|e'|]|]; [|by destruct (Hv e')|done..].
  assert (Hrest : forall e, serialize_members property rest <> Some (Throw e)).
  { apply IH. intros v' Hv'. apply Hall. by apply elem_of_cons; right. }
  destruct (serialize_members property rest) as [[texts|e'|]|]; [done| |done..].
  by destruct (Hrest e').
Qed.

(** Below an acyclic value [JSON.stringify] meets no object twice. *)
Lemma serialize_property_no_throw (h : store) (v : value) :
  acyclic h v ->
  forall fuel stack, (forall l, l ∈ stack -> reaches h l v) ->
    forall e, serialize_property fuel h stack v <> Some (Throw e).
Proof.
  induction 1 as [v Hleaf | l Hchildren IH]; intros fuel stack Hstack e.
  - destruct v as [| | [] | | | |l]; try (by destruct fuel). by destruct (Hleaf l).
  - assert (Hfresh : l ∉ stack).
    { intros Hin. eapply acyclic_no_loop; [by apply acyclic_node | by left |].
      by apply Hstack. }
    assert (Hbelow : forall fuel' c, c ∈ children h l ->
              forall e, serialize_property fuel' h (l :: stack) c <> Some (Throw e)).
    { intros fuel' c Hc. apply IH; [done|]. intros l' Hl'.
      apply elem_of_cons in Hl' as [->|Hl']; [by apply reaches_child|].
      eapply reaches_child_trans; [by apply Hstack | done]. }
    destruct fuel as [|fuel]; simpl; rewrite (bool_decide_eq_false_2 _ Hfresh); [done|].
    unfold children in Hbelow.
    destruct (h !! l) as [[props|elems]|]; [| |done].
    + pose proof (serialize_members_no_throw _ props (Hbelow fuel)) as Hm.
      destruct (serialize_members _ props) as [[texts|e'|]|]; [done| |done..].
      by destruct (Hm e').
    + pose proof (serialize_elements_no_throw _ elems (Hbelow fuel)) as Hm.
      destruct (serialize_elements _ elems) as [[texts|e'|]|]; [done| |done..].
      by destruct (Hm e').
Qed.

Lemma serialize_elements_some (property : value -> option (result (option string)))
  (elems : list value) :
  (forall v, is_Some (property v)) -> is_Some (serialize_elements property elems).
Proof.
  intros Hall. induction elems as [|v rest IH]; simpl; [done|].
  destruct (Hall v) as [[text|e|] ->]; [|done..].
  by destruct IH as [[texts|e|] ->].
Qed.

Lemma serialize_members_some (property : value -> option (result (option string)))
  (props : list (string * value)) :
  (forall v, is_Some (property v)) -> is_Some (serialize_members property props).
Proof.
  intros Hall. induction props as [|[k v] rest IH]; simpl; [done|].
  destruct (Hall v) as [[text|e|] ->]; [|done..].
  by destruct IH as [[texts|e|] ->].
Qed.

Lemma stack_bound (h : store) (stack : list loc) :
  NoDup stack -> (forall l, l ∈ stack -> is_Some (h !! l)) ->
  (length stack <= size h)%nat.
Proof.
  intros Hnodup Hdom.
  rewrite <- (size_dom (D := gset loc) h), <- (size_list_to_set (C := gset loc) stack Hnodup).
  apply subseteq_size. intros l Hl. apply elem_of_dom, Hdom.
  by apply elem_of_list_to_set in Hl.
Qed.

(** The fuel is enough: the objects on the stack are distinct objects of
    the store, so there are never more of them than the store has. *)
Lemma serialize_property_fuel (h : store) (fuel : nat) :
  forall stack v,
    NoDup stack -> (forall l, l ∈ stack -> is_Some (h !! l)) ->
    (size h < fuel + length stack)%nat ->
    is_Some (serialize_property fuel h stack v).
Proof.
  induction fuel as [|fuel IH]; intros stack v Hnodup Hdom Hfuel.
  - pose proof (stack_bound h stack Hnodup Hdom). simpl in Hfuel. lia.
  - destruct v as [| | [] | | | |l]; simpl; try done.
    destruct (bool_decide (l ∈ stack)) eqn:Hin; [done|].
    apply bool_decide_eq_false in Hin.
    destruct (h !! l) as [o|] eqn:Hl; [|done].
    assert (Hbelow : forall c, is_Some (serialize_property fuel h (l :: stack) c)).
    { intros c. apply IH.
      - by apply NoDup_cons.
      - intros l' Hl'. apply elem_of_cons in Hl' as [->|Hl']; [by rewrite Hl | by apply Hdom].
      - simpl. lia. }
    destruct o as [props|elems].
    + by destruct (serialize_members_some _ props Hbelow) as [[texts|e|] ->].
    + by destruct (serialize_elements_some _ elems Hbelow) as [[texts|e|] ->].
Qed.

Lemma JSON_stringify_fuel (h : store) (v : value) :
  serialize_property (S (size h)) h [] v = Some (JSON_stringify h v).
Proof.
  unfold JSON_stringify.
  destruct (serialize_property_fuel h (S (size h)) [] v) as [r ->]; [constructor | | simpl; lia | done].
  intros l Hl. by apply elem_of_nil in Hl.
Qed.

Lemma serialize_elements_data (property : value -> option (result (option string)))
  (elems : list value) :
  (forall v, property v <> Some Beyond) ->
  serialize_elements property elems <> Some Beyond.
Proof.
  intros Hall. induction elems as [|v rest IH]; simpl; [done|].
  pose proof (Hall v) as Hv.
  destruct (property v) as [[text|e|]|]; [|done..].
  by destruct (serialize_elements property rest) as [[texts|e|]|].
Qed.

Lemma serialize_members_data (property : value -> option (result (option string)))
  (props : list (string * value)) :
  (forall v, property v <> Some Beyond) ->
  serialize_members property props <> Some Beyond.
Proof.
  intros Hall. induction props as [|[k v] rest IH]; simpl; [done|].
  pose proof (Hall v) as Hv.
  destruct (property v) as [[text|e|]|]; [|done..].
  by destruct (serialize_members property rest) as [[texts|e|]|].
Qed.

(** [JSON.stringify] reads the data only. *)
Lemma serialize_property_data (h : store) (fuel : nat) :
  forall stack v, serialize_property fuel h stack v <> Some Beyond.
Proof.
  induction fuel as [|fuel IH]; intros stack v.
  - destruct v as [| | [] | | | |l]; simpl; try done. by destruct (bool_decide (l ∈ stack)).
  - destruct v as [| | [] | | | |l]; simpl; try done.
    destruct (bool_decide (l ∈ stack)); [done|].
    destruct (h !! l) as [[props|elems]|]; [| |done].
    + pose proof (serialize_members_data _ props (IH (l :: stack))) as Hm.
      by destruct (serialize_members _ props) as [[texts|e|]|].
    + pose proof (serialize_elements_data _ elems (IH (l :: stack))) as Hm.
      by destruct (serialize_elements _ elems) as [[texts|e|]|].
Qed.

Lemma JSON_stringify_data (h : store) (v : value) : JSON_stringify h v <> Beyond.
Proof.
  pose proof (JSON_stringify_fuel h v) as Hrun. intros Hv. rewrite Hv in Hrun.
  by apply serialize_property_data in Hrun.
Qed.

Lemma JSON_stringify_acyclic (h : store) (v : value) :
  acyclic h v -> returns (JSON_stringify h v).
Proof.
  intros Hv. pose proof (JSON_stringify_fuel h v) as Hrun.
  destruct (JSON_stringify h v) as [text|e|]; [by eexists| |].
  - exfalso. eapply (serialize_property_no_throw h v Hv); [|exact Hrun].
    intros l Hl. by apply elem_of_nil in Hl.
  - by apply serialize_property_data in Hrun.
Qed.

Lemma serialize_items_acyclic (h : store) (items : list value) :
  (forall item, item ∈ items -> acyclic h item) -> returns (serialize_items h items).
Proof.
  induction items as [|item rest IH]; intros Hall; simpl; [by eexists|].
  destruct IH as [texts ->]; [intros i Hi; apply Hall; by apply elem_of_cons; right|].
  destruct (negb (nullish item) && typeof_object item && _); simpl; [|by eexists].
  destruct (JSON_stringify_acyclic h item) as [text ->]; [|simpl; by eexists].
  apply Hall. by apply elem_of_cons; left.
Qed.

(** C9, as the code has it: [serializeValue] returns, without raising,
    on every value that is acyclic and is not an invalid date.  (It is a
    function of the store and the value: it writes nothing.) *)
Theorem serializeValue_returns :
  forall (h : store) (v : value),
    acyclic h v -> invalid_date v = false -> returns (serializeValue h v).
Proof.
  intros h v Hv Hdate. destruct v as [| | b | n | s | d | l]; simpl; try (by eexists).
  - simpl in Hdate. destruct (toISOString d); [by eexists | done].
  - destruct (h !! l) as [[props|items]|] eqn:Hl.
    + destruct (JSON_stringify_acyclic h (VRef l) Hv) as [text ->]. simpl. by eexists.
    + destruct (length items =? 0)%nat; [by eexists|].
      destruct (serialize_items_acyclic h items) as [texts ->]; [|simpl; by eexists].
      intros item Hitem. inversion Hv as [? Hleaf | ? Hchildren]; subst.
      * by destruct (Hleaf l).
      * apply Hchildren. unfold children. by rewrite Hl.
    + destruct (JSON_stringify_acyclic h (VRef l) Hv) as [text ->]. simpl. by eexists.
Qed.

End Serializer.

Lemma alice_acyclic : acyclic Sample.alice (VRef 1).
Proof.
  apply acyclic_node. intros c Hc. vm_compute in Hc.
  apply list_elem_of_singleton in Hc as ->.
  apply acyclic_node. intros c Hc. vm_compute in Hc.
  apply list_elem_of_singleton in Hc as ->.
  by apply acyclic_leaf.
Defined.

Lemma serializeValue_returns_witness :
  acyclic Sample.alice (VRef 1)
  /\ returns (Mapping.serializeValue (p := Sample.engine) Sample.alice (VRef 1)).
Proof.
  split; [exact alice_acyclic|].
  apply (serializeValue_returns (p := Sample.engine) Sample.alice (VRef 1) alice_acyclic).
  reflexivity.
Defined.

(** C9 as stated fails: on an object that contains itself
    [JSON.stringify] raises a [TypeError], which [serializeValue] lets
    through, and on an invalid date [toISOString] raises a [RangeError]. *)
Lemma serializeValue_raises :
  Mapping.serializeValue (p := Sample.engine) Sample.looped (VRef 1)
  = Throw (TypeError_circular (p := Sample.engine) Sample.looped [1%positive] 1%positive)
  /\ TypeError_circular (p := Sample.engine) Sample.looped [1%positive] 1%positive
     = new_TypeError
         ("Converting circular structure to JSON" +:+ Str.newline
          +:+ "    --> starting at object with constructor 'Object'" +:+ Str.newline
          +:+ "    --- property 'self' closes the circle")
  /\ Mapping.serializeValue (p := Sample.engine) ∅ (VDate Sample.no_date)
     = Throw Mapping.RangeError_date.
Proof. repeat split. Qed.

(** ** The error classifier *)

Section Classifier.
Import ErrorHandler.

Lemma analyzeHttpError_type (status : Z) (error : exn) (context : string) :
  type (analyzeHttpError status error context) = kind_of_status status.
Proof.
  unfold analyzeHttpError.
  destruct (status =? 401) eqn:E1; [by apply Z.eqb_eq in E1 as ->|].
  destruct (status =? 403) eqn:E2; [by apply Z.eqb_eq in E2 as ->|].
  destruct (status =? 404) eqn:E3; [by apply Z.eqb_eq in E3 as ->|].
  destruct (status =? 422) eqn:E4; [by apply Z.eqb_eq in E4 as ->|].
  destruct (status =? 500) eqn:E5; [by apply Z.eqb_eq in E5 as ->|].
  destruct (status =? 502) eqn:E6; [by apply Z.eqb_eq in E6 as ->|].
  destruct (status =? 503) eqn:E7; [by apply Z.eqb_eq in E7 as ->|].
  destruct (status =? 504) eqn:E8; [by apply Z.eqb_eq in E8 as ->|].
  simpl. unfold kind_of_status.
  destruct status as [|p|p]; try done.
  do 9 (destruct p as [p|p|]; try done).
Qed.

Lemma kind_of_status_network (status : Z) : kind_of_status status <> network.
Proof.
  unfold kind_of_status.
  destruct status as [|p|p]; try done.
  do 9 (destruct p as [p|p|]; try done).
Qed.

Lemma analyzeError_past_network (error : exn) (context : string) :
  isCorsError error = false -> isNetworkError error = false ->
  type (analyzeError error context) <> network.
Proof.
  intros Hc Hn. unfold analyzeError. rewrite Hc, Hn.
  destruct (http_status error) as [status|].
  - rewrite analyzeHttpError_type. apply kind_of_status_network.
  - destruct (message_includes "JSON" error || message_includes "parse" error); [done|].
    by destruct (match JS.message error with Some _ => _ | None => _ end).
Qed.

Lemma span_digits_append (digits after : string) :
  Str.all_digits digits = true -> Str.starts_with_digit after = false ->
  Str.span_digits (digits +:+ after) = (digits, after).
Proof.
  intros Hdigits Hafter. induction digits as [|d digits IH]; simpl.
  - destruct after as [|c after]; [done|]. simpl in *. by rewrite Hafter.
  - simpl in Hdigits. apply andb_true_iff in Hdigits as [Hd Hdigits].
    change (String d digits +:+ after) with (String d (digits +:+ after)).
    simpl. by rewrite Hd, (IH Hdigits).
Qed.

Lemma prefix_short (p : string) :
  forall s t, String.prefix p (s +:+ t) = true -> (String.length p <= String.length s)%nat ->
    String.prefix p s = true.
Proof.
  induction p as [|a p IH]; intros s t Hp Hlen; [by destruct s|].
  destruct s as [|b s]; simpl in Hlen; [lia|].
  change (String b s +:+ t) with (String b (s +:+ t)) in Hp. simpl in *.
  destruct (ascii_dec a b); [|done]. eapply IH; [exact Hp | lia].
Qed.

Lemma append_assoc (a b c : string) : (a +:+ b) +:+ c = a +:+ (b +:+ c).
Proof.
  induction a as [|x a IH]; [done|].
  change ((String x a +:+ b) +:+ c) with (String x ((a +:+ b) +:+ c)).
  by rewrite IH.
Qed.

Lemma append_length (a b : string) :
  String.length (a +:+ b) = (String.length a + String.length b)%nat.
Proof.
  induction a as [|x a IH]; [done|].
  change (String x a +:+ b) with (String x (a +:+ b)). simpl. by rewrite IH.
Qed.

(** The match of [/HTTP (\d+)/] in a message whose first [HTTP] followed
    by a space is followed by digits: the digits up to the first
    character that is none. *)
Lemma match_status_first (before digits after : string) :
  Str.includes "HTTP " (before +:+ "HTTP") = false ->
  digits <> EmptyString ->
  Str.all_digits digits = true ->
  Str.starts_with_digit after = false ->
  match_status (before +:+ "HTTP " +:+ digits +:+ after) = Some digits.
Proof.
  intros Hfirst Hne Hdigits Hafter. induction before as [|c before IH].
  - change (EmptyString +:+ "HTTP " +:+ digits +:+ after)
      with (String "H" (String "T" (String "T" (String "P" (String " " (digits +:+ after)))))).
    cbn -[Str.span_digits]. rewrite (span_digits_append _ _ Hdigits Hafter). simpl.
    by destruct digits.
  - change (String c before +:+ "HTTP") with (String c (before +:+ "HTTP")) in Hfirst.
    cbn [Str.includes] in Hfirst. apply orb_false_iff in Hfirst as [Hhere Hrest].
    change (String c before +:+ "HTTP " +:+ digits +:+ after)
      with (String c (before +:+ "HTTP " +:+ digits +:+ after)).
    cbn [match_status].
    assert (String.prefix "HTTP " (String c (before +:+ "HTTP " +:+ digits +:+ after)) = false)
      as ->.
    { destruct (String.prefix "HTTP " (String c (before +:+ "HTTP " +:+ digits +:+ after)))
        eqn:Hp; [|done].
      rewrite <- Hhere. symmetry.
      apply (prefix_short "HTTP " (String c (before +:+ "HTTP")) (" " +:+ digits +:+ after)).
      - change (String c (before +:+ "HTTP") +:+ " " +:+ digits +:+ after)
          with (String c ((before +:+ "HTTP") +:+ " " +:+ digits +:+ after)).
        by rewrite append_assoc.
      - simpl. rewrite append_length. simpl. lia. }
    by apply IH.
Qed.

Lemma http_status_literal (error : exn) (before digits after : string) :
  JS.message error = Some (before +:+ "HTTP " +:+ digits +:+ after) ->
  Str.includes "HTTP " (before +:+ "HTTP") = false ->
  digits <> EmptyString ->
  Str.all_digits digits = true ->
  Str.starts_with_digit after = false ->
  http_status error = Some (parseInt digits).
Proof.
  intros Hmessage Hfirst Hne Hdigits Hafter. unfold http_status, message_includes.
  rewrite Hmessage.
  assert (Str.includes "HTTP" (before +:+ "HTTP " +:+ digits +:+ after) = true) as ->.
  { apply (includes_append "HTTP" before (" " +:+ digits +:+ after)). }
  assert (Str.is_empty (before +:+ "HTTP " +:+ digits +:+ after) = false) as ->.
  { by destruct before. }
  simpl. by rewrite match_status_first.
Qed.

(** C4: an error that is neither a cross-origin nor a network failure,
    and whose message holds [HTTP], a space and a number, is diagnosed by
    that number alone (the digits after the first [HTTP] followed by a
    space): 401 unauthorized, 403 forbidden, 404 not found,
    422 unprocessable, 500, 502, 503 and 504 server error, and for any
    other number the diagnosis of an unknown HTTP error, whose title and
    message carry the number.  The error [HTTP 404: not found] is not
    found, with the steps about the document and the table when the
    context is the synchronisation to Grist, and with the steps about the
    backend when it is the fetch from the API. *)
Theorem analyzeError_dispatches_on_status :
  (forall (error : exn) (context : string) (status : Z),
     isCorsError error = false ->
     isNetworkError error = false ->
     http_status error = Some status ->
     analyzeError error context = analyzeHttpError status error context
     /\ type (analyzeError error context) = kind_of_status status
     /\ (kind_of_status status = unknown ->
         title (analyzeError error context) = "Erreur HTTP " +:+ Str.of_Z status
         /\ message (analyzeError error context)
            = "Le serveur a renvoyé une erreur " +:+ Str.of_Z status))
  /\ (forall (error : exn) (context before digits after : string),
        isCorsError error = false ->
        isNetworkError error = false ->
        JS.message error = Some (before +:+ "HTTP " +:+ digits +:+ after) ->
        Str.includes "HTTP " (before +:+ "HTTP") = false ->
        digits <> EmptyString ->
        Str.all_digits digits = true ->
        Str.starts_with_digit after = false ->
        type (analyzeError error context) = kind_of_status (parseInt digits))
  /\ type (analyzeError (new_Error "HTTP 404: not found") "grist_sync") = not_found
  /\ solutions (analyzeError (new_Error "HTTP 404: not found") "grist_sync")
     = [ "✓ Vérifiez que le Document ID est correct (dans l'URL Grist)";
         "✓ Vérifiez que le Table ID correspond exactement au nom de la table (sensible à la casse)";
         "✓ Testez la connexion avec le bouton " +:+ Str.quote
           +:+ "🔍 Tester la connexion Grist" +:+ Str.quote ]
  /\ type (analyzeError (new_Error "HTTP 404: not found") "api_fetch") = not_found
  /\ solutions (analyzeError (new_Error "HTTP 404: not found") "api_fetch")
     = [ "✓ Vérifiez que l'URL du backend est correcte";
         "✓ Vérifiez que l'endpoint existe";
         "✓ Testez l'URL dans un navigateur ou avec un outil comme Postman" ].
Proof.
  assert (Hstatus : forall error context status,
            isCorsError error = false -> isNetworkError error = false ->
            http_status error = Some status ->
            analyzeError error context = analyzeHttpError status error context).
  { intros error context status Hc Hn Hs. unfold analyzeError. by rewrite Hc, Hn, Hs. }
  split; [|split; [|by vm_compute]].
  2:{ intros error context before digits after Hc Hn Hm Hfirst Hne Hdigits Hafter.
      rewrite (Hstatus error context (parseInt digits) Hc Hn).
      - apply analyzeHttpError_type.
      - by eapply http_status_literal. }
  intros error context status Hc Hn Hs.
  pose proof (Hstatus error context status Hc Hn Hs) as Heq.
  rewrite Heq. split; [done|]. split; [apply analyzeHttpError_type|].
  intros Hkind. unfold analyzeHttpError.
  destruct (status =? 401) eqn:E1; [by apply Z.eqb_eq in E1 as ->|].
  destruct (status =? 403) eqn:E2; [by apply Z.eqb_eq in E2 as ->|].
  destruct (status =? 404) eqn:E3; [by apply Z.eqb_eq in E3 as ->|].
  destruct (status =? 422) eqn:E4; [by apply Z.eqb_eq in E4 as ->|].
  destruct (status =? 500) eqn:E5; [by apply Z.eqb_eq in E5 as ->|].
  destruct (status =? 502) eqn:E6; [by apply Z.eqb_eq in E6 as ->|].
  destruct (status =? 503) eqn:E7; [by apply Z.eqb_eq in E7 as ->|].
  destruct (status =? 504) eqn:E8; [by apply Z.eqb_eq in E8 as ->|].
  done.
Qed.

(** The theorem at the error the client raises on a response 418. *)
Lemma analyzeError_dispatches_on_status_witness :
  type (analyzeError (new_Error "Erreur HTTP 418: teapot") "grist_sync") = unknown
  /\ title (analyzeError (new_Error "Erreur HTTP 418: teapot") "grist_sync")
     = "Erreur HTTP 418"
  /\ type (analyzeError (new_Error "Erreur HTTP 503: down") "api_fetch") = server_error
  /\ type (analyzeError (new_Error "Erreur HTTP 401: no token") "grist_sync")
     = unauthorized.
Proof.
  destruct analyzeError_dispatches_on_status as (H & Hliteral & _).
  destruct (H (new_Error "Erreur HTTP 418: teapot") "grist_sync" 418)
    as (_ & Htype & Htitle); [reflexivity | reflexivity | reflexivity |].
  destruct (H (new_Error "Erreur HTTP 503: down") "api_fetch" 503)
    as (_ & Htype' & _); [reflexivity | reflexivity | reflexivity |].
  split; [exact Htype|]. split; [|split; [exact Htype'|]].
  - destruct (Htitle eq_refl) as [Ht _]. exact Ht.
  - apply (Hliteral (new_Error "Erreur HTTP 401: no token") "grist_sync"
             "Erreur " "401" ": no token");
      [reflexivity | reflexivity | reflexivity | reflexivity | discriminate
      | reflexivity | reflexivity].
Defined.

(** C5: the detector of cross-origin failures is asked first and its
    answer is final, so an error shaped like a failure of [fetch] is a
    cross-origin failure and never a network failure; an error is a
    network failure only when the first detector let it through and it is
    a [TypeError] or its message mentions the network; and such an error
    is a network failure whatever the later detectors would say. *)
Theorem analyzeError_cors_before_network :
  forall (error : exn) (context : string),
    (isCorsError error = true -> type (analyzeError error context) = cors)
    /\ (fetch_failure_shaped error = true ->
        type (analyzeError error context) = cors
        /\ type (analyzeError error context) <> network)
    /\ (type (analyzeError error context) = network ->
        isCorsError error = false
        /\ (is_TypeError error = true \/ mentions_network error = true))
    /\ (isCorsError error = false -> isNetworkError error = true ->
        type (analyzeError error context) = network).
Proof.
  intros error context.
  assert (Hfirst : isCorsError error = true -> type (analyzeError error context) = cors).
  { intros Hc. unfold analyzeError. by rewrite Hc. }
  split; [exact Hfirst|]. split; [|split].
  - intros Hshape.
    assert (isCorsError error = true) as Hc.
    { unfold fetch_failure_shaped in Hshape. unfold isCorsError.
      apply andb_true_iff in Hshape as [-> Hmsg]. simpl.
      apply orb_true_iff in Hmsg as [-> | ->]; by rewrite ?orb_true_r. }
    rewrite (Hfirst Hc). done.
  - intros Hnet. destruct (isCorsError error) eqn:Hc.
    { rewrite (Hfirst eq_refl) in Hnet. done. }
    split; [done|].
    destruct (isNetworkError error) eqn:Hn.
    + unfold isNetworkError in Hn. rewrite Hc in Hn. simpl in Hn.
      rewrite andb_true_r in Hn. unfold mentions_network.
      destruct (is_TypeError error); [by left|]. right. exact Hn.
    + by destruct (analyzeError_past_network error context Hc Hn).
  - intros Hc Hn. unfold analyzeError. by rewrite Hc, Hn.
Qed.

(** The theorem at the error a browser gives when a request cannot be
    made, and at a failed connection. *)
Lemma analyzeError_cors_before_network_witness :
  type (analyzeError (new_TypeError "Failed to fetch") "grist_sync") = cors
  /\ type (analyzeError (new_Error "connect ECONNREFUSED 127.0.0.1:80") "grist_sync")
     = network.
Proof.
  destruct (analyzeError_cors_before_network (new_TypeError "Failed to fetch") "grist_sync")
    as (_ & H1 & _).
  destruct (analyzeError_cors_before_network
              (new_Error "connect ECONNREFUSED 127.0.0.1:80") "grist_sync")
    as (_ & _ & _ & H2).
  split; [apply H1; reflexivity | apply H2; reflexivity].
Defined.

End Classifier.

(** ** The Grist client *)

Section ClientProperties.
Import Grist.

Context {p : Platform}.

Variable h : store.
Variable host : Host.
Variable this : GristClient.

Local Arguments ErrorHandler.analyzeError : simpl never.
Local Arguments ErrorHandler.formatErrorShort : simpl never.
Local Arguments Str.of_Z : simpl never.
Local Arguments Str.of_nat : simpl never.
Local Arguments String.append : simpl never.
Local Arguments get : simpl never.

Ltac run :=
  unfold try_catch, mbind, fetch, emit, http_failure, rethrow, await, throw, ret, lift,
    or_empty, mbind, settle, short; simpl.

Lemma settle_Error {J} (answer : settled (Response J)) (e : exn) :
  settle answer = Throw e -> instanceof_Error e = true.
Proof.
  unfold settle. destruct answer as [response|n m]; [|by intros [= <-]].
  destruct (ok response).
  - destruct (json response); [done | by intros [= <-]].
  - destruct (text response); by intros [= <-].
Qed.

Lemma settle_data {J} (answer : settled (Response J)) : settle answer <> Beyond.
Proof.
  unfold settle. destruct answer as [response|n m]; [|done].
  destruct (ok response); [by destruct (json response) | by destruct (text response)].
Qed.

(** Reading a property raises nothing but the [TypeError] of the
    engine. *)
Lemma get_Error (v : value) (key : string) (e : exn) :
  get h v key = Throw e -> e = TypeError_read v key /\ nullish v = true.
Proof.
  intros Hget. destruct (nullish v) eqn:Hv.
  - rewrite get_nullish in Hget by done. by injection Hget as <-.
  - by apply get_no_throw in Hget.
Qed.

(** A name that is no index and not [length] is read as data where no
    prototype holds a member of this name. *)
Lemma get_data (v : value) (key : string) :
  key <> "length" -> Str.all_digits key = false ->
  (forall k, kind_of h v = Some k -> inherited k key = false) ->
  get h v key <> Beyond.
Proof.
  intros Hlength Hdigits Hin. unfold get.
  destruct (kind_of h v) as [k|] eqn:Hkind; [|done].
  rewrite (Hin k eq_refl).
  destruct (own h v key) as [r|] eqn:Hown; [|done].
  destruct v as [| |b|n|s|d|l]; try done; simpl in Hown.
  - apply String.eqb_neq in Hlength. rewrite Hlength in Hown.
    destruct (assoc key (indexed (characters s))) as [c|] eqn:Hc; [|done].
    apply indexed_digits in Hc. congruence.
  - destruct (h !! l) as [[props|elems]|]; [| |done].
    + destruct (assoc key props); [|done]. by injection Hown as <-.
    + apply String.eqb_neq in Hlength. rewrite Hlength in Hown.
      destruct (assoc key (indexed elems)); [|done]. by injection Hown as <-.
Qed.

(** What [getRecords] and [getColumns] read in an answer: the property
    of the body of a successful response. *)
Lemma received_Error (answer : settled (Response value)) (key : string) (e : exn) :
  bind (settle answer) (fun data => get h data key) = Throw e ->
  instanceof_Error e = true.
Proof.
  destruct (settle answer) as [data|caught|] eqn:Hs; simpl; [| |done].
  - intros Hget. by apply get_Error in Hget as [-> _].
  - intros [= <-]. by eapply settle_Error.
Qed.

Lemma log_run (message : string) (type : level) (t : list event) :
  log this message type t = (Ok (), t ++ note this message type).
Proof.
  unfold log, note. destruct (onLog this); [done|].
  unfold ret. by rewrite app_nil_r.
Qed.

(** The [try] statement of [getRecords] and [getColumns]. *)
Lemma reading_run (answer : Request -> settled (Response value)) (request : Request)
  (key : string) (t : list event) :
  try_catch
    (response <- fetch answer request;;
     if negb (ok response) then http_failure response
     else data <- await (json response);;
          or_empty h data key)%client
    (fun error => rethrow error (ErrorHandler.analyzeError error "grist_sync")) t
  = (match bind (settle (answer request)) (fun data => get h data key) with
     | Ok found => Ok (if truthy found then Some found else None)
     | Throw caught => Throw (short caught)
     | Beyond => Beyond
     end, t ++ [Fetch request]).
Proof.
  run. destruct (answer request) as [response|n m]; simpl; [|done].
  destruct (ok response); simpl.
  - destruct (json response) as [data|n m]; simpl; [|done].
    destruct (get h data key) as [found|e|] eqn:Hget; simpl; [done| |done].
    by apply get_Error in Hget as [-> _].
  - destruct (text response); simpl; done.
Qed.

Lemma getRecords_run (limit : option number) (t : list event) :
  getRecords h host this limit t
  = (match bind (settle (GET_records host (reading this limit)))
                (fun data => get h data "records") with
     | Ok found => Ok (if truthy found then Some found else None)
     | Throw caught => Throw (short caught)
     | Beyond => Beyond
     end, t ++ [Fetch (reading this limit)]).
Proof. apply reading_run. Qed.

Lemma getColumns_run (t : list event) :
  getColumns h host this t
  = (match bind (settle (GET_columns host (listing this)))
                (fun data => get h data "columns") with
     | Ok found => Ok (if truthy found then Some found else None)
     | Throw caught => Throw (short caught)
     | Beyond => Beyond
     end, t ++ [Fetch (listing this)]).
Proof. apply reading_run. Qed.

Lemma addColumns_run (cols : list ColumnSpec) (t : list event) :
  cols <> [] ->
  addColumns host this cols t
  = match settle (POST_columns host (creation this cols)) with
    | Ok data => (Ok (Some data), t ++ [Fetch (creation this cols)])
    | Throw caught =>
        (Throw (short caught), t ++ [Fetch (creation this cols)] ++ told this caught)
    | Beyond => (Beyond, t ++ [Fetch (creation this cols)])
    end.
Proof.
  intros Hcols. unfold addColumns.
  destruct cols as [|col cols]; [done|]. cbn [length Nat.eqb].
  unfold log_diagnosis, log, told, note. run.
  destruct (POST_columns host _) as [response|n m]; simpl.
  - destruct (ok response); simpl.
    + destruct (json response); simpl; [done|].
      destruct (onLog this); simpl; by rewrite <- ?app_assoc.
    + destruct (text response); simpl;
        destruct (onLog this); simpl; by rewrite <- ?app_assoc.
  - destruct (onLog this); simpl; by rewrite <- ?app_assoc.
Qed.

(** [JSON.stringify] raises nothing but its [TypeError]. *)
Lemma serialize_elements_throws (property : value -> option (result (option string)))
  (elems : list value) (e : exn) :
  (forall v e, property v = Some (Throw e) -> instanceof_Error e = true) ->
  serialize_elements property elems = Some (Throw e) -> instanceof_Error e = true.
Proof.
  intros Hall. induction elems as [|v rest IH]; simpl; [done|].
  destruct (property v) as [[text|e'|]|] eqn:Hv; [| |done..].
  - destruct (serialize_elements property rest) as [[texts|e'|]|]; [done| |done..].
    intros [= <-]. by apply IH.
  - intros [= <-]. by eapply Hall.
Qed.

Lemma serialize_members_throws (property : value -> option (result (option string)))
  (props : list (string * value)) (e : exn) :
  (forall v e, property v = Some (Throw e) -> instanceof_Error e = true) ->
  serialize_members property props = Some (Throw e) -> instanceof_Error e = true.
Proof.
  intros Hall. induction props as [|[k v] rest IH]; simpl; [done|].
  destruct (property v) as [[text|e'|]|] eqn:Hv; [| |done..].
  - destruct (serialize_members property rest) as [[texts|e'|]|]; [done| |done..].
    intros [= <-]. by apply IH.
  - intros [= <-]. by eapply Hall.
Qed.

Lemma serialize_property_throws (fuel : nat) :
  forall stack v e,
    serialize_property fuel h stack v = Some (Throw e) -> instanceof_Error e = true.
Proof.
  induction fuel as [|fuel IH]; intros stack v e;
    destruct v as [| | [] | | | |l]; simpl; try done.
  - destruct (bool_decide (l ∈ stack)); [by intros [= <-] | done].
  - destruct (bool_decide (l ∈ stack)); [by intros [= <-]|].
    destruct (h !! l) as [[props|elems]|]; [| |done].
    + destruct (serialize_members _ props) as [[texts|e'|]|] eqn:Hm; [done| |done..].
      intros [= <-]. eapply serialize_members_throws; [|exact Hm]. apply IH.
    + destruct (serialize_elements _ elems) as [[texts|e'|]|] eqn:Hm; [done| |done..].
      intros [= <-]. eapply serialize_elements_throws; [|exact Hm]. apply IH.
Qed.

Lemma stringify_fields_outcome (recs : list record) :
  (forall e, stringify_fields h recs = Throw e -> instanceof_Error e = true)
  /\ stringify_fields h recs <> Beyond.
Proof.
  induction recs as [|rec rest [IHe IHd]]; simpl; [done|].
  unfold JSON_stringify_object.
  pose proof (serialize_members_data (serialize_property (S (size h)) h []) rec
                (serialize_property_data h (S (size h)) [])) as Hdata.
  destruct (serialize_members _ rec) as [[texts|e'|]|] eqn:Hm; simpl; [| |done|].
  - destruct (stringify_fields h rest) as [texts'|e'|]; simpl; [done| |done].
    split; [|done]. intros e [= <-]. by apply IHe.
  - split; [|done]. intros e [= <-]. eapply serialize_members_throws; [|exact Hm].
    apply serialize_property_throws.
  - split; [|done]. by intros e [= <-].
Qed.

Lemma records_body_Error (recs : list record) (e : exn) :
  records_body h recs = Throw e -> instanceof_Error e = true.
Proof.
  unfold records_body. destruct (stringify_fields_outcome recs) as [He _].
  destruct (stringify_fields h recs) as [texts|e'|]; simpl; [done| |done].
  intros [= <-]. by apply He.
Qed.

(** The body of the insertion is built from the data alone. *)
Lemma records_body_data (recs : list record) : records_body h recs <> Beyond.
Proof.
  unfold records_body. destruct (stringify_fields_outcome recs) as [_ Hd].
  by destruct (stringify_fields h recs) as [texts|e'|].
Qed.

Lemma postRecords_run (recs : list record) (t : list event) :
  postRecords h host this recs t
  = match records_body h recs with
    | Throw caught => (Throw (short caught), t ++ told this caught)
    | Beyond => (Beyond, t)
    | Ok body =>
        match settle (POST_records host (insertion this body)) with
        | Ok data => (Ok data, t ++ [Fetch (insertion this body)])
        | Throw caught =>
            (Throw (short caught), t ++ [Fetch (insertion this body)] ++ told this caught)
        | Beyond => (Beyond, t ++ [Fetch (insertion this body)])
        end
    end.
Proof.
  unfold postRecords, log_diagnosis, log, told, note. run.
  destruct (records_body h recs) as [body|caught|] eqn:Hbody; simpl; [| |done].
  - destruct (POST_records host _) as [response|n m]; simpl.
    + destruct (ok response); simpl.
      * destruct (json response); simpl; [done|].
        destruct (onLog this); simpl; by rewrite <- ?app_assoc.
      * destruct (text response); simpl;
          destruct (onLog this); simpl; by rewrite <- ?app_assoc.
    + destruct (onLog this); simpl; by rewrite <- ?app_assoc.
  - rewrite (records_body_Error _ _ Hbody).
    destruct (onLog this); simpl; by rewrite <- ?app_assoc, ?app_nil_r.
Qed.

Lemma postRecords_raises (recs : list record) (t t' : list event) (e : exn) :
  postRecords h host this recs t = (Throw e, t') ->
  exists caught,
    post_failure h host this recs caught /\ instanceof_Error caught = true /\ e = short caught.
Proof.
  rewrite postRecords_run. unfold post_failure.
  destruct (records_body h recs) as [body|caught|] eqn:Hbody; [| |done].
  - destruct (settle _) as [data|caught|] eqn:Hs; [done| |done].
    intros [= <- _]. exists caught. split; [right; by exists body|].
    split; [by eapply settle_Error | done].
  - intros [= <- _]. exists caught. split; [by left|].
    split; [by eapply records_body_Error | done].
Qed.

Lemma postRecords_data (recs : list record) (t t' : list event) :
  postRecords h host this recs t <> (Beyond, t').
Proof.
  rewrite postRecords_run. pose proof (records_body_data recs) as Hd.
  destruct (records_body h recs) as [body|caught|]; [|done..].
  pose proof (settle_data (POST_records host (insertion this body))) as Hs.
  by destruct (settle _) as [data|caught|].
Qed.

Lemma warn_run (e : exn) (t : list event) :
  warn this e t
  = (Ok (), t ++ (if instanceof_Error e then warned this e else [])).
Proof.
  unfold warn, warned. destruct (instanceof_Error e).
  - unfold mbind. rewrite log_run. unfold emit. by rewrite <- app_assoc.
  - unfold ret. by rewrite app_nil_r.
Qed.

Lemma ensureColumnsExist_no_throw (recs : list record) (t t' : list event) (e : exn) :
  ensureColumnsExist h host this recs t <> (Throw e, t').
Proof.
  unfold ensureColumnsExist. destruct (length recs =? 0)%nat; [done|].
  unfold try_catch. destruct (createMissingColumns h host this recs t) as [[[]|e'|] t1];
    [done| |done].
  by rewrite warn_run.
Qed.

Lemma colIds_Error (cols : list value) (e : exn) :
  colIds h cols = Throw e -> instanceof_Error e = true.
Proof.
  revert e. induction cols as [|col rest IH]; intros e; simpl; [done|].
  destruct (get h col "fields") as [fields|e'|] eqn:Hfields; simpl; [| |done].
  - destruct (get h fields "colId") as [colId|e'|] eqn:HcolId; simpl; [| |done].
    + destruct (colIds h rest) as [ids|e'|]; simpl; [done| |done].
      intros [= <-]. by apply IH.
    + intros [= <-]. by apply get_Error in HcolId as [-> _].
  - intros [= <-]. by apply get_Error in Hfields as [-> _].
Qed.

Lemma existingColumnIds_Error (existingColumns : option value) (e : exn) :
  existingColumnIds h existingColumns = Throw e -> instanceof_Error e = true.
Proof.
  unfold existingColumnIds. destruct existingColumns as [v|]; [|done].
  destruct (ApiSource.elements h v) as [cols|]; [apply colIds_Error|].
  destruct (get h v "map") as [found|e'|] eqn:Hmap; simpl; [| |done].
  - by intros [= <-].
  - intros [= <-]. by apply get_Error in Hmap as [-> _].
Qed.

(** The [try] block of [ensureColumnsExist], step by step: the value
    read in the listing, the ids of its columns, the columns missing and
    the trace. *)
Lemma createMissingColumns_run (recs : list record) (t : list event) :
  createMissingColumns h host this recs t
  = let t0 := t ++ note this "🔍 Vérification des colonnes existantes..." info
              ++ [Fetch (listing this)] in
    match bind (settle (GET_columns host (listing this)))
               (fun data => get h data "columns") with
    | Throw caught => (Throw (short caught), t0)
    | Beyond => (Beyond, t0)
    | Ok found =>
        let existingColumns := if truthy found then Some found else None in
        match existingColumnIds h existingColumns with
        | Throw e => (Throw e, t0)
        | Beyond => (Beyond, t0)
        | Ok ids =>
            let missing := missingColumns ids recs in
            let t1 := t0 ++ note this ("✓ "
                                       +:+ Str.of_nat (existingColumns_length h existingColumns)
                                       +:+ " colonne(s) existante(s) détectée(s)") success in
            if (0 <? length missing)%nat then
              let t2 := t1 ++ note this ("➕ Création de " +:+ Str.of_nat (length missing)
                                         +:+ " colonne(s) manquante(s): "
                                         +:+ Str.join ", " missing) info
                        ++ [Fetch (creation this (columnsToCreate ids recs))] in
              match settle (POST_columns host (creation this (columnsToCreate ids recs))) with
              | Ok _ => (Ok (), t2 ++ note this "✅ Colonnes créées avec succès!" success)
              | Throw caught => (Throw (short caught), t2 ++ told this caught)
              | Beyond => (Beyond, t2)
              end
            else
              (Ok (), t1 ++ note this "✓ Toutes les colonnes nécessaires existent déjà"
                         success)
        end
    end.
Proof.
  unfold createMissingColumns, mbind. rewrite log_run, getColumns_run.
  destruct (bind (settle (GET_columns host (listing this))) _) as [found|caught|];
    cbn zeta; [|by rewrite <- app_assoc..].
  unfold lift.
  destruct (existingColumnIds h _) as [ids|e|]; [|by rewrite <- app_assoc..].
  rewrite log_run.
  destruct (0 <? length (missingColumns _ recs))%nat eqn:Hmissing.
  - rewrite log_run, addColumns_run.
    + destruct (settle (POST_columns host _)) as [created|caught|].
      * rewrite log_run. by rewrite <- !app_assoc.
      * by rewrite <- !app_assoc.
      * by rewrite <- !app_assoc.
    + unfold columnsToCreate. intros Hnil. apply fmap_nil_inv in Hnil.
      rewrite Hnil in Hmissing. done.
  - rewrite log_run. by rewrite <- !app_assoc.
Qed.

Lemma createMissingColumns_Error (recs : list record) (t t' : list event) (e : exn) :
  createMissingColumns h host this recs t = (Throw e, t') -> instanceof_Error e = true.
Proof.
  rewrite createMissingColumns_run. cbn zeta.
  destruct (bind (settle (GET_columns host _)) _) as [found|caught|];
    [|by intros [= <- _]|done].
  destruct (existingColumnIds h _) as [ids|e'|] eqn:Hids; [| |done].
  - destruct (0 <? _)%nat; [|done].
    destruct (settle (POST_columns host _)) as [created|caught|];
      [done | by intros [= <- _] | done].
  - intros [= <- _]. by eapply existingColumnIds_Error.
Qed.

Lemma colIds_data (cols : list value) : listing_is_data -> colIds h cols <> Beyond.
Proof.
  intros Hdata. induction cols as [|col rest IH]; simpl; [done|].
  pose proof (get_data col "fields" ltac:(done) eq_refl) as Hfields.
  destruct (get h col "fields") as [fields|e'|]; simpl; [|done|].
  - pose proof (get_data fields "colId" ltac:(done) eq_refl) as HcolId.
    destruct (get h fields "colId") as [colId|e'|]; simpl; [|done|].
    + by destruct (colIds h rest) as [ids|e'|].
    + exfalso. apply HcolId; [|done]. intros k _. apply Hdata.
  - exfalso. apply Hfields; [|done]. intros k _. apply Hdata.
Qed.

Lemma existingColumnIds_data (existingColumns : option value) :
  listing_is_data -> existingColumnIds h existingColumns <> Beyond.
Proof.
  intros Hdata. unfold existingColumnIds. destruct existingColumns as [v|]; [|done].
  destruct (ApiSource.elements h v) as [cols|] eqn:Hv; [by apply colIds_data|].
  pose proof (get_data v "map" ltac:(done) eq_refl) as Hmap.
  destruct (get h v "map") as [found|e'|]; simpl; [done..|].
  exfalso. apply Hmap; [|done]. intros k Hk. apply Hdata. intros ->.
  destruct v as [| |b|n|s|d|l]; try done. simpl in Hk, Hv.
  by destruct (h !! l) as [[props|elems]|].
Qed.

Lemma createMissingColumns_data (recs : list record) (t t' : list event) :
  listing_is_data -> createMissingColumns h host this recs t <> (Beyond, t').
Proof.
  intros Hdata. rewrite createMissingColumns_run. cbn zeta.
  pose proof (settle_data (GET_columns host (listing this))) as Hs.
  destruct (settle (GET_columns host _)) as [data|caught|]; simpl; [|done..].
  pose proof (get_data data "columns" ltac:(done) eq_refl) as Hcolumns.
  destruct (get h data "columns") as [found|e'|]; [|done|].
  - pose proof (existingColumnIds_data (if truthy found then Some found else None) Hdata)
      as Hids.
    destruct (existingColumnIds h _) as [ids|e'|]; [|done..].
    destruct (0 <? _)%nat; [|done].
    pose proof (settle_data (POST_columns host (creation this (columnsToCreate ids recs))))
      as Hs'.
    by destruct (settle (POST_columns host _)) as [created|caught|].
  - exfalso. apply Hcolumns; [|done]. intros k _. apply Hdata.
Qed.

Lemma ensureColumnsExist_run (recs : list record) (t : list event) :
  recs <> [] ->
  ensureColumnsExist h host this recs t
  = match createMissingColumns h host this recs t with
    | (Throw e, t1) => (Ok (), t1 ++ warned this e)
    | run => run
    end.
Proof.
  intros Hrecs. unfold ensureColumnsExist.
  destruct recs as [|rec recs]; [done|]. cbn [length Nat.eqb].
  unfold try_catch.
  destruct (createMissingColumns h host this (rec :: recs) t) as [[[]|e|] t1] eqn:Hrun;
    [done| |done].
  by rewrite warn_run, (createMissingColumns_Error _ _ _ _ Hrun).
Qed.

Lemma ensureColumnsExist_returns (recs : list record) (t : list event) :
  listing_is_data -> exists t', ensureColumnsExist h host this recs t = (Ok (), t').
Proof.
  intros Hdata. destruct recs as [|rec recs]; [by eexists|].
  rewrite ensureColumnsExist_run by done.
  pose proof (createMissingColumns_data (rec :: recs) t) as Hrun.
  destruct (createMissingColumns h host this (rec :: recs) t) as [[[]|e|] t1];
    [by eexists.. | by destruct (Hrun t1)].
Qed.

Lemma requests_app (t t' : list event) : requests (t ++ t') = requests t ++ requests t'.
Proof. apply omap_app. Qed.

Lemma requests_note (message : string) (type : level) : requests (note this message type) = [].
Proof. unfold note. by destruct (onLog this). Qed.

Lemma requests_told (caught : exn) : requests (told this caught) = [].
Proof. unfold told. by rewrite requests_app, !requests_note. Qed.

Lemma requests_warned (e : exn) : requests (warned this e) = [].
Proof. unfold warned. by rewrite requests_app, requests_note. Qed.

End ClientProperties.

(** *** The columns to create *)

Section Columns.
Import Grist.

Context {p : Platform}.

Lemma Set_add_spec (set : list string) (key : string) :
  NoDup set ->
  NoDup (Set_add set key) /\ forall x, x ∈ Set_add set key <-> x ∈ set \/ x = key.
Proof.
  intros Hset. unfold Set_add. destruct (bool_decide (key ∈ set)) eqn:Hin.
  - apply bool_decide_eq_true in Hin. split; [done|]. intros x. split; [by left|].
    intros [?| ->]; done.
  - apply bool_decide_eq_false in Hin. split.
    + apply NoDup_app. split; [done|]. split; [|apply NoDup_singleton].
      intros x Hx Hx'. apply list_elem_of_singleton in Hx'. by subst.
    + intros x. rewrite elem_of_app, list_elem_of_singleton. done.
Qed.

Lemma Set_add_keys (keys : list string) :
  forall set, NoDup set ->
    NoDup (fold_left Set_add keys set)
    /\ forall x, x ∈ fold_left Set_add keys set <-> x ∈ set \/ x ∈ keys.
Proof.
  induction keys as [|key keys IH]; intros set Hset; simpl.
  - split; [done|]. intros x. rewrite elem_of_nil. tauto.
  - destruct (Set_add_spec set key Hset) as [Hnodup Hin].
    destruct (IH _ Hnodup) as [Hnodup' Hin']. split; [done|].
    intros x. rewrite Hin', Hin, elem_of_cons. tauto.
Qed.

Lemma requiredColumns_spec (recs : list record) :
  NoDup (requiredColumns recs)
  /\ forall key, key ∈ requiredColumns recs <-> exists rec, rec ∈ recs /\ key ∈ rec.*1.
Proof.
  unfold requiredColumns.
  assert (Hgen : forall set, NoDup set ->
            NoDup (fold_left (fun set rec => fold_left Set_add rec.*1 set) recs set)
            /\ forall key,
                 key ∈ fold_left (fun set rec => fold_left Set_add rec.*1 set) recs set
                 <-> key ∈ set \/ exists rec, rec ∈ recs /\ key ∈ rec.*1).
  { induction recs as [|rec rest IH]; intros set Hset; simpl.
    - split; [done|]. intros key. split; [by left|].
      intros [?|(rec & Hrec & _)]; [done|]. by apply elem_of_nil in Hrec.
    - destruct (Set_add_keys rec.*1 set Hset) as [Hnodup Hin].
      destruct (IH _ Hnodup) as [Hnodup' Hin']. split; [done|].
      intros key. rewrite Hin', Hin. split.
      + intros [[?|?]|(rec' & ? & ?)]; [by left| |].
        * right. exists rec. split; [by apply elem_of_cons; left | done].
        * right. exists rec'. split; [by apply elem_of_cons; right | done].
      + intros [?|(rec' & Hrec' & ?)]; [by left; left|].
        apply elem_of_cons in Hrec' as [->|?]; [by left; right|].
        right. by exists rec'. }
  destruct (Hgen [] (NoDup_nil_2)) as [Hnodup Hin]. split; [done|].
  intros key. rewrite Hin, elem_of_nil. tauto.
Qed.

Lemma missingColumns_spec (existing : list value) (recs : list record) :
  NoDup (missingColumns existing recs)
  /\ forall key, key ∈ missingColumns existing recs
       <-> (exists rec, rec ∈ recs /\ key ∈ rec.*1) /\ VStr key ∉ existing.
Proof.
  destruct (requiredColumns_spec recs) as [Hnodup Hin]. unfold missingColumns. split.
  - by apply NoDup_filter.
  - intros key. rewrite list_elem_of_filter, Hin. tauto.
Qed.

(** The loop passes the records in which it reads [null] or
    [undefined]. *)
Lemma infer_skipped (before after : list record) (columnName : string) :
  (forall r, r ∈ before -> skipped r columnName) ->
  infer (before ++ after) columnName = infer after columnName.
Proof.
  induction before as [|r before IH]; intros Hbefore; simpl; [done|].
  pose proof (Hbefore r ltac:(by apply elem_of_cons; left)) as Hr. unfold skipped in Hr.
  destruct (assoc columnName r) as [v|].
  - rewrite Hr. apply IH. intros r' Hr'. apply Hbefore. by apply elem_of_cons; right.
  - rewrite Hr. apply IH. intros r' Hr'. apply Hbefore. by apply elem_of_cons; right.
Qed.

Lemma infer_all_skipped (recs : list record) (columnName : string) :
  (forall r, r ∈ recs -> skipped r columnName) -> infer recs columnName = "Text".
Proof.
  intros Hall. rewrite <- (app_nil_r recs). by rewrite infer_skipped.
Qed.

End Columns.

Section ClientTheorems.
Import Grist.

Context {p : Platform}.

Local Arguments ErrorHandler.analyzeError : simpl never.
Local Arguments String.append : simpl never.

(** C3, as the code has it: [getRecords] makes one request and never
    calls the log callback.  What it caught when it fails is what the
    answer of the host settled to (a request that was rejected, a status
    that is no success told with the text of the response, a body that
    is no JSON) or the [TypeError] of reading [records] in a body that is
    [null]; and the error it raises for that failure has for message the
    message of the diagnosis of that very failure joined with the first
    step of its remedy, as in [addRecords].  Otherwise it returns
    [data.records], or a new empty array when that is falsy. *)
Theorem getRecords_raises_short :
  forall (h : store) (host : Host) (this : GristClient) (limit : option number)
    (t : list event),
    snd (getRecords h host this limit t) = t ++ [Fetch (reading this limit)]
    /\ logged (snd (getRecords h host this limit t)) = logged t
    /\ (forall caught,
          bind (settle (GET_records host (reading this limit)))
               (fun data => get h data "records") = Throw caught ->
          fst (getRecords h host this limit t) = Throw (short caught)
          /\ JS.message (short caught)
             = Some (ErrorHandler.message (ErrorHandler.analyzeError caught "grist_sync")
                     +:+ " - "
                     +:+ ErrorHandler.first_solution
                           (ErrorHandler.analyzeError caught "grist_sync")))
    /\ (forall e,
          fst (getRecords h host this limit t) = Throw e ->
          exists caught,
            bind (settle (GET_records host (reading this limit)))
                 (fun data => get h data "records") = Throw caught
            /\ instanceof_Error caught = true
            /\ e = short caught)
    /\ (forall data,
          settle (GET_records host (reading this limit)) = Ok data ->
          nullish data = true ->
          fst (getRecords h host this limit t)
          = Throw (short (TypeError_read data "records")))
    /\ (forall found,
          bind (settle (GET_records host (reading this limit)))
               (fun data => get h data "records") = Ok found ->
          fst (getRecords h host this limit t)
          = Ok (if truthy found then Some found else None)).
Proof.
  intros h host this limit t. rewrite getRecords_run. cbn [fst snd].
  split; [done|]. split; [|split; [|split; [|split]]].
  - unfold logged. rewrite omap_app. simpl. apply app_nil_r.
  - by intros caught ->.
  - intros e Hrun.
    destruct (bind (settle _) _) as [found|caught|] eqn:Hreceived; [done| |done].
    injection Hrun as <-. exists caught. split; [done|]. split; [|done].
    by eapply received_Error.
  - intros data -> Hdata. simpl. by rewrite get_nullish.
  - by intros found ->.
Qed.

(** C6, as the code has it: on an absent or empty list [addRecords]
    raises its own error at once, with the trace untouched; on a list
    that is not empty it runs [ensureColumnsExist], unless
    [autoCreateColumns] is [false], and posts on the trace that step
    leaves; the step raises nothing, and it returns on a platform where
    the listing is read as data.  [postRecords] is the [try] statement
    that follows: its outcome and its trace are written out.  Every
    failure of a call with records comes from it: the error raised is the
    short diagnosis of the failure caught there, its message the message
    of the diagnosis of that failure joined with the first step of its
    remedy. *)
Theorem addRecords_steps :
  forall (h : store) (host : Host) (this : GristClient),
    (forall t, addRecords h host this None t
               = (Throw (new_Error "Aucun enregistrement à ajouter"), t))
    /\ (forall t, addRecords h host this (Some []) t
                  = (Throw (new_Error "Aucun enregistrement à ajouter"), t))
    /\ (forall rec recs t,
          autoCreateColumns (config this) <> Some false ->
          (forall e t1, ensureColumnsExist h host this (rec :: recs) t <> (Throw e, t1))
          /\ (forall t1,
                ensureColumnsExist h host this (rec :: recs) t = (Ok (), t1) ->
                addRecords h host this (Some (rec :: recs)) t
                = postRecords h host this (rec :: recs) t1
                /\ exists events,
                     snd (postRecords h host this (rec :: recs) t1) = t1 ++ events)
          /\ (listing_is_data ->
              exists t1 events,
                ensureColumnsExist h host this (rec :: recs) t = (Ok (), t1)
                /\ addRecords h host this (Some (rec :: recs)) t
                   = postRecords h host this (rec :: recs) t1
                /\ snd (postRecords h host this (rec :: recs) t1) = t1 ++ events))
    /\ (forall rec recs t,
          autoCreateColumns (config this) = Some false ->
          addRecords h host this (Some (rec :: recs)) t
          = postRecords h host this (rec :: recs) t)
    /\ (forall recs t,
          postRecords h host this recs t
          = match records_body h recs with
            | Throw caught => (Throw (short caught), t ++ told this caught)
            | Beyond => (Beyond, t)
            | Ok body =>
                match settle (POST_records host (insertion this body)) with
                | Ok data => (Ok data, t ++ [Fetch (insertion this body)])
                | Throw caught =>
                    (Throw (short caught),
                     t ++ [Fetch (insertion this body)] ++ told this caught)
                | Beyond => (Beyond, t ++ [Fetch (insertion this body)])
                end
            end)
    /\ (forall rec recs t e t',
          addRecords h host this (Some (rec :: recs)) t = (Throw e, t') ->
          exists caught,
            post_failure h host this (rec :: recs) caught
            /\ instanceof_Error caught = true
            /\ e = short caught
            /\ JS.message e
               = Some (ErrorHandler.message (ErrorHandler.analyzeError caught "grist_sync")
                       +:+ " - "
                       +:+ ErrorHandler.first_solution
                             (ErrorHandler.analyzeError caught "grist_sync"))).
Proof.
  intros h host this.
  assert (Hevents : forall recs t1,
            exists events, snd (postRecords h host this recs t1) = t1 ++ events).
  { intros recs t1. rewrite postRecords_run.
    destruct (records_body h recs); [|by eexists|exists []; by rewrite app_nil_r].
    destruct (settle _); by eexists. }
  assert (Hafter : forall rec recs t t1,
            autoCreateColumns (config this) <> Some false ->
            ensureColumnsExist h host this (rec :: recs) t = (Ok (), t1) ->
            addRecords h host this (Some (rec :: recs)) t
            = postRecords h host this (rec :: recs) t1).
  { intros rec recs t t1 Hauto Ht1. unfold addRecords, mbind.
    by rewrite (bool_decide_eq_true_2 _ Hauto), Ht1. }
  split; [done|]. split; [done|]. split; [|split; [|split]].
  - intros rec recs t Hauto. split; [|split].
    + intros e t1. apply ensureColumnsExist_no_throw.
    + intros t1 Ht1. split; [by apply Hafter | apply Hevents].
    + intros Hdata.
      destruct (ensureColumnsExist_returns h host this (rec :: recs) t Hdata) as [t1 Ht1].
      destruct (Hevents (rec :: recs) t1) as [events Hpost].
      exists t1, events. split; [done|]. split; [by apply Hafter | done].
  - intros rec recs t Hauto. unfold addRecords, mbind.
    rewrite bool_decide_eq_false_2; [done|]. by intros Hne.
  - intros recs t. apply postRecords_run.
  - intros rec recs t e t' Hrun.
    assert (exists t1, postRecords h host this (rec :: recs) t1 = (Throw e, t'))
      as [t1 Hpost].
    { revert Hrun. unfold addRecords, mbind. destruct (bool_decide _); [|intros Hrun; by exists t].
      pose proof (ensureColumnsExist_no_throw h host this (rec :: recs) t) as Hno.
      destruct (ensureColumnsExist h host this (rec :: recs) t) as [[[]|e'|] t1];
        [intros Hrun; by exists t1 | by destruct (Hno t1 e') | done]. }
    apply postRecords_raises in Hpost as (caught & Hcaught & Herror & ->).
    by exists caught.
Qed.


End ClientTheorems.

(** The theorem on the sample platform: on a host no request reaches the
    failure caught is the [TypeError] of [fetch], and the error raised
    tells the diagnosis and the first step of the remedy; on a host that
    answers with the body [null], it is the [TypeError] of the engine for
    reading [records] in it. *)
Lemma getRecords_raises_short_witness :
  snd (Grist.getRecords (p := Sample.engine) Sample.bodies Sample.unreachable
         Sample.client (Some (Int 5)) [])
  = [] ++ [ Grist.Fetch
              {| Grist.method := "GET";
                 Grist.url := "https://docs.getgrist.com/api/docs/D/tables/T/records?limit=5";
                 Grist.headers :=
                   [("Content-Type", "application/json"); ("Authorization", "Bearer secret")];
                 Grist.body := None |} ]
  /\ fst (Grist.getRecords (p := Sample.engine) Sample.bodies Sample.unreachable
         Sample.client None [])
  = Throw (new_Error
      ("La requête a été bloquée par la politique CORS du navigateur"
       +:+ " - "
       +:+ "✓ Configurez votre backend pour autoriser les requêtes CORS depuis ce domaine"))
  /\ fst (Grist.getRecords (p := Sample.engine) Sample.bodies Sample.hollow
            Sample.client None [])
     = Throw (Grist.short
                (new_TypeError "Cannot read properties of null (reading 'records')")).
Proof.
  destruct (getRecords_raises_short (p := Sample.engine) Sample.bodies Sample.unreachable
              Sample.client None []) as (_ & _ & H & _).
  destruct (getRecords_raises_short (p := Sample.engine) Sample.bodies Sample.hollow
              Sample.client None []) as (_ & _ & _ & _ & H' & _).
  destruct (getRecords_raises_short (p := Sample.engine) Sample.bodies Sample.unreachable
              Sample.client (Some (Int 5)) []) as (Htrace & _).
  split; [exact Htrace|]. split.
  - apply (H (new_TypeError "Failed to fetch")). reflexivity.
  - apply (H' null); reflexivity.
Defined.

(** C3 as stated fails: when no request reaches the host, the error
    [getRecords] raises carries the message of the diagnosis and the
    first step of the remedy, not the message alone. *)
Lemma getRecords_message_has_remedy :
  fst (Grist.getRecords (p := Sample.engine) Sample.bodies Sample.unreachable
         Sample.client None [])
  = Throw (new_Error
      ("La requête a été bloquée par la politique CORS du navigateur"
       +:+ " - "
       +:+ "✓ Configurez votre backend pour autoriser les requêtes CORS depuis ce domaine"))
  /\ ErrorHandler.message
       (ErrorHandler.analyzeError (new_TypeError "Failed to fetch") "grist_sync")
     = "La requête a été bloquée par la politique CORS du navigateur"
  /\ String.eqb
       ("La requête a été bloquée par la politique CORS du navigateur"
        +:+ " - "
        +:+ "✓ Configurez votre backend pour autoriser les requêtes CORS depuis ce domaine")
       "La requête a été bloquée par la politique CORS du navigateur"
     = false.
Proof. split; [|split]; by vm_compute. Qed.

Lemma formatErrorShort_dash (errorInfo : ErrorHandler.ErrorInfo) :
  Str.includes " - " (ErrorHandler.formatErrorShort errorInfo) = true.
Proof. apply includes_append. Qed.

Lemma engine_listing_is_data : Grist.listing_is_data (p := Sample.engine).
Proof. intros k. repeat split; by destruct k. Defined.

(** The theorem on the sample platform: with a table that has the
    column [id] the step returns and the insertion follows; and on a host
    no request reaches, the insertion of the two records fails with the
    short diagnosis of the [TypeError] of [fetch]. *)
Lemma addRecords_steps_witness :
  (exists t1 events,
     Grist.ensureColumnsExist (p := Sample.engine) Sample.bodies Sample.restricted
       Sample.client Sample.scores [] = (Ok (), t1)
     /\ Grist.addRecords (p := Sample.engine) Sample.bodies Sample.restricted
          Sample.client (Some Sample.scores) []
        = Grist.postRecords (p := Sample.engine) Sample.bodies Sample.restricted
            Sample.client Sample.scores t1
     /\ snd (Grist.postRecords (p := Sample.engine) Sample.bodies Sample.restricted
               Sample.client Sample.scores t1) = t1 ++ events)
  /\ exists caught,
       Grist.post_failure (p := Sample.engine) Sample.bodies Sample.unreachable
         Sample.client Sample.scores caught
       /\ instanceof_Error caught = true
       /\ new_Error
            ("La requête a été bloquée par la politique CORS du navigateur"
             +:+ " - "
             +:+ "✓ Configurez votre backend pour autoriser les requêtes CORS depuis ce domaine")
          = Grist.short caught
       /\ JS.message
            (new_Error
               ("La requête a été bloquée par la politique CORS du navigateur"
                +:+ " - "
                +:+ "✓ Configurez votre backend pour autoriser les requêtes CORS depuis ce domaine"))
          = Some (ErrorHandler.message (ErrorHandler.analyzeError caught "grist_sync")
                  +:+ " - "
                  +:+ ErrorHandler.first_solution
                        (ErrorHandler.analyzeError caught "grist_sync")).
Proof.
  split.
  - destruct (addRecords_steps (p := Sample.engine) Sample.bodies Sample.restricted
                Sample.client) as (_ & _ & H & _).
    destruct (H [("id", VNum (Int 1)); ("score", VNum (Int 85))]
                [[("id", VNum (Int 2)); ("score", VNum (Int 92))]] []
                ltac:(discriminate)) as (_ & _ & H').
    apply H'. exact engine_listing_is_data.
  - destruct (addRecords_steps (p := Sample.engine) Sample.bodies Sample.unreachable
                Sample.client) as (_ & _ & _ & _ & _ & H).
    apply (H [("id", VNum (Int 1)); ("score", VNum (Int 85))]
             [[("id", VNum (Int 2)); ("score", VNum (Int 92))]] [] _
             (snd (Grist.addRecords (p := Sample.engine) Sample.bodies Sample.unreachable
                     Sample.client (Some Sample.scores) []))).
    by vm_compute.
Defined.

(** C6 as stated fails on the empty list: the error raised there is the
    client's own, and its message is no diagnosis joined with a remedy
    (that always holds a dash between spaces). *)
Lemma addRecords_empty_is_not_diagnosed :
  Grist.addRecords (p := Sample.engine) ∅ Sample.unreachable Sample.client (Some []) []
  = (Throw (new_Error "Aucun enregistrement à ajouter"), [])
  /\ JS.message (new_Error "Aucun enregistrement à ajouter")
     = Some "Aucun enregistrement à ajouter"
  /\ ~ Grist.diagnosed (new_Error "Aucun enregistrement à ajouter").
Proof.
  split; [done|]. split; [done|].
  intros (caught & _ & Hmessage). simpl in Hmessage.
  pose proof (formatErrorShort_dash (ErrorHandler.analyzeError caught "grist_sync")) as Hdash.
  unfold ErrorHandler.formatErrorShort in Hdash.
  injection Hmessage as Hmessage. rewrite <- Hmessage in Hdash.
  by vm_compute in Hdash.
Qed.



(** ** More on the field mapper *)

Section MapperMore.
Import Mapping.

Context {p : Platform}.

(** An assignment removes no key, and makes its own a key unless it is
    [__proto__]. *)
Lemma assign_keeps (h : store) (key k : string) (x : value)
  (obj : list (string * value) * prototype) :
  key ∈ obj.1.*1 -> key ∈ (assign h k x obj).1.*1.
Proof.
  destruct obj as [props proto]. intros Hkey.
  destruct (assign_cases h k x props proto) as [[-> _]|(_ & _ & _ & ->)]; [|done].
  apply update_elem. by left.
Qed.

Lemma assign_makes (h : store) (k : string) (x : value)
  (obj : list (string * value) * prototype) :
  k <> "__proto__" -> k ∈ (assign h k x obj).1.*1.
Proof.
  intros Hk. rewrite assign_other by done. simpl. apply update_elem. by right.
Qed.

(** The name [__proto__] becomes a key only on an object whose prototype
    is no longer the one of object literals. *)
Lemma assign_proto_key (h : store) (k : string) (x : value)
  (obj : list (string * value) * prototype) :
  "__proto__" ∈ (assign h k x obj).1.*1 ->
  "__proto__" ∈ obj.1.*1 \/ (k = "__proto__" /\ obj.2 <> Object_prototype).
Proof.
  destruct obj as [props proto]. unfold assign.
  destruct (String.eqb k "__proto__") eqn:E; simpl.
  - apply String.eqb_eq in E as ->.
    destruct (bool_decide ("__proto__" ∈ props.*1)) eqn:Hown; simpl.
    + apply bool_decide_eq_true in Hown. by left.
    + destruct (reaches_accessor h proto) eqn:Hreach; simpl; [by left|].
      intros _. right. split; [done|]. by intros ->.
  - apply String.eqb_neq in E. rewrite update_elem. intros [?|?]; [by left | congruence].
Qed.

Lemma assign_prototype (h : store) (k : string) (x : value)
  (obj : list (string * value) * prototype) :
  (assign h k x obj).2 = obj.2 \/ k = "__proto__".
Proof.
  destruct obj as [props proto].
  destruct (assign_cases h k x props proto) as [[_ ->]|(-> & _)]; [by left | by right].
Qed.

Lemma transform_loop_key_set (apiRecord : value) (mappings : list FieldMapping) :
  forall gristRecord h out h',
    transform_loop apiRecord mappings gristRecord h = Ok (out, h') ->
    NoDup gristRecord.1.*1 ->
    NoDup out.1.*1
    /\ (forall key, key ∈ gristRecord.1.*1 -> key ∈ out.1.*1)
    /\ (forall key m, key <> "__proto__" -> m ∈ mappings -> applied m ->
          gristColumn m = key -> key ∈ out.1.*1).
Proof.
  induction mappings as [|m ms IH]; intros acc h out h' Hrun Hacc.
  - simpl in Hrun. inversion Hrun; subst. split; [done|]. split; [done|].
    intros key m _ Hm. by apply elem_of_nil in Hm.
  - rewrite transform_loop_cons in Hrun.
    destruct (Str.is_empty (gristColumn m) || Str.is_empty (apiField m)
              || bool_decide (enabled m = Some false)) eqn:Hskip.
    { destruct (IH _ _ _ _ Hrun Hacc) as (Hnodup & Hkeeps & Hmakes).
      split; [done|]. split; [done|]. intros key m' Hkey Hm' Happlied Hcol.
      apply elem_of_cons in Hm' as [->|Hm']; [|by eapply Hmakes].
      apply applied_dec in Happlied. congruence. }
    destruct (getNestedValue h apiRecord (apiField m)) as [v|e|]; simpl in Hrun; [|done..].
    destruct (match transform m with Some f => f v h | None => _ end) as [[v' h0]|e|];
      simpl in Hrun; [|done..].
    destruct (IH _ _ _ _ Hrun (assign_NoDup _ _ _ _ Hacc)) as (Hnodup & Hkeeps & Hmakes).
    split; [done|]. split.
    + intros key Hkey. by apply Hkeeps, assign_keeps.
    + intros key m' Hkey Hm' Happlied Hcol.
      apply elem_of_cons in Hm' as [->|Hm']; [|by eapply Hmakes].
      apply Hkeeps. rewrite Hcol. by apply assign_makes.
Qed.

Lemma transform_loop_proto (apiRecord : value) (mappings : list FieldMapping) :
  forall gristRecord h out h',
    transform_loop apiRecord mappings gristRecord h = Ok (out, h') ->
    (out.2 <> Object_prototype ->
     gristRecord.2 <> Object_prototype \/ names "__proto__" mappings)
    /\ ("__proto__" ∈ out.1.*1 ->
        "__proto__" ∈ gristRecord.1.*1
        \/ (gristRecord.2 <> Object_prototype /\ names "__proto__" mappings)
        \/ exists before m after,
             mappings = before ++ m :: after
             /\ applied m /\ gristColumn m = "__proto__" /\ names "__proto__" after).
Proof.
  induction mappings as [|m ms IH]; intros acc h out h' Hrun.
  - simpl in Hrun. inversion Hrun; subst. split; [by left | by left].
  - assert (Hmore : names "__proto__" ms -> names "__proto__" (m :: ms)).
    { intros (m' & ? & ? & ?). exists m'. split; [by apply elem_of_cons; right | done]. }
    assert (Hlater : (exists before m0 after,
                        ms = before ++ m0 :: after
                        /\ applied m0 /\ gristColumn m0 = "__proto__" /\ names "__proto__" after) ->
                     exists before m0 after,
                       m :: ms = before ++ m0 :: after
                       /\ applied m0 /\ gristColumn m0 = "__proto__" /\ names "__proto__" after).
    { intros (before & m0 & after & -> & ? & ? & ?). by exists (m :: before), m0, after. }
    rewrite transform_loop_cons in Hrun.
    destruct (Str.is_empty (gristColumn m) || Str.is_empty (apiField m)
              || bool_decide (enabled m = Some false)) eqn:Hskip.
    { destruct (IH _ _ _ _ Hrun) as [Hproto Hkey]. split.
      - intros Hout. destruct (Hproto Hout) as [?|?]; [by left | right; by apply Hmore].
      - intros Hout. destruct (Hkey Hout) as [?|[[? ?]|?]]; [by left | |].
        + right. left. split; [done | by apply Hmore].
        + right. right. by apply Hlater. }
    apply applied_dec in Hskip.
    destruct (getNestedValue h apiRecord (apiField m)) as [v|e|]; simpl in Hrun; [|done..].
    destruct (match transform m with Some f => f v h | None => _ end) as [[v' h0]|e|];
      simpl in Hrun; [|done..].
    assert (Hhere : gristColumn m = "__proto__" -> names "__proto__" (m :: ms)).
    { intros Hcol. exists m. split; [by apply elem_of_cons; left | done]. }
    destruct (IH _ _ _ _ Hrun) as [Hproto Hkey]. split.
    + intros Hout. destruct (Hproto Hout) as [Hacc|?]; [|right; by apply Hmore].
      destruct (assign_prototype h0 (gristColumn m) v' acc) as [Heq|Hcol].
      * left. by rewrite <- Heq.
      * right. by apply Hhere.
    + intros Hout. destruct (Hkey Hout) as [Hacc|[[Hacc Hms]|?]].
      * apply assign_proto_key in Hacc as [?|[Hcol Hacc]]; [by left|].
        right. left. split; [done | by apply Hhere].
      * destruct (assign_prototype h0 (gristColumn m) v' acc) as [Heq|Hcol].
        -- right. left. split; [by rewrite <- Heq | by apply Hmore].
        -- right. right. by exists [], m, ms.
      * right. right. by apply Hlater.
Qed.

(** X1: the keys of a transformed record are distinct; each is the
    column of a mapping applied; and the column of every mapping applied
    is a key, the name [__proto__] apart: that one is a key only when two
    mappings applied name it (the first can take the prototype of the
    record away, and the second then makes a property). *)
Theorem transformRecord_keys :
  forall (apiRecord : value) (mappings : list FieldMapping) (h h' : store)
         (gristRecord : list (string * value)),
    transformRecord apiRecord mappings h = Ok (gristRecord, h') ->
    NoDup gristRecord.*1
    /\ (forall key, key ∈ gristRecord.*1 ->
          exists m, m ∈ mappings /\ applied m /\ gristColumn m = key)
    /\ (forall key, key <> "__proto__" ->
          (exists m, m ∈ mappings /\ applied m /\ gristColumn m = key) ->
          key ∈ gristRecord.*1)
    /\ ("__proto__" ∈ gristRecord.*1 ->
        exists before m after,
          mappings = before ++ m :: after
          /\ applied m /\ gristColumn m = "__proto__"
          /\ exists m', m' ∈ after /\ applied m' /\ gristColumn m' = "__proto__").
Proof.
  intros apiRecord mappings h h' out Hrun.
  apply transformRecord_loop in Hrun as [proto Hrun].
  destruct (transform_loop_key_set _ _ _ _ _ _ Hrun (NoDup_nil_2))
    as (Hnodup & _ & Hmakes).
  split; [done|]. split; [|split].
  - intros key Hkey.
    destruct (transform_loop_keys _ _ _ _ _ _ Hrun key Hkey) as [Hin|?]; [|done].
    simpl in Hin. by apply elem_of_nil in Hin.
  - intros key Hkey (m & Hm & Happlied & Hcol). by eapply Hmakes.
  - intros Hkey. destruct (transform_loop_proto _ _ _ _ _ _ Hrun) as [_ Hproto].
    destruct (Hproto Hkey) as [Hin|[[Hne _]|Hlater]]; [|done|exact Hlater].
    simpl in Hin. by apply elem_of_nil in Hin.
Qed.


Lemma transform_loop_app (apiRecord : value) (before after : list FieldMapping) :
  forall gristRecord h,
    transform_loop apiRecord (before ++ after) gristRecord h
    = bind (transform_loop apiRecord before gristRecord h)
           (fun '(acc, h1) => transform_loop apiRecord after acc h1).
Proof.
  induction before as [|m ms IH]; intros acc h; simpl; [done|].
  destruct (Str.is_empty (gristColumn m) || Str.is_empty (apiField m)); [apply IH|].
  destruct (bool_decide (enabled m = Some false)); [apply IH|].
  destruct (getNestedValue h apiRecord (apiField m)) as [v|e|]; simpl; [|done..].
  destruct (match transform m with Some f => f v h | None => _ end) as [[v' h0]|e|];
    simpl; [apply IH | done..].
Qed.





Lemma transform_loop_none_applied (apiRecord : value) (mappings : list FieldMapping) :
  (forall m, m ∈ mappings -> ~ applied m) ->
  forall gristRecord h,
    transform_loop apiRecord mappings gristRecord h = Ok (gristRecord, h).
Proof.
  induction mappings as [|m ms IH]; intros Hnone acc h; [done|].
  assert (Hrest : forall m', m' ∈ ms -> ~ applied m').
  { intros m' Hm'. apply Hnone. by apply elem_of_cons; right. }
  rewrite transform_loop_cons.
  destruct (Str.is_empty (gristColumn m) || Str.is_empty (apiField m)
            || bool_decide (enabled m = Some false)) eqn:Hskip; [by apply IH|].
  destruct (Hnone m); [by apply elem_of_cons; left | by apply applied_dec].
Qed.

Lemma transform_each_length (records : list value) (mappings : list FieldMapping) :
  forall h out h',
    transform_each records mappings h = Ok (out, h') -> length out = length records.
Proof.
  induction records as [|r rs IH]; intros h out h' Hrun; simpl in Hrun.
  - by inversion Hrun.
  - destruct (transformRecord r mappings h) as [[o h1]|e|]; simpl in Hrun; [|done..].
    destruct (transform_each rs mappings h1) as [[os h2]|e|] eqn:Hrest; simpl in Hrun;
      [|done..].
    inversion Hrun; subst. simpl. f_equal. by eapply IH.
Qed.

(** X3: [transformRecords] gives one record per element of the array,
    in a run that returns, and no record at all for an input that is not
    an array. *)
Theorem transformRecords_length :
  forall (apiRecords : value) (mappings : list FieldMapping) (h h' : store)
         (out : list (list (string * value))),
    transformRecords apiRecords mappings h = Ok (out, h') ->
    length out = length (default [] (ApiSource.elements h apiRecords)).
Proof.
  intros apiRecords mappings h h' out. unfold transformRecords, ApiSource.elements.
  destruct apiRecords as [| | | | | |l]; try (by intros [= <- _]).
  destruct (h !! l) as [[props|records]|]; try (by intros [= <- _]).
  apply transform_each_length.
Qed.

(** X4: filtering the mappings with [getValidMappings] before
    [transformRecords], as the synchronisation does, changes nothing of
    its outcome. *)
Theorem transformRecords_getValidMappings :
  forall (apiRecords : value) (mappings : list FieldMapping) (h : store),
    transformRecords apiRecords (getValidMappings mappings) h
    = transformRecords apiRecords mappings h.
Proof.
  intros apiRecords mappings h. unfold transformRecords.
  destruct apiRecords as [| | | | | |l]; try done.
  destruct (h !! l) as [[props|records]|]; try done.
  revert h. clear l. induction records as [|r rs IH]; intros h; simpl; [done|].
  assert (transformRecord r (getValidMappings mappings) h = transformRecord r mappings h)
    as -> by (unfold transformRecord; by rewrite transform_loop_valid).
  destruct (transformRecord r mappings h) as [[o h1]|e|]; simpl; [|done..].
  by rewrite IH.
Qed.

(** X5: when no mapping of the list is applied (each lacks a side or is
    disabled), [transformRecords] still gives one record per element, and
    each is empty. *)
Theorem transformRecords_nothing_applied :
  forall (apiRecords : value) (mappings : list FieldMapping) (h : store),
    (forall m, m ∈ mappings -> ~ applied m) ->
    transformRecords apiRecords mappings h
    = Ok (replicate (length (default [] (ApiSource.elements h apiRecords))) [], h).
Proof.
  intros apiRecords mappings h Hnone. unfold transformRecords, ApiSource.elements.
  destruct apiRecords as [| | | | | |l]; try done.
  destruct (h !! l) as [[props|records]|]; try done. simpl.
  induction records as [|r rs IH]; simpl; [done|].
  unfold transformRecord. rewrite (transform_loop_none_applied _ _ Hnone). simpl.
  by rewrite IH.
Qed.

(** X6: what [serializeValue] returns is a scalar, never an object, an
    array or a date, and serializing it again gives it back. *)
Theorem serializeValue_scalar :
  forall (h : store) (v w : value),
    serializeValue h v = Ok w ->
    typeof_object w && negb (nullish w) = false
    /\ serializeValue h w = Ok w.
Proof.
  intros h v w. destruct v as [| | b | n | s | d | l]; simpl;
    try (by intros [= <-]).
  - destruct (toISOString d); [by intros [= <-] | done].
  - destruct (h !! l) as [[props|items]|].
    + destruct (JSON_stringify h (VRef l)) as [[text|]|e|]; simpl; by intros [= <-].
    + destruct (length items =? 0)%nat; [by intros [= <-]|].
      destruct (serialize_items h items) as [texts|e|]; simpl; by intros [= <-].
    + destruct (JSON_stringify h (VRef l)) as [[text|]|e|]; simpl; by intros [= <-].
Qed.

End MapperMore.

Lemma transformRecord_keys_witness :
  NoDup [("Name", VStr "Alice")].*1
  /\ (forall key, key ∈ [("Name", VStr "Alice")].*1 ->
        exists m, m ∈ Sample.two_mappings /\ Mapping.applied m /\ Mapping.gristColumn m = key)
  /\ "Name" ∈ [("Name", VStr "Alice")].*1
  /\ Mapping.transformRecord (p := Sample.engine) (VRef 1) (drop 1 Sample.twice_proto)
       Sample.nothing_then_one
     = Ok ([], Sample.nothing_then_one)
  /\ Mapping.transformRecord (p := Sample.engine) (VRef 1) Sample.twice_proto
       Sample.nothing_then_one
     = Ok ([("__proto__", VNum (Int 1))], Sample.nothing_then_one)
  /\ exists before m after,
       Sample.twice_proto = before ++ m :: after
       /\ Mapping.applied m /\ Mapping.gristColumn m = "__proto__"
       /\ exists m', m' ∈ after /\ Mapping.applied m' /\ Mapping.gristColumn m' = "__proto__".
Proof.
  destruct (transformRecord_keys (p := Sample.engine) (VRef 1) Sample.two_mappings
              Sample.alice Sample.alice [("Name", VStr "Alice")] eq_refl)
    as (Hnodup & Hkeys & Hmakes & _).
  destruct (transformRecord_keys (p := Sample.engine) (VRef 1) Sample.twice_proto
              Sample.nothing_then_one Sample.nothing_then_one
              [("__proto__", VNum (Int 1))] eq_refl)
    as (_ & _ & _ & Hproto).
  split; [done|]. split; [done|]. split; [|split; [reflexivity|split; [reflexivity|]]].
  - apply Hmakes; [discriminate|].
    eexists. split; [by apply elem_of_cons; left|]. split; [|reflexivity].
    split; [reflexivity | discriminate].
  - apply Hproto. by apply elem_of_cons; left.
Defined.


Lemma transformRecords_length_witness :
  length [[("Name", VStr "Alice")]; [("Name", VStr "Bob")]]
  = length (default [] (ApiSource.elements Sample.people (VRef 1))).
Proof.
  apply (transformRecords_length (p := Sample.engine) (VRef 1) Sample.by_name
           Sample.people Sample.people).
  reflexivity.
Defined.

Lemma transformRecords_nothing_applied_witness :
  Mapping.transformRecords (p := Sample.engine) (VRef 1) [Sample.hidden_name] Sample.people
  = Ok ([[]; []], Sample.people).
Proof.
  apply (transformRecords_nothing_applied (p := Sample.engine) (VRef 1)
           [Sample.hidden_name] Sample.people).
  intros m Hm [_ Hen]. apply list_elem_of_singleton in Hm as ->. by destruct Hen.
Defined.

Lemma serializeValue_scalar_witness :
  typeof_object (VStr "1;2;3") && negb (nullish (VStr "1;2;3")) = false
  /\ Mapping.serializeValue (p := Sample.engine) Sample.documented (VStr "1;2;3")
     = Ok (VStr "1;2;3").
Proof.
  apply (serializeValue_scalar (p := Sample.engine) Sample.documented (VRef 3)).
  reflexivity.
Defined.

(** ** Paths and generated mappings *)

Section PathsMore.
Import Mapping.

Context {p : Platform}.

Lemma split_nonempty (sep : ascii) (s : string) : Str.split sep s <> [].
Proof.
  destruct s as [|c s]; simpl; [done|].
  destruct (Ascii.eqb c sep); [done|]. by destruct (Str.split sep s).
Qed.

Lemma split_append (sep : ascii) (a b : string) :
  Str.split sep (a +:+ String sep b) = Str.split sep a ++ Str.split sep b.
Proof.
  induction a as [|c a IH].
  - change (EmptyString +:+ String sep b) with (String sep b). simpl.
    by rewrite Ascii.eqb_refl.
  - change (String c a +:+ String sep b) with (String c (a +:+ String sep b)).
    simpl. rewrite IH. destruct (Ascii.eqb c sep); [done|].
    pose proof (split_nonempty sep a) as Hne.
    by destruct (Str.split sep a).
Qed.

Lemma includes_dot (c : ascii) (s : string) :
  Str.includes "." (String c s) = Ascii.eqb c "." || Str.includes "." s.
Proof.
  cbn [Str.includes String.prefix]. destruct (ascii_dec "." c) as [<-|Hne].
  - by destruct s.
  - apply Ascii.eqb_neq in Hne. rewrite Ascii.eqb_sym in Hne. by rewrite Hne.
Qed.

Lemma split_plain (key : string) :
  Str.includes "." key = false -> Str.split "." key = [key].
Proof.
  induction key as [|c key IH]; [done|].
  rewrite includes_dot. intros Hdot. apply orb_false_iff in Hdot as [Hc Hrest].
  simpl. by rewrite Hc, (IH Hrest).
Qed.

Lemma assoc_NoDup {A} (key : string) (x : A) (props : list (string * A)) :
  NoDup props.*1 -> (key, x) ∈ props -> assoc key props = Some x.
Proof.
  induction props as [|[k y] props IH]; intros Hnodup Hin.
  - by apply elem_of_nil in Hin.
  - rewrite fmap_cons in Hnodup. apply NoDup_cons in Hnodup as [Hk Hnodup]. simpl.
    apply elem_of_cons in Hin as [[= <- <-]|Hin]; [by rewrite String.eqb_refl|].
    destruct (String.eqb k key) eqn:E; [|by apply IH].
    apply String.eqb_eq in E as ->. destruct Hk.
    apply list_elem_of_fmap. by exists (key, x).
Qed.

Lemma resolves_app (h : store) (before after : list string) :
  forall v y x, resolves h v before y -> resolves h y after x ->
    resolves h v (before ++ after) x.
Proof.
  induction before as [|key rest IH]; intros v y x; simpl.
  - by intros ->.
  - intros (z & Hz & Hrest) Hafter. exists z. split; [done|]. by eapply IH.
Qed.

(** A path of the loop is the one of a property, or one found below
    it. *)
Lemma extract_loop_elem (h : store) (obj : value) (prefix : string)
  (below : value -> string -> result (list string)) (props : list (string * value)) :
  forall paths path,
    extract_loop h obj prefix below props = Ok paths -> path ∈ paths ->
    exists key x,
      (key, x) ∈ props
      /\ (path = (if Str.is_empty prefix then key else prefix +:+ "." +:+ key)
          \/ exists nested,
               below x (if Str.is_empty prefix then key else prefix +:+ "." +:+ key)
               = Ok nested
               /\ path ∈ nested).
Proof.
  induction props as [|[key x] props IH]; intros paths path Hrun Hpath.
  - injection Hrun as <-. by apply elem_of_nil in Hpath.
  - cbn [extract_loop] in Hrun.
    destruct (hasOwnProperty h obj) as [[]|e|]; simpl in Hrun; [|done..].
    destruct (if typeof_object x && negb (nullish x) && negb (Array_isArray h x)
              then below x _ else Ok []) as [nested|e|] eqn:Hnested;
      simpl in Hrun; [|done..].
    destruct (extract_loop h obj prefix below props) as [others|e|]; simpl in Hrun;
      [|done..].
    injection Hrun as <-.
    apply elem_of_cons in Hpath as [->|Hpath].
    { exists key, x. split; [by apply elem_of_cons; left | by left]. }
    apply elem_of_app in Hpath as [Hpath|Hpath].
    + exists key, x. split; [by apply elem_of_cons; left|]. right.
      destruct (typeof_object x && negb (nullish x) && negb (Array_isArray h x)).
      * by exists nested.
      * injection Hnested as <-. by apply elem_of_nil in Hpath.
    + destruct (IH others path eq_refl Hpath) as (key' & x' & Hin & Hcase).
      exists key', x'. split; [by apply elem_of_cons; right | done].
Qed.

Lemma extractAllKeys_resolve (h : store) (depth : nat) :
  forall v prefix before,
    (prefix = EmptyString /\ before = [])
    \/ (Str.is_empty prefix = false /\ Str.split "." prefix = before) ->
    plain h depth v ->
    forall paths path,
      extractAllKeys h v prefix depth = Ok paths -> path ∈ paths ->
      exists after x,
        Str.split "." path = before ++ after
        /\ after <> []
        /\ resolves h v after x
        /\ Str.is_empty path = false.
Proof.
  induction depth as [|depth IH]; intros v prefix before Hprefix Hplain paths path Hrun Hpath.
  - injection Hrun as <-. by apply elem_of_nil in Hpath.
  - cbn [extractAllKeys] in Hrun.
    destruct (negb (truthy v) || negb (typeof_object v));
      [injection Hrun as <-; by apply elem_of_nil in Hpath|].
    destruct Hplain as [Hnodup Hplain].
    destruct (extract_loop_elem _ _ _ _ _ _ _ Hrun Hpath) as (key & x0 & Hin & Hcase).
    destruct (Hplain key x0 Hin) as [Hkey Hbelow].
    apply andb_true_iff in Hkey as [Hfull Hdot].
    apply negb_true_iff in Hfull, Hdot.
    set (here := if Str.is_empty prefix then key else prefix +:+ "." +:+ key) in *.
    assert (Hhere : Str.split "." here = before ++ [key] /\ Str.is_empty here = false).
    { unfold here. destruct Hprefix as [[-> ->]|[Hfill <-]].
      - simpl. by rewrite split_plain.
      - rewrite Hfill. split.
        + change (prefix +:+ "." +:+ key) with (prefix +:+ String "." key).
          by rewrite split_append, (split_plain key).
        + by destruct prefix. }
    destruct Hhere as [Hsplit Hfill].
    assert (Hown : assoc key (own_properties h v) = Some x0) by (by apply assoc_NoDup).
    destruct Hcase as [->|(nested & Hnested & Hpath')].
    + exists [key], x0. split; [done|]. split; [done|]. split; [|done].
      simpl. by exists x0.
    + destruct (IH x0 here (before ++ [key]) ltac:(by right) Hbelow nested path
                  Hnested Hpath')
        as (after & x & Hsplit' & Hne & Hres & Hfill').
      exists (key :: after), x. split; [by rewrite Hsplit', <- app_assoc|].
      split; [done|]. split; [|done]. simpl. by exists x0.
Qed.

(** X7: on a record whose keys are plain (not empty, without a dot, none
    twice in an object), every path [extractAllKeys] lists names a chain
    of own properties of the record, and [getNestedValue] on that path
    gives the value at its end. *)
Theorem extractAllKeys_getNestedValue :
  forall (h : store) (obj : value) (maxDepth : nat) (paths : list string) (path : string),
    plain h maxDepth obj ->
    extractAllKeys h obj EmptyString maxDepth = Ok paths ->
    path ∈ paths ->
    exists x, resolves h obj (Str.split "." path) x
              /\ getNestedValue h obj path = Ok x.
Proof.
  intros h obj maxDepth paths path Hplain Hrun Hpath.
  destruct (extractAllKeys_resolve h maxDepth obj EmptyString [] ltac:(by left)
              Hplain paths path Hrun Hpath) as (after & x & Hsplit & _ & Hres & Hfill).
  simpl in Hsplit. rewrite <- Hsplit in Hres.
  exists x. split; [done|].
  assert (truthy obj = true) as Hobj.
  { destruct maxDepth as [|d]; [injection Hrun as <-; by apply elem_of_nil in Hpath|].
    cbn [extractAllKeys] in Hrun. destruct (truthy obj); [done|].
    injection Hrun as <-. by apply elem_of_nil in Hpath. }
  unfold getNestedValue. rewrite Hfill, Hobj. simpl.
  by apply walk_reached, resolves_reached.
Qed.

(** The loop finds no more with a recursive call that finds no more. *)
Lemma extract_loop_deeper (h : store) (obj : value) (prefix : string)
  (below below' : value -> string -> result (list string))
  (props : list (string * value)) :
  (forall v path deeper,
     below' v path = Ok deeper ->
     exists paths, below v path = Ok paths /\ sublist paths deeper) ->
  forall deeper,
    extract_loop h obj prefix below' props = Ok deeper ->
    exists paths, extract_loop h obj prefix below props = Ok paths /\ sublist paths deeper.
Proof.
  intros Hbelow. induction props as [|[key x] props IH]; intros deeper Hrun.
  - injection Hrun as <-. by exists [].
  - cbn [extract_loop] in *.
    destruct (hasOwnProperty h obj) as [[]|e|]; simpl in *; [|done..].
    destruct (typeof_object x && negb (nullish x) && negb (Array_isArray h x)).
    + destruct (below' x _) as [nested'|e|] eqn:Hnested'; simpl in Hrun; [|done..].
      destruct (extract_loop h obj prefix below' props) as [others'|e|]; simpl in Hrun;
        [|done..].
      injection Hrun as <-.
      destruct (Hbelow _ _ _ Hnested') as (nested & -> & Hsub).
      destruct (IH _ eq_refl) as (others & -> & Hsub'). simpl.
      eexists. split; [done|]. apply sublist_skip. by apply sublist_app.
    + simpl in *.
      destruct (extract_loop h obj prefix below' props) as [others'|e|]; simpl in Hrun;
        [|done..].
      injection Hrun as <-.
      destruct (IH _ eq_refl) as (others & -> & Hsub'). simpl.
      eexists. split; [done|]. by apply sublist_skip.
Qed.

Lemma hasOwnProperty_data (h : store) (obj : value) : hasOwnProperty h obj <> Beyond.
Proof. unfold hasOwnProperty. by destruct (get h obj "hasOwnProperty"). Qed.

Lemma extract_loop_data (h : store) (obj : value) (prefix : string)
  (below : value -> string -> result (list string)) (props : list (string * value)) :
  (forall v path, below v path <> Beyond) ->
  extract_loop h obj prefix below props <> Beyond.
Proof.
  intros Hbelow. induction props as [|[key x] props IH]; [done|].
  cbn [extract_loop]. pose proof (hasOwnProperty_data h obj) as Hcall.
  destruct (hasOwnProperty h obj) as [[]|e|]; simpl; [|done..].
  destruct (typeof_object x && negb (nullish x) && negb (Array_isArray h x)).
  - pose proof (Hbelow x (if Str.is_empty prefix then key else prefix +:+ "." +:+ key))
      as Hx.
    destruct (below x _) as [nested|e|]; simpl; [|done..].
    by destruct (extract_loop h obj prefix below props).
  - simpl. by destruct (extract_loop h obj prefix below props).
Qed.

(** [extractAllKeys] returns or raises: it reads the data only. *)
Lemma extractAllKeys_data (h : store) (maxDepth : nat) :
  forall obj prefix, extractAllKeys h obj prefix maxDepth <> Beyond.
Proof.
  induction maxDepth as [|depth IH]; intros obj prefix; [done|].
  cbn [extractAllKeys].
  destruct (negb (truthy obj) || negb (typeof_object obj)); [done|].
  apply extract_loop_data. intros v path. apply IH.
Qed.

(** X8: a greater [maxDepth] loses no path: when [extractAllKeys]
    returns with a depth, it returns with the one before, and the paths
    found with that one are found, in the same order, with the greater;
    and when it raises with a depth, it raises with the next one. *)
Theorem extractAllKeys_deeper :
  forall (h : store) (maxDepth : nat) (obj : value) (prefix : string),
    (forall deeper,
       extractAllKeys h obj prefix (S maxDepth) = Ok deeper ->
       exists paths,
         extractAllKeys h obj prefix maxDepth = Ok paths /\ sublist paths deeper)
    /\ (forall e,
          extractAllKeys h obj prefix maxDepth = Throw e ->
          exists e', extractAllKeys h obj prefix (S maxDepth) = Throw e').
Proof.
  intros h maxDepth.
  assert (Hdeeper : forall obj prefix deeper,
            extractAllKeys h obj prefix (S maxDepth) = Ok deeper ->
            exists paths,
              extractAllKeys h obj prefix maxDepth = Ok paths /\ sublist paths deeper).
  { induction maxDepth as [|d IH]; intros obj prefix deeper Hrun.
    - exists []. split; [done | apply sublist_nil_l].
    - cbn [extractAllKeys] in *.
      destruct (negb (truthy obj) || negb (typeof_object obj)); [by exists deeper|].
      eapply extract_loop_deeper; [|exact Hrun].
      intros v path deeper' Hbelow. by apply IH. }
  intros obj prefix. split; [apply Hdeeper|].
  intros e Hrun. pose proof (extractAllKeys_data h (S maxDepth) obj prefix) as Hdata.
  destruct (extractAllKeys h obj prefix (S maxDepth)) as [deeper|e'|] eqn:Hrun';
    [|by exists e'|done].
  destruct (Hdeeper _ _ _ Hrun') as (paths & Hpaths & _). congruence.
Qed.

Lemma replace_dots_free (s : string) :
  Str.includes "." (Str.replace_all "." "_" s) = false.
Proof.
  induction s as [|c s IH]; [done|].
  cbn [Str.replace_all]. rewrite includes_dot, IH.
  by destruct (Ascii.eqb c ".") eqn:E; [|rewrite E].
Qed.

Lemma generateMappings_elem (h : store) (sampleData : value) (defaultEnabled : bool)
  (mappings : list FieldMapping) (m : FieldMapping) :
  generateMappingsFromApiData h sampleData defaultEnabled = Ok mappings ->
  m ∈ mappings ->
  m = {| apiField := apiField m; gristColumn := derive_column (apiField m);
         enabled := Some defaultEnabled; transform := None |}.
Proof.
  unfold generateMappingsFromApiData.
  destruct (negb (truthy sampleData) || negb (typeof_object sampleData)).
  - intros [= <-] Hm. by apply elem_of_nil in Hm.
  - destruct (extractAllKeys h sampleData EmptyString 5) as [paths|e|]; simpl; [|done..].
    intros [= <-] Hm. by apply list_elem_of_fmap in Hm as (path & -> & _).
Qed.

(** X9: no column [generateMappingsFromApiData] proposes holds a dot. *)
Theorem generateMappings_columns_without_dot :
  forall (h : store) (sampleData : value) (defaultEnabled : bool)
         (mappings : list FieldMapping) (m : FieldMapping),
    generateMappingsFromApiData h sampleData defaultEnabled = Ok mappings ->
    m ∈ mappings ->
    Str.includes "." (gristColumn m) = false.
Proof.
  intros h sampleData defaultEnabled mappings m Hrun Hm.
  rewrite (generateMappings_elem _ _ _ _ _ Hrun Hm). simpl.
  unfold derive_column, criticalColumns. cbn [assoc].
  destruct (String.eqb "id" (apiField m)); [done|].
  destruct (String.eqb "createdAt" (apiField m)); [done|].
  destruct (String.eqb "updatedAt" (apiField m)); [done|].
  apply replace_dots_free.
Qed.

(** X10: mappings generated with [defaultEnabled] false write nothing:
    the record transformed with them is empty, until one is enabled. *)
Theorem generateMappings_disabled_write_nothing :
  forall (h h' : store) (sampleData apiRecord : value) (mappings : list FieldMapping),
    generateMappingsFromApiData h sampleData false = Ok mappings ->
    transformRecord apiRecord mappings h' = Ok ([], h').
Proof.
  intros h h' sampleData apiRecord mappings Hrun. unfold transformRecord.
  rewrite transform_loop_none_applied; [done|].
  intros m Hm [_ Hen]. apply Hen.
  by rewrite (generateMappings_elem _ _ _ _ _ Hrun Hm).
Qed.

End PathsMore.

Lemma account_plain : Mapping.plain Sample.account 5 (VRef 1).
Proof.
  split; [apply (bool_decide_unpack _); by vm_compute|].
  intros key x Hin. vm_compute in Hin.
  apply list_elem_of_singleton in Hin as [= -> ->]. split; [reflexivity|].
  split; [apply (bool_decide_unpack _); by vm_compute|].
  intros key x Hin. vm_compute in Hin.
  apply elem_of_cons in Hin as [[= -> ->]|Hin];
    [|apply list_elem_of_singleton in Hin as [= -> ->]].
  - split; [reflexivity|]. split; [apply (bool_decide_unpack _); by vm_compute|].
    intros key x Hin. by apply elem_of_nil in Hin.
  - split; [reflexivity|]. split; [apply (bool_decide_unpack _); by vm_compute|].
    intros key x Hin. by apply elem_of_nil in Hin.
Defined.

Lemma extractAllKeys_getNestedValue_witness :
  exists x, Mapping.resolves Sample.account (VRef 1) (Str.split "." "user.email") x
            /\ Mapping.getNestedValue (p := Sample.engine) Sample.account (VRef 1)
                 "user.email" = Ok x.
Proof.
  apply (extractAllKeys_getNestedValue (p := Sample.engine) Sample.account (VRef 1) 5
           ["user"; "user.name"; "user.email"] "user.email" account_plain eq_refl).
  apply (bool_decide_unpack _). by vm_compute.
Defined.

(** The theorem at [{ a: { hasOwnProperty: 1 } }], where the greater
    depth raises. *)
Lemma extractAllKeys_deeper_witness :
  Mapping.extractAllKeys (p := Sample.engine) Sample.shadowed (VRef 2) EmptyString 1
  = Ok ["a"]
  /\ Mapping.extractAllKeys (p := Sample.engine) Sample.shadowed (VRef 2) EmptyString 2
     = Throw (new_TypeError "obj.hasOwnProperty is not a function")
  /\ exists paths,
       Mapping.extractAllKeys (p := Sample.engine) Sample.account (VRef 1) EmptyString 1
       = Ok paths
       /\ sublist paths ["user"; "user.name"; "user.email"].
Proof.
  split; [reflexivity|]. split; [reflexivity|].
  destruct (extractAllKeys_deeper (p := Sample.engine) Sample.account 1 (VRef 1)
              EmptyString) as [H _].
  apply H. reflexivity.
Defined.

Lemma generateMappings_columns_without_dot_witness :
  Str.includes "." "user_id" = false.
Proof.
  apply (generateMappings_columns_without_dot (p := Sample.engine) Sample.nested_id
           (VRef 1) true
           [ {| Mapping.apiField := "user"; Mapping.gristColumn := "user";
                Mapping.enabled := Some true; Mapping.transform := None |};
             {| Mapping.apiField := "user.id"; Mapping.gristColumn := "user_id";
                Mapping.enabled := Some true; Mapping.transform := None |} ]
           {| Mapping.apiField := "user.id"; Mapping.gristColumn := "user_id";
              Mapping.enabled := Some true; Mapping.transform := None |} eq_refl).
  apply elem_of_cons. right. apply elem_of_cons. by left.
Defined.

Lemma generateMappings_disabled_write_nothing_witness :
  Mapping.transformRecord (p := Sample.engine) (VRef 1)
    [ {| Mapping.apiField := "user"; Mapping.gristColumn := "user";
         Mapping.enabled := Some false; Mapping.transform := None |};
      {| Mapping.apiField := "user.id"; Mapping.gristColumn := "user_id";
         Mapping.enabled := Some false; Mapping.transform := None |} ]
    Sample.nested_id
  = Ok ([], Sample.nested_id).
Proof.
  apply (generateMappings_disabled_write_nothing (p := Sample.engine) Sample.nested_id
           Sample.nested_id (VRef 1) (VRef 1)).
  reflexivity.
Defined.

(** ** The table of mappings *)

Section Table.

Context {p : Platform}.
Import Mapping MappingTable.

Lemma filter_index_all {A} (l : list A) :
  forall k t, (t < k)%nat ->
    (filter (fun im : nat * A => im.1 <> t) (imap (fun j m => ((k + j)%nat, m)) l)).*2 = l.
Proof.
  induction l as [|x l IH]; intros k t Hlt; [done|].
  cbn [imap]. rewrite filter_cons. cbn [fst].
  destruct (decide ((k + 0)%nat <> t)) as [_|Heq]; [|exfalso; apply Heq; lia].
  rewrite fmap_cons. cbn [snd]. f_equal.
  rewrite <- (IH (S k) t ltac:(lia)) at 2. f_equal. f_equal.
  apply imap_ext. intros j m _. simpl. f_equal. lia.
Qed.

Lemma filter_index_one {A} (l : list A) :
  forall k i,
    (filter (fun im : nat * A => im.1 <> (k + i)%nat)
            (imap (fun j m => ((k + j)%nat, m)) l)).*2
    = take i l ++ drop (S i) l.
Proof.
  induction l as [|x l IH]; intros k i; [by destruct i|].
  cbn [imap]. rewrite filter_cons. cbn [fst].
  assert (Hshift : imap ((fun j m => ((k + j)%nat, m)) ∘ S) l
                   = imap (fun j m => ((S k + j)%nat, m)) l).
  { apply imap_ext. intros j m _. simpl. f_equal. lia. }
  rewrite Hshift. destruct i as [|i].
  - destruct (decide ((k + 0)%nat <> (k + 0)%nat)) as [Hne|_]; [done|].
    change (take 0 (x :: l) ++ drop 1 (x :: l)) with l.
    apply filter_index_all. lia.
  - destruct (decide ((k + 0)%nat <> (k + S i)%nat)) as [_|Heq]; [|exfalso; apply Heq; lia].
    rewrite fmap_cons.
    change (take (S i) (x :: l) ++ drop (S (S i)) (x :: l))
      with (x :: (take i l ++ drop (S i) l)).
    cbn [snd]. f_equal.
    replace (k + S i)%nat with (S k + i)%nat by lia. apply IH.
Qed.

(** X11: [removeMapping] takes out the row at the index and nothing
    else; an index past the end leaves the list as it is. *)
Theorem removeMapping_at :
  forall (mappings : list FieldMapping) (index : nat),
    removeMapping mappings index = take index mappings ++ drop (S index) mappings
    /\ (length mappings <= index -> removeMapping mappings index = mappings)%nat.
Proof.
  intros mappings index.
  assert (Heq : removeMapping mappings index
                = take index mappings ++ drop (S index) mappings).
  { unfold removeMapping. apply (filter_index_one mappings 0 index). }
  split; [done|]. intros Hlen. rewrite Heq.
  rewrite take_ge, drop_ge by lia. apply app_nil_r.
Qed.

Lemma removeMapping_at_witness :
  removeMapping [Sample.first_name; Sample.second_name] 5
  = [Sample.first_name; Sample.second_name].
Proof.
  destruct (removeMapping_at [Sample.first_name; Sample.second_name] 5) as [_ H].
  apply H. simpl. lia.
Defined.

(** X12: [updateMapping] emits nothing for an index past the end;
    otherwise the list emitted has the same length, the row at the index
    edited, and every other row as it was. *)
Theorem updateMapping_row :
  forall (mappings : list FieldMapping) (index : nat) (e : edit),
    (updateMapping mappings index e = None <-> (length mappings <= index)%nat)
    /\ forall updated,
         updateMapping mappings index e = Some updated ->
         length updated = length mappings
         /\ (exists currentMapping,
               mappings !! index = Some currentMapping
               /\ updated !! index = Some (edited currentMapping e))
         /\ forall other, other <> index -> updated !! other = mappings !! other.
Proof.
  intros mappings index e. unfold updateMapping. split.
  - destruct (mappings !! index) as [cur|] eqn:Hrow.
    + apply lookup_lt_Some in Hrow. split; [done | lia].
    + apply lookup_ge_None in Hrow. done.
  - intros updated. destruct (mappings !! index) as [cur|] eqn:Hrow; [|done].
    intros [= <-]. split; [apply length_insert|]. split.
    + exists cur. split; [done|]. apply list_lookup_insert_eq.
      by apply lookup_lt_Some in Hrow.
    + intros other Hother. by apply list_lookup_insert_ne.
Qed.

Lemma updateMapping_row_witness :
  length [Sample.first_name; with_enabled false Sample.second_name] = 2%nat.
Proof.
  destruct (updateMapping_row [Sample.first_name; Sample.second_name] 1 (set_enabled false))
    as [_ H].
  destruct (H [Sample.first_name; with_enabled false Sample.second_name] eq_refl)
    as [Hlen _].
  exact Hlen.
Defined.

(** X13: the blank row [addMapping] appends is not a valid mapping: the
    valid mappings, and what [transformRecord] does, are those of the
    list before. *)
Theorem addMapping_neutral :
  forall (mappings : list FieldMapping) (apiRecord : value) (h : store),
    length (addMapping mappings) = S (length mappings)
    /\ getValidMappings (addMapping mappings) = getValidMappings mappings
    /\ transformRecord apiRecord (addMapping mappings) h
       = transformRecord apiRecord mappings h.
Proof.
  intros mappings apiRecord h. unfold addMapping. split; [|split].
  - rewrite length_app. simpl. lia.
  - unfold getValidMappings. rewrite filter_app. simpl. apply app_nil_r.
  - unfold transformRecord. rewrite transform_loop_app.
    by destruct (transform_loop apiRecord mappings ([], Object_prototype) h)
      as [[acc h1]|e|].
Qed.

(** X14: after [selectAll] every row counts as enabled; after
    [deselectAll] none does, and [transformRecord] writes nothing.  Both
    keep the columns and the paths of the rows. *)
Theorem selectAll_deselectAll :
  forall (mappings : list FieldMapping) (apiRecord : value) (h : store),
    enabledCount (selectAll mappings) = length mappings
    /\ enabledCount (deselectAll mappings) = 0%nat
    /\ transformRecord apiRecord (deselectAll mappings) h = Ok ([], h)
    /\ (fun m => (gristColumn m, apiField m)) <$> selectAll mappings
       = (fun m => (gristColumn m, apiField m)) <$> mappings
    /\ (fun m => (gristColumn m, apiField m)) <$> deselectAll mappings
       = (fun m => (gristColumn m, apiField m)) <$> mappings.
Proof.
  intros mappings apiRecord h. unfold enabledCount, selectAll, deselectAll.
  split; [|split; [|split; [|split]]].
  - induction mappings as [|m ms IH]; [done|].
    rewrite fmap_cons, filter_cons. simpl.
    destruct (decide (Some true <> Some false)) as [_|Hne]; [|by destruct Hne].
    simpl. by rewrite IH.
  - induction mappings as [|m ms IH]; [done|].
    rewrite fmap_cons, filter_cons. simpl.
    by destruct (decide (Some false <> Some false)).
  - unfold transformRecord. rewrite transform_loop_none_applied; [done|].
    intros m Hm [_ Hen]. apply Hen.
    by apply list_elem_of_fmap in Hm as (m0 & -> & _).
  - rewrite <- list_fmap_compose. by apply list_fmap_ext.
  - rewrite <- list_fmap_compose. by apply list_fmap_ext.
Qed.

End Table.

(** ** The body of the response of the API *)

Section Body.
Import ApiSource.

Context {p : Platform}.

Lemma wrapped_cases (h : store) (data : value) (key : string) :
  nullish data = false ->
  wrapped h data key = Beyond
  \/ wrapped h data key
     = Ok (if truthy (Mapping.read h data key) then elements h (Mapping.read h data key)
           else None).
Proof.
  intros Hdata. unfold wrapped, Mapping.read.
  pose proof (get_no_throw h data key) as Hget.
  destruct (get h data key) as [x|e|]; [by right | by destruct (Hget e) | by left].
Qed.

(** X15: the reading of the body raises exactly on a body that is [null]
    or [undefined]; a body that is an array gives its elements; and the
    list of records is empty only when the array chosen, the body or the
    one under [data], [results] or [items], is empty: any other body
    counts as one record. *)
Theorem apiData_shapes :
  forall (h : store) (data : value),
    (nullish data = true <-> exists e, apiData h data = Throw e)
    /\ (forall records, elements h data = Some records -> apiData h data = Ok records)
    /\ (apiData h data = Ok [] ->
        elements h data = Some []
        \/ exists key, key ∈ ["data"; "results"; "items"]
                       /\ elements h (Mapping.read h data key) = Some []).
Proof.
  intros h data. split; [|split].
  - split.
    + intros Hdata. destruct data; try done; by eexists.
    + intros [e He]. destruct (nullish data) eqn:Hdata; [done|]. exfalso.
      unfold apiData in He. destruct (elements h data); [done|].
      destruct (wrapped_cases h data "data" Hdata) as [Ha|Ha]; rewrite Ha in He; [done|].
      simpl in He. destruct (if truthy _ then _ else _); [done|].
      destruct (wrapped_cases h data "results" Hdata) as [Hb|Hb]; rewrite Hb in He; [done|].
      simpl in He. destruct (if truthy _ then _ else _); [done|].
      destruct (wrapped_cases h data "items" Hdata) as [Hc|Hc]; rewrite Hc in He; [done|].
      simpl in He. by destruct (if truthy _ then _ else _).
  - intros records Hrecords. unfold apiData. by rewrite Hrecords.
  - intros Hempty. destruct (nullish data) eqn:Hdata.
    { by destruct data. }
    unfold apiData in Hempty. destruct (elements h data) as [records|] eqn:Hbody.
    { left. by inversion Hempty. }
    right.
    assert (Hfound : forall key records,
              (if truthy (Mapping.read h data key)
               then elements h (Mapping.read h data key) else None) = Some records ->
              elements h (Mapping.read h data key) = Some records).
    { intros key records. by destruct (truthy (Mapping.read h data key)). }
    destruct (wrapped_cases h data "data" Hdata) as [Hw|Hw]; rewrite Hw in Hempty;
      [done|]. simpl in Hempty.
    destruct (if truthy _ then _ else _) as [r1|] eqn:E1.
    { injection Hempty as ->. exists "data". split; [|by apply Hfound].
      apply (bool_decide_unpack _). by vm_compute. }
    destruct (wrapped_cases h data "results" Hdata) as [Hw'|Hw']; rewrite Hw' in Hempty;
      [done|]. simpl in Hempty.
    destruct (if truthy _ then _ else _) as [r2|] eqn:E2 in Hempty.
    { injection Hempty as ->. exists "results". split; [|by apply Hfound].
      apply (bool_decide_unpack _). by vm_compute. }
    destruct (wrapped_cases h data "items" Hdata) as [Hw''|Hw'']; rewrite Hw'' in Hempty;
      [done|]. simpl in Hempty.
    destruct (if truthy _ then _ else _) as [r3|] eqn:E3 in Hempty; [|done].
    injection Hempty as ->. exists "items". split; [|by apply Hfound].
    apply (bool_decide_unpack _). by vm_compute.
Qed.

End Body.

Lemma apiData_shapes_witness :
  ApiSource.apiData (p := Sample.engine) Sample.people (VRef 1) = Ok [VRef 2; VRef 3]
  /\ exists e, ApiSource.apiData (p := Sample.engine) Sample.people null = Throw e.
Proof.
  destruct (apiData_shapes (p := Sample.engine) Sample.people (VRef 1)) as (_ & H1 & _).
  destruct (apiData_shapes (p := Sample.engine) Sample.people null) as ([H2 _] & _).
  split; [by apply H1 | by apply H2].
Defined.

(** ** More on the error classifier *)

Section ClassifierMore.
Import ErrorHandler.

Ltac by_status status :=
  unfold analyzeHttpError;
  destruct (status =? 401); [|
  destruct (status =? 403); [|
  destruct (status =? 404); [|
  destruct (status =? 422); [|
  destruct ((status =? 500) || (status =? 502) || (status =? 503) || (status =? 504))]]]].

Ltac by_detector error :=
  unfold analyzeError;
  destruct (isCorsError error); [|
  destruct (isNetworkError error); [|
  destruct (http_status error) as [status|]; [by_status status|
  destruct (message_includes "JSON" error || message_includes "parse" error); [|
  destruct (match JS.message error with
            | Some m => negb (Str.is_empty m) && Str.includes "timeout" (Str.toLowerCase m)
            | None => false
            end)]]]].

(** X16: every diagnosis comes with at least three steps of remedy, so
    the first step [formatErrorShort] and the client print is always a
    real one. *)
Theorem analyzeError_solutions :
  forall (error : exn) (context : string),
    (3 <= length (solutions (analyzeError error context)))%nat
    /\ head (solutions (analyzeError error context))
       = Some (first_solution (analyzeError error context)).
Proof.
  intros error context. unfold first_solution.
  by_detector error; (split; [simpl; lia | done]).
Qed.

(** X17: the context changes the explanation and the steps of remedy
    only: the type, the title, the message and the technical details of
    a diagnosis are the same in every context; and two contexts that are
    both, or both not, the synchronisation to Grist and the fetch from
    the API give the same diagnosis. *)
Theorem analyzeError_context :
  forall (error : exn) (context context' : string),
    type (analyzeError error context) = type (analyzeError error context')
    /\ title (analyzeError error context) = title (analyzeError error context')
    /\ message (analyzeError error context) = message (analyzeError error context')
    /\ technicalDetails (analyzeError error context)
       = technicalDetails (analyzeError error context')
    /\ (String.eqb context "grist_sync" = String.eqb context' "grist_sync" ->
        String.eqb context "api_fetch" = String.eqb context' "api_fetch" ->
        analyzeError error context = analyzeError error context').
Proof.
  intros error context context'.
  split; [|split; [|split; [|split]]].
  5:{ intros Hgrist Hfetch. unfold analyzeError, analyzeHttpError, grist.
      by rewrite Hgrist, Hfetch. }
  all: by_detector error; done.
Qed.

Lemma analyzeError_context_witness :
  analyzeError (new_Error "HTTP 404: not found") "preview"
  = analyzeError (new_Error "HTTP 404: not found") "".
Proof.
  destruct (analyzeError_context (new_Error "HTTP 404: not found") "preview" "")
    as (_ & _ & _ & _ & H).
  apply H; reflexivity.
Defined.

(** X18: the message of the error is never lost: when it is not empty,
    it is the technical details of the diagnosis, or its message. *)
Theorem analyzeError_keeps_message :
  forall (error : exn) (context m : string),
    JS.message error = Some m ->
    Str.is_empty m = false ->
    technicalDetails (analyzeError error context) = Some m
    \/ message (analyzeError error context) = m.
Proof.
  intros error context m Hm Hne.
  by_detector error; cbn [technicalDetails message]; rewrite ?Hm; unfold Str.or_else;
    rewrite ?Hne; auto.
Qed.

Lemma analyzeError_keeps_message_witness :
  technicalDetails (analyzeError (new_Error "Erreur HTTP 503: down") "api_fetch")
  = Some "Erreur HTTP 503: down"
  \/ message (analyzeError (new_Error "Erreur HTTP 503: down") "api_fetch")
     = "Erreur HTTP 503: down".
Proof.
  apply (analyzeError_keeps_message (new_Error "Erreur HTTP 503: down") "api_fetch"
           "Erreur HTTP 503: down"); reflexivity.
Defined.

(** X19: a [TypeError] is a cross-origin or a network failure, whatever
    its message: so is the one [JSON.stringify] raises on a circular
    structure. *)
Theorem analyzeError_TypeError :
  forall (error : exn) (context : string),
    JS.name error = Some "TypeError" ->
    type (analyzeError error context) = cors
    \/ type (analyzeError error context) = network.
Proof.
  intros error context Hname. unfold analyzeError.
  destruct (isCorsError error) eqn:Hcors; [by left|].
  assert (isNetworkError error = true) as ->; [|by right].
  unfold isNetworkError, is_TypeError. rewrite Hcors.
  by rewrite (bool_decide_eq_true_2 _ Hname).
Qed.

Lemma analyzeError_TypeError_witness :
  type (analyzeError
          (TypeError_circular (p := Sample.engine) Sample.looped [1%positive] 1%positive)
          "grist_sync") = cors
  \/ type (analyzeError
             (TypeError_circular (p := Sample.engine) Sample.looped [1%positive] 1%positive)
             "grist_sync") = network.
Proof. apply analyzeError_TypeError. reflexivity. Defined.

Lemma parseInt_of_Z (z : Z) :
  0 <= z ->
  parseInt (Str.of_Z z) = z
  /\ Str.all_digits (Str.of_Z z) = true
  /\ Str.of_Z z <> EmptyString.
Proof.
  intros Hz. destruct (of_Z_uint z Hz) as (d & Hd & -> & Hvalue).
  split; [|split].
  - unfold parseInt. by rewrite parse_digits_uint.
  - apply all_digits_uint.
  - by destruct d.
Qed.

(** X20: the status of a response survives in the error the client
    raises for it: the classifier reads the same number back from the
    message, and diagnoses by it unless one of the first two detectors
    fires on the text of the response. *)
Theorem http_failure_status :
  forall (J A : Type) (response : Grist.Response J) (errorText context : string)
         (t : list Grist.event),
    0 <= Grist.status response ->
    Grist.text response = Grist.Resolved errorText ->
    exists e,
      Grist.http_failure (A := A) response t = (Throw e, t)
      /\ instanceof_Error e = true
      /\ http_status e = Some (Grist.status response)
      /\ (isCorsError e = false -> isNetworkError e = false ->
          analyzeError e context = analyzeHttpError (Grist.status response) e context
          /\ type (analyzeError e context) = kind_of_status (Grist.status response)).
Proof.
  intros J A response errorText context t Hstatus Htext.
  destruct (parseInt_of_Z _ Hstatus) as (Hvalue & Hdigits & Hne).
  exists (new_Error ("Erreur HTTP " +:+ Str.of_Z (Grist.status response)
                     +:+ ": " +:+ errorText)).
  assert (Hread : http_status (new_Error ("Erreur HTTP " +:+ Str.of_Z (Grist.status response)
                                          +:+ ": " +:+ errorText))
                  = Some (Grist.status response)).
  { rewrite <- Hvalue at 2.
    apply (http_status_literal _ "Erreur " (Str.of_Z (Grist.status response))
             (": " +:+ errorText)); done. }
  split; [|split; [done|split; [done|]]].
  - unfold Grist.http_failure, Grist.mbind. by rewrite Htext.
  - intros Hcors Hnet.
    assert (analyzeError (new_Error ("Erreur HTTP " +:+ Str.of_Z (Grist.status response)
                                     +:+ ": " +:+ errorText)) context
            = analyzeHttpError (Grist.status response)
                (new_Error ("Erreur HTTP " +:+ Str.of_Z (Grist.status response)
                            +:+ ": " +:+ errorText)) context) as Heq.
    { unfold analyzeError. by rewrite Hcors, Hnet, Hread. }
    split; [done|]. rewrite Heq. apply analyzeHttpError_type.
Qed.

Lemma http_failure_status_witness :
  exists e,
    Grist.http_failure (A := unit)
      {| Grist.status := 404; Grist.text := Grist.Resolved "no such table";
         Grist.json := Grist.Resolved () |} []
    = (Throw e, [])
    /\ http_status e = Some 404
    /\ type (analyzeError e "grist_sync") = not_found.
Proof.
  destruct (http_failure_status unit unit
              {| Grist.status := 404; Grist.text := Grist.Resolved "no such table";
                 Grist.json := Grist.Resolved () |} "no such table" "grist_sync" [])
    as (e & Hrun & _ & Hread & Hkind); [done | done |].
  exists e. split; [done|]. split; [done|].
  injection Hrun as <-. apply Hkind; reflexivity.
Defined.

End ClassifierMore.

(** ** More on the Grist client *)

Section ClientMore.
Import Grist.

Context {p : Platform}.

Local Arguments ErrorHandler.analyzeError : simpl never.
Local Arguments ErrorHandler.formatErrorShort : simpl never.
Local Arguments Str.of_Z : simpl never.
Local Arguments Str.of_nat : simpl never.
Local Arguments String.append : simpl never.
Local Arguments get : simpl never.

Lemma logged_app (t t' : list event) : logged (t ++ t') = logged t ++ logged t'.
Proof. apply omap_app. Qed.

Lemma note_off (this : GristClient) (message : string) (type : level) :
  onLog this = false -> note this message type = [].
Proof. intros Hoff. unfold note. by rewrite Hoff. Qed.

Lemma logged_told_off (this : GristClient) (caught : exn) :
  onLog this = false -> logged (told this caught) = [].
Proof. intros Hoff. unfold told. by rewrite !note_off. Qed.

Lemma logged_warned_off (this : GristClient) (e : exn) :
  onLog this = false -> logged (warned this e) = [].
Proof. intros Hoff. unfold warned. by rewrite note_off. Qed.

Lemma probing_reading (this : GristClient) : probing this = reading this (Some (Int 1)).
Proof.
  unfold probing, reading. f_equal.
  change (truthy (VNum (Int 1))) with true. cbn iota.
  change (Number_toString (Int 1)) with "1".
  unfold buildApiUrl. by rewrite !append_assoc.
Qed.

Lemma testConnection_run (h : store) (host : Host) (this : GristClient) (t : list event) :
  testConnection h host this t
  = (match bind (settle (GET_records host (reading this (Some (Int 1)))))
                (fun data => get h data "records") with
     | Ok _ => Ok true
     | Throw _ => Ok false
     | Beyond => Beyond
     end, t ++ [Fetch (reading this (Some (Int 1)))]).
Proof.
  unfold testConnection, try_catch, mbind. rewrite getRecords_run.
  by destruct (bind (settle _) _).
Qed.

Lemma settle_Ok {J} (answer : settled (Response J)) (data : J) :
  settle answer = Ok data
  <-> exists response,
        answer = Resolved response /\ ok response = true /\ json response = Resolved data.
Proof.
  unfold settle. split.
  - destruct answer as [response|n m]; [|done].
    destruct (ok response) eqn:Hok.
    + destruct (json response) as [d|n m] eqn:Hjson; [|done].
      intros [= <-]. by exists response.
    + by destruct (text response).
  - by intros (response & -> & -> & ->).
Qed.

(** X21: [testConnection] never raises and never calls the log
    callback: it asks for one record, and answers [true] exactly when the
    response is a success whose body can be read and is one in which
    [records] can be read; it answers [false] exactly when something was
    caught, as it is on the body [null].  It does answer where the name
    [records] is that of no inherited member. *)
Theorem testConnection_verdict :
  forall (h : store) (host : Host) (this : GristClient) (t : list event),
    snd (testConnection h host this t) = t ++ [Fetch (reading this (Some (Int 1)))]
    /\ logged (snd (testConnection h host this t)) = logged t
    /\ (forall e, fst (testConnection h host this t) <> Throw e)
    /\ (fst (testConnection h host this t) = Ok true <->
        exists response data found,
          GET_records host (reading this (Some (Int 1))) = Resolved response
          /\ ok response = true /\ json response = Resolved data
          /\ get h data "records" = Ok found)
    /\ (fst (testConnection h host this t) = Ok false <->
        exists caught,
          bind (settle (GET_records host (reading this (Some (Int 1)))))
               (fun data => get h data "records") = Throw caught)
    /\ (forall response data,
          GET_records host (reading this (Some (Int 1))) = Resolved response ->
          ok response = true -> json response = Resolved data -> nullish data = true ->
          fst (testConnection h host this t) = Ok false)
    /\ ((forall k, inherited k "records" = false) ->
        exists connected, fst (testConnection h host this t) = Ok connected).
Proof.
  intros h host this t. rewrite testConnection_run. cbn [fst snd].
  split; [done|]. split; [|split; [|split; [|split; [|split]]]].
  - rewrite logged_app. simpl. apply app_nil_r.
  - intros e. by destruct (bind (settle _) _).
  - split.
    + destruct (settle _) as [data|e|] eqn:Hs; simpl; [| done..].
      apply settle_Ok in Hs as (response & Hanswer & Hok & Hjson).
      destruct (get h data "records") as [found|e|] eqn:Hget; [|done..].
      intros _. by exists response, data, found.
    + intros (response & data & found & Hanswer & Hok & Hjson & Hget).
      assert (settle (GET_records host (reading this (Some (Int 1)))) = Ok data) as ->
        by (apply settle_Ok; by exists response).
      simpl. by rewrite Hget.
  - split.
    + destruct (bind (settle _) _) as [found|e|]; [done | by exists e | done].
    + by intros [caught ->].
  - intros response data Hanswer Hok Hjson Hdata.
    assert (settle (GET_records host (reading this (Some (Int 1)))) = Ok data) as ->
      by (apply settle_Ok; by exists response).
    simpl. by rewrite get_nullish.
  - intros Hnames.
    pose proof (settle_data (GET_records host (reading this (Some (Int 1))))) as Hs.
    destruct (settle _) as [data|e|]; simpl; [|by eexists|done].
    pose proof (get_data h data "records" ltac:(done) eq_refl) as Hget.
    destruct (get h data "records") as [found|e|]; [by eexists..|].
    exfalso. apply Hget; [|done]. intros k _. apply Hnames.
Qed.

Lemma ok_status {J} (response : Response J) :
  ok response = true -> status response <> 401 /\ status response <> 403.
Proof.
  unfold ok. intros Hok. apply andb_true_iff in Hok as [_ Hle].
  apply Z.leb_le in Hle. lia.
Qed.

(** X22: [validateApiToken] never raises: it makes the request of
    [testConnection] and does not read the body.  Its verdict is valid
    exactly when the response is a success, and asks for authentication
    exactly when the status is 401 or 403; a connection that
    [testConnection] accepts has a valid verdict. *)
Theorem validateApiToken_verdict :
  forall (h : store) (host : Host) (this : GristClient) (t : list event),
    exists verdict,
      validateApiToken host this t = (Ok verdict, t ++ [Fetch (probing this)])
      /\ probing this = reading this (Some (Int 1))
      /\ (valid verdict = true <->
          exists response,
            GET_records host (probing this) = Resolved response /\ ok response = true)
      /\ (needsAuth verdict = true <->
          exists response,
            GET_records host (probing this) = Resolved response
            /\ (status response = 401 \/ status response = 403))
      /\ (fst (testConnection h host this t) = Ok true -> valid verdict = true).
Proof.
  intros h host this t.
  assert (Hconnected : fst (testConnection h host this t) = Ok true ->
            exists response,
              GET_records host (probing this) = Resolved response /\ ok response = true).
  { rewrite testConnection_run, probing_reading. cbn [fst]. intros Htrue.
    destruct (settle (GET_records host (reading this (Some (Int 1))))) as [data|e|] eqn:Hs;
      [|done..].
    apply settle_Ok in Hs as (response & ? & ? & _). by exists response. }
  unfold validateApiToken, try_catch, mbind, fetch, emit, await, mbind, ret, throw.
  destruct (GET_records host (probing this)) as [response|n m] eqn:Hanswer; cbn -[probing].
  2:{ eexists. split; [done|]. split; [apply probing_reading|]. cbn [valid needsAuth].
      split; [|split].
      - split; [done | by intros (r & ? & _)].
      - split; [done | by intros (r & ? & _)].
      - intros Htrue. by destruct (Hconnected Htrue) as (r & ? & _). }
  destruct (status response =? 401) eqn:E1.
  { apply Z.eqb_eq in E1. eexists. split; [done|]. split; [apply probing_reading|].
    cbn [valid needsAuth]. split; [|split].
    - split; [done|]. intros (r & [= <-] & Hok). by destruct (ok_status _ Hok).
    - split; [|done]. intros _. exists response. auto.
    - intros Htrue. destruct (Hconnected Htrue) as (r & [= <-] & Hok).
      by destruct (ok_status _ Hok). }
  destruct (status response =? 403) eqn:E2.
  { apply Z.eqb_eq in E2. eexists. split; [done|]. split; [apply probing_reading|].
    cbn [valid needsAuth]. split; [|split].
    - split; [done|]. intros (r & [= <-] & Hok). by destruct (ok_status _ Hok).
    - split; [|done]. intros _. exists response. auto.
    - intros Htrue. destruct (Hconnected Htrue) as (r & [= <-] & Hok).
      by destruct (ok_status _ Hok). }
  apply Z.eqb_neq in E1, E2.
  destruct (ok response) eqn:Hok.
  - destruct (has_token this); (eexists; split; [done|]); (split; [apply probing_reading|]);
      cbn [valid needsAuth]; (split; [|split]); try done.
    + split; [|done]. intros _. by exists response.
    + split; [done|]. intros (r & [= <-] & [?|?]); done.
    + split; [|done]. intros _. by exists response.
    + split; [done|]. intros (r & [= <-] & [?|?]); done.
  - eexists. split; [done|]. split; [apply probing_reading|]. cbn [valid needsAuth].
    split; [|split].
    + split; [done|]. intros (r & [= <-] & Hok'). congruence.
    + split; [done|]. intros (r & [= <-] & [?|?]); done.
    + intros Htrue. destruct (Hconnected Htrue) as (r & [= <-] & Hok'). congruence.
Qed.

(** The step of the columns, whatever happens in it: it raises nothing,
    and makes two requests at most, both to the columns of the table. *)
Lemma ensureColumnsExist_requests (h : store) (host : Host) (this : GristClient)
  (recs : list record) (t : list event) :
  exists r t1 cols,
    ensureColumnsExist h host this recs t = (r, t1)
    /\ (forall e, r <> Throw e)
    /\ requests t1 = requests t ++ cols
    /\ (length cols <= 2)%nat
    /\ (forall r, r ∈ cols ->
          url r = buildApiUrl this "/columns" /\ headers r = buildHeaders this)
    /\ (onLog this = false -> logged t1 = logged t).
Proof.
  assert (Hone : forall r, r ∈ [listing this] ->
            url r = buildApiUrl this "/columns" /\ headers r = buildHeaders this).
  { intros r Hr. apply list_elem_of_singleton in Hr as ->. done. }
  assert (Htwo : forall cs r, r ∈ [listing this; creation this cs] ->
            url r = buildApiUrl this "/columns" /\ headers r = buildHeaders this).
  { intros cs r Hr. apply elem_of_cons in Hr as [->|Hr]; [done|].
    apply list_elem_of_singleton in Hr as ->. done. }
  destruct recs as [|rec recs].
  { exists (Ok ()), t, []. split; [done|]. split; [done|]. split; [by rewrite app_nil_r|].
    split; [simpl; lia|]. split; [|done]. intros r Hr. by apply elem_of_nil in Hr. }
  rewrite ensureColumnsExist_run by done.
  pose proof (createMissingColumns_Error h host this (rec :: recs) t) as Herror.
  rewrite createMissingColumns_run in *. cbn zeta in *.
  assert (Hlisted : forall r0 : result (),
            (forall e, r0 <> Throw e) ->
            exists r t1 cols,
              (r0, t ++ note this "🔍 Vérification des colonnes existantes..." info
                     ++ [Fetch (listing this)]) = (r, t1)
              /\ (forall e, r <> Throw e)
              /\ requests t1 = requests t ++ cols
              /\ (length cols <= 2)%nat
              /\ (forall r, r ∈ cols ->
                    url r = buildApiUrl this "/columns" /\ headers r = buildHeaders this)
              /\ (onLog this = false -> logged t1 = logged t)).
  { intros r0 Hr0. eexists _, _, [listing this]. split; [done|]. split; [done|].
    split; [|split; [|split]].
    - rewrite !requests_app, !requests_note. simpl. by rewrite ?app_nil_r, <- ?app_assoc, ?app_nil_r.
    - simpl. lia.
    - apply Hone.
    - intros Hoff. rewrite !logged_app, !note_off by done. simpl. by rewrite ?app_nil_r, <- ?app_assoc, ?app_nil_r. }
  assert (Hwarned : forall e,
            exists r t1 cols,
              (Ok (), (t ++ note this "🔍 Vérification des colonnes existantes..." info
                         ++ [Fetch (listing this)]) ++ warned this e) = (r, t1)
              /\ (forall e, r <> Throw e)
              /\ requests t1 = requests t ++ cols
              /\ (length cols <= 2)%nat
              /\ (forall r, r ∈ cols ->
                    url r = buildApiUrl this "/columns" /\ headers r = buildHeaders this)
              /\ (onLog this = false -> logged t1 = logged t)).
  { intros e. eexists _, _, [listing this]. split; [done|]. split; [done|].
    split; [|split; [|split]].
    - rewrite !requests_app, !requests_note, requests_warned. simpl.
      by rewrite ?app_nil_r, <- ?app_assoc, ?app_nil_r.
    - simpl. lia.
    - apply Hone.
    - intros Hoff. rewrite !logged_app, logged_warned_off, !note_off by done.
      simpl. by rewrite ?app_nil_r, <- ?app_assoc, ?app_nil_r. }
  destruct (bind (settle (GET_columns host (listing this))) _) as [found|caught|];
    [|apply Hwarned|by apply Hlisted].
  destruct (existingColumnIds h _) as [ids|e|]; [|apply Hwarned|by apply Hlisted].
  destruct (0 <? _)%nat.
  - destruct (settle (POST_columns host _)) as [created|caught|].
    + eexists _, _, [listing this; creation this _]. split; [done|]. split; [done|].
      split; [|split; [|split]].
      * rewrite !requests_app, !requests_note. simpl.
        by rewrite ?app_nil_r, <- ?app_assoc, ?app_nil_r.
      * simpl. lia.
      * apply Htwo.
      * intros Hoff. rewrite !logged_app, !note_off by done. simpl.
        by rewrite ?app_nil_r, <- ?app_assoc, ?app_nil_r.
    + eexists _, _, [listing this; creation this _]. split; [done|]. split; [done|].
      split; [|split; [|split]].
      * rewrite !requests_app, !requests_note, requests_told, requests_warned. simpl.
        by rewrite ?app_nil_r, <- ?app_assoc, ?app_nil_r.
      * simpl. lia.
      * apply Htwo.
      * intros Hoff.
        rewrite !logged_app, logged_told_off, logged_warned_off, !note_off by done.
        simpl. by rewrite ?app_nil_r, <- ?app_assoc, ?app_nil_r.
    + eexists _, _, [listing this; creation this _]. split; [done|]. split; [done|].
      split; [|split; [|split]].
      * rewrite !requests_app, !requests_note. simpl.
        by rewrite ?app_nil_r, <- ?app_assoc.
      * simpl. lia.
      * apply Htwo.
      * intros Hoff. rewrite !logged_app, !note_off by done. simpl.
        by rewrite ?app_nil_r, <- ?app_assoc, ?app_nil_r.
  - eexists _, _, [listing this]. split; [done|]. split; [done|].
    split; [|split; [|split]].
    + rewrite !requests_app, !requests_note. simpl. by rewrite ?app_nil_r, <- ?app_assoc, ?app_nil_r.
    + simpl. lia.
    + apply Hone.
    + intros Hoff. rewrite !logged_app, !note_off by done. simpl. by rewrite ?app_nil_r, <- ?app_assoc, ?app_nil_r.
Qed.

(** The outcome of the step is the same for every client of the
    configuration, on every trace. *)
Lemma ensureColumnsExist_outcome (h : store) (host : Host) (this this' : GristClient)
  (recs : list record) (t t' : list event) :
  config this = config this' ->
  fst (ensureColumnsExist h host this recs t)
  = fst (ensureColumnsExist h host this' recs t').
Proof.
  intros Hconfig. destruct recs as [|rec recs]; [done|].
  rewrite !ensureColumnsExist_run by done. rewrite !createMissingColumns_run. cbn zeta.
  assert (listing this = listing this') as <-.
  { unfold listing, columnsUrl, baseUrl, buildHeaders. by rewrite Hconfig. }
  assert (forall cols, creation this cols = creation this' cols) as Hcreation.
  { intros cols. unfold creation, columnsUrl, baseUrl, buildHeaders. by rewrite Hconfig. }
  destruct (bind (settle (GET_columns host (listing this))) _) as [found|caught|];
    [|done..].
  destruct (existingColumnIds h _) as [ids|e|]; [|done..].
  destruct (0 <? _)%nat; [|done].
  rewrite <- Hcreation. by destruct (settle (POST_columns host _)).
Qed.

Lemma addRecords_run (h : store) (host : Host) (this : GristClient) (recs : list record)
  (t : list event) :
  recs <> [] ->
  exists t1 cols,
    (addRecords h host this (Some recs) t = postRecords h host this recs t1
     \/ addRecords h host this (Some recs) t = (Beyond, t1))
    /\ requests t1 = requests t ++ cols
    /\ (length cols <= 2)%nat
    /\ (autoCreateColumns (config this) = Some false -> cols = [])
    /\ (forall r, r ∈ cols ->
          url r = buildApiUrl this "/columns" /\ headers r = buildHeaders this)
    /\ (onLog this = false -> logged t1 = logged t).
Proof.
  intros Hrecs. destruct recs as [|rec recs]; [done|]. unfold addRecords, mbind.
  destruct (bool_decide (autoCreateColumns (config this) <> Some false)) eqn:Hauto.
  - apply bool_decide_eq_true in Hauto.
    destruct (ensureColumnsExist_requests h host this (rec :: recs) t)
      as (r & t1 & cols & -> & Hr & Hrequests & Hlen & Hcols & Hlogged).
    exists t1, cols. split; [|done].
    destruct r as [[]|e|]; [by left | by destruct (Hr e) | by right].
  - exists t, []. split; [by left|]. split; [by rewrite app_nil_r|]. split; [simpl; lia|].
    split; [done|]. split; [|done]. intros r Hr. by apply elem_of_nil in Hr.
Qed.

(** [addRecords] is followed by the model wherever the step of the
    columns is. *)
Lemma addRecords_followed (h : store) (host : Host) (this : GristClient)
  (recs : list record) (t : list event) :
  listing_is_data -> fst (addRecords h host this (Some recs) t) <> Beyond.
Proof.
  intros Hdata. destruct recs as [|rec recs]; [done|].
  assert (Hpost : forall t1, fst (postRecords h host this (rec :: recs) t1) <> Beyond).
  { intros t1. rewrite postRecords_run.
    pose proof (records_body_data h (rec :: recs)) as Hd.
    destruct (records_body h (rec :: recs)) as [body|caught|]; [|done..].
    pose proof (settle_data (POST_records host (insertion this body))) as Hs.
    by destruct (settle _). }
  unfold addRecords, mbind. destruct (bool_decide _); [|apply Hpost].
  destruct (ensureColumnsExist_returns h host this (rec :: recs) t Hdata) as [t1 ->].
  apply Hpost.
Qed.

(** X23: what [addRecords] sends for a list of records that is not
    empty, where the listing is read as data, and in every other run that
    is followed to its end: at most two requests to the
    columns of the table, none when [autoCreateColumns] is [false], and
    then the insertion, which is sent exactly when the records can be
    written as JSON.  Every request carries the headers of the client,
    where the token is given exactly when the configuration has one that
    is not empty. *)
Theorem addRecords_requests :
  forall (h : store) (host : Host) (this : GristClient) (recs : list record)
         (t : list event),
    recs <> [] ->
    listing_is_data \/ fst (addRecords h host this (Some recs) t) <> Beyond ->
    exists cols,
      requests (snd (addRecords h host this (Some recs) t))
      = requests t ++ cols
        ++ match records_body h recs with
           | Ok body => [insertion this body]
           | _ => []
           end
      /\ (length cols <= 2)%nat
      /\ (autoCreateColumns (config this) = Some false -> cols = [])
      /\ (forall r, r ∈ cols ->
            url r = buildApiUrl this "/columns" /\ headers r = buildHeaders this)
      /\ (forall body, headers (insertion this body) = buildHeaders this)
      /\ (forall value,
            ("Authorization", value) ∈ buildHeaders this
            <-> exists token,
                  apiTokenGrist (config this) = Some token
                  /\ token <> EmptyString /\ value = "Bearer " +:+ token).
Proof.
  intros h host this recs t Hrecs Hfollowed.
  assert (fst (addRecords h host this (Some recs) t) <> Beyond) as Hrun'.
  { destruct Hfollowed as [Hdata|?]; [by apply addRecords_followed | done]. }
  destruct (addRecords_run h host this recs t Hrecs)
    as (t1 & cols & [Hrun|Hrun] & Hrequests & Hlen & Hauto & Hcols & _);
    [|by rewrite Hrun in Hrun'].
  rewrite Hrun.
  exists cols. split; [|split; [done|split; [done|split; [done|split; [done|]]]]].
  - rewrite postRecords_run. destruct (records_body h recs) as [body|caught|].
    + destruct (settle _) as [data|caught|]; cbn [snd].
      * rewrite requests_app, Hrequests. simpl. by rewrite <- app_assoc.
      * rewrite !requests_app, requests_told, Hrequests. simpl.
        by rewrite <- !app_assoc.
      * rewrite requests_app, Hrequests. simpl. by rewrite <- app_assoc.
    + cbn [snd]. by rewrite requests_app, requests_told, Hrequests, !app_nil_r.
    + cbn [snd]. by rewrite Hrequests, !app_nil_r.
  - intros value. unfold buildHeaders. rewrite elem_of_cons.
    destruct (apiTokenGrist (config this)) as [token|].
    + destruct (Str.is_empty token) eqn:Hempty.
      * apply is_empty_true in Hempty as ->. rewrite elem_of_nil. split.
        -- intros [[=]|[]].
        -- intros (token & [= <-] & Hne & _). done.
      * rewrite list_elem_of_singleton. split.
        -- intros [[=]|[= ->]]. exists token. split; [done|]. split; [|done].
           intros ->. done.
        -- intros (token' & [= <-] & _ & ->). by right.
    + rewrite elem_of_nil. split; [by intros [[=]|[]] | by intros (token & [=] & _)].
Qed.

(** X24: the result of [addRecords] on a list that is not empty, in a
    run the model follows (and it follows every run where the listing is
    read as data), is decided by the insertion alone, whatever the step
    of the columns did: the data of the response when it is a success,
    unchanged, and otherwise the error of the diagnosis of what went
    wrong, which is the failure to write the records as JSON when they
    cannot be. *)
Theorem addRecords_result :
  forall (h : store) (host : Host) (this : GristClient) (recs : list record)
         (t : list event),
    recs <> [] ->
    (listing_is_data -> fst (addRecords h host this (Some recs) t) <> Beyond)
    /\ (fst (addRecords h host this (Some recs) t) <> Beyond ->
        fst (addRecords h host this (Some recs) t)
        = match records_body h recs with
          | Throw caught => Throw (short caught)
          | Beyond => Beyond
          | Ok body =>
              match settle (POST_records host (insertion this body)) with
              | Ok data => Ok data
              | Throw caught => Throw (short caught)
              | Beyond => Beyond
              end
          end).
Proof.
  intros h host this recs t Hrecs. split; [apply addRecords_followed|].
  intros Hfollowed.
  destruct (addRecords_run h host this recs t Hrecs) as (t1 & cols & [Hrun|Hrun] & _);
    [|by rewrite Hrun in Hfollowed].
  rewrite Hrun, postRecords_run.
  destruct (records_body h recs) as [body|caught|]; [|done..].
  by destruct (settle _).
Qed.

(** X25: [insertRecordsToGrist] makes a client with no log callback:
    nothing is logged, and the result is the one [addRecords] gives for
    any client of the same configuration. *)
Theorem insertRecordsToGrist_silent :
  forall (h : store) (host : Host) (records : option (list record))
         (config : GristConfig) (t : list event),
    logged (snd (insertRecordsToGrist h host records config t)) = logged t
    /\ forall this,
         Grist.config this = config ->
         fst (insertRecordsToGrist h host records config t)
         = fst (addRecords h host this records t).
Proof.
  intros h host records config t. unfold insertRecordsToGrist.
  destruct records as [[|rec recs]|]; [by split | | by split].
  split.
  - destruct (addRecords_run h host {| config := config; onLog := false |}
                (rec :: recs) t ltac:(done))
      as (t1 & cols & [-> | ->] & _ & _ & _ & _ & Hlogged); [|by apply Hlogged].
    rewrite postRecords_run. destruct (records_body h (rec :: recs)) as [body|caught|].
    + destruct (settle _) as [data|caught|]; cbn [snd].
      * rewrite logged_app. simpl. rewrite app_nil_r. by apply Hlogged.
      * rewrite !logged_app, logged_told_off by done. simpl. rewrite !app_nil_r.
        by apply Hlogged.
      * rewrite logged_app. simpl. rewrite app_nil_r. by apply Hlogged.
    + cbn [snd]. rewrite logged_app, logged_told_off by done. rewrite app_nil_r.
      by apply Hlogged.
    + by apply Hlogged.
  - intros [config' callback] Hconfig. simpl in Hconfig. subst config'.
    unfold addRecords, mbind. cbn [Grist.config].
    destruct (bool_decide (autoCreateColumns config <> Some false)).
    + pose proof (ensureColumnsExist_outcome h host {| config := config; onLog := false |}
                    {| config := config; onLog := callback |} (rec :: recs) t t eq_refl)
        as Hstep.
      destruct (ensureColumnsExist h host {| config := config; onLog := false |} _ t)
        as [r1 t1].
      destruct (ensureColumnsExist h host {| config := config; onLog := callback |} _ t)
        as [r2 t2].
      simpl in Hstep. subst r2. destruct r1 as [[]|e|]; [|done..].
      rewrite !postRecords_run. destruct (records_body h (rec :: recs)) as [body|caught|];
        [|done..].
      change (insertion {| config := config; onLog := callback |} body)
        with (insertion {| config := config; onLog := false |} body).
      by destruct (settle _).
    + unfold ret. rewrite !postRecords_run.
      destruct (records_body h (rec :: recs)) as [body|caught|]; [|done..].
      change (insertion {| config := config; onLog := callback |} body)
        with (insertion {| config := config; onLog := false |} body).
      by destruct (settle _).
Qed.

Lemma infer_range (recs : list record) (columnName : string) :
  infer recs columnName ∈ ["Text"; "Int"; "Numeric"; "Bool"; "DateTime"].
Proof.
  induction recs as [|rec recs IH]; simpl.
  - apply elem_of_cons. by left.
  - destruct (assoc columnName rec) as [v|].
    + destruct (nullish v); [done|].
      destruct v as [| |b|n|s|d|l]; simpl; try (apply elem_of_cons; by left).
      * apply (bool_decide_unpack _); by vm_compute.
      * destruct (Number_isInteger n); apply (bool_decide_unpack _); by vm_compute.
      * destruct (dateRegex s); apply (bool_decide_unpack _); by vm_compute.
    + destruct (inherited an_object columnName); [|done]. apply elem_of_cons. by left.
Qed.

(** X26: the type [inferColumnType] gives is one of [Text], [Int],
    [Numeric], [Bool] and [DateTime]; it looks at the first ten records
    only, so a column with no value there is a [Text], whatever comes
    later. *)
Theorem inferColumnType_window :
  forall (records : list record) (columnName : string),
    inferColumnType records columnName ∈ ["Text"; "Int"; "Numeric"; "Bool"; "DateTime"]
    /\ (forall later, (10 <= length records)%nat ->
          inferColumnType (records ++ later) columnName
          = inferColumnType records columnName)
    /\ ((forall r, r ∈ take 10 records -> skipped r columnName) ->
        inferColumnType records columnName = "Text").
Proof.
  intros records columnName. unfold inferColumnType. split; [apply infer_range|]. split.
  - intros later Hlen. by rewrite take_app_le.
  - apply infer_all_skipped.
Qed.

End ClientMore.

(** The theorem on the sample platform: a table that answers, and a host
    that answers every request with the body [null]. *)
Lemma testConnection_verdict_witness :
  fst (Grist.testConnection (p := Sample.engine) Sample.bodies Sample.restricted
         Sample.client []) = Ok true
  /\ fst (Grist.testConnection (p := Sample.engine) Sample.bodies Sample.hollow
            Sample.client []) = Ok false.
Proof.
  destruct (testConnection_verdict (p := Sample.engine) Sample.bodies Sample.restricted
              Sample.client []) as (_ & _ & _ & [_ H] & _).
  destruct (testConnection_verdict (p := Sample.engine) Sample.bodies Sample.hollow
              Sample.client []) as (_ & _ & _ & _ & _ & H' & _).
  split.
  - apply H. by exists (Sample.answer 200 (VRef 10)), (VRef 10), (VRef 11).
  - by apply (H' (Sample.answer 200 null) null).
Defined.

Lemma validateApiToken_verdict_witness :
  exists verdict,
    Grist.validateApiToken Sample.restricted Sample.client []
    = (Ok verdict, [Grist.Fetch (Grist.probing Sample.client)])
    /\ Grist.valid verdict = true.
Proof.
  destruct (validateApiToken_verdict (p := Sample.engine) Sample.bodies Sample.restricted
              Sample.client [])
    as (verdict & Hrun & _ & _ & _ & Hconnected).
  exists verdict. split; [exact Hrun|]. apply Hconnected. by vm_compute.
Defined.

(** The theorem on the sample platform, with a record that contains
    itself: the columns are asked for, and no insertion is sent. *)
Lemma addRecords_requests_witness :
  exists cols,
    Grist.requests (snd (Grist.addRecords (p := Sample.engine) Sample.looped Sample.open
                           Sample.client (Some [[("self", VRef 1)]]) []))
    = [] ++ cols ++ []
    /\ (length cols <= 2)%nat.
Proof.
  destruct (addRecords_requests (p := Sample.engine) Sample.looped Sample.open
              Sample.client [[("self", VRef 1)]] []) as (cols & Hrequests & Hlen & _);
    [done | left; exact engine_listing_is_data |].
  exists cols. split; [exact Hrequests | exact Hlen].
Defined.

(** The theorem on the sample platform, with a record that contains
    itself under the key [cors]: the message of the engine names the key,
    and the diagnosis is the one of a cross-origin failure. *)
Lemma addRecords_result_witness :
  fst (Grist.addRecords (p := Sample.engine) Sample.crossed Sample.open Sample.client
         (Some [[("x", VRef 1)]]) [])
  = Throw (new_Error
      ("La requête a été bloquée par la politique CORS du navigateur"
       +:+ " - "
       +:+ "✓ Configurez votre backend pour autoriser les requêtes CORS depuis ce domaine")).
Proof.
  destruct (addRecords_result (p := Sample.engine) Sample.crossed Sample.open
              Sample.client [[("x", VRef 1)]] [] ltac:(discriminate)) as [_ H].
  etransitivity; [apply H; by vm_compute | reflexivity].
Defined.

Lemma insertRecordsToGrist_silent_witness :
  fst (Grist.insertRecordsToGrist (p := Sample.engine) Sample.bodies Sample.open
         (Some Sample.scores) (Grist.config Sample.client) [])
  = fst (Grist.addRecords (p := Sample.engine) Sample.bodies Sample.open Sample.client
           (Some Sample.scores) []).
Proof.
  destruct (insertRecordsToGrist_silent (p := Sample.engine) Sample.bodies Sample.open
              (Some Sample.scores) (Grist.config Sample.client) []) as [_ H].
  apply H. reflexivity.
Defined.

Lemma inferColumnType_window_witness :
  Grist.inferColumnType (p := Sample.engine)
    (replicate 10 [("id", VNum (Int 1))] ++ [[("score", VNum (Int 85))]]) "score"
  = "Text".
Proof.
  destruct (inferColumnType_window (p := Sample.engine)
              (replicate 10 [("id", VNum (Int 1))] ++ [[("score", VNum (Int 85))]]) "score")
    as (_ & _ & H).
  apply H. intros r Hr. simpl in Hr.
  repeat (apply elem_of_cons in Hr as [->|Hr]; [reflexivity|]).
  by apply elem_of_nil in Hr.
Defined.

(** ** URLs of documents *)

Section UrlsMore.
Import Grist.

Lemma span_id_append (id after : string) :
  all_id id = true -> starts_with_id after = false ->
  span_id (id +:+ after) = (id, after).
Proof.
  intros Hid Hafter. induction id as [|c id IH]; simpl.
  - destruct after as [|c after]; [done|]. simpl in *. by rewrite Hafter.
  - simpl in Hid. apply andb_true_iff in Hid as [Hc Hid].
    change (String c id +:+ after) with (String c (id +:+ after)).
    simpl. by rewrite Hc, (IH Hid).
Qed.

Lemma span_id_spec (s : string) :
  s = (span_id s).1 +:+ (span_id s).2
  /\ all_id (span_id s).1 = true
  /\ starts_with_id (span_id s).2 = false.
Proof.
  induction s as [|c s (IH1 & IH2 & IH3)]; [done|]. simpl.
  destruct (id_char c) eqn:Hc.
  - destruct (span_id s) as [cs tl]. simpl in *. rewrite Hc. split; [|done].
    change (String c cs +:+ tl) with (String c (cs +:+ tl)). by f_equal.
  - simpl. by rewrite Hc.
Qed.

Lemma prefix_drop (p : string) :
  forall s, String.prefix p s = true -> s = p +:+ Str.drop (String.length p) s.
Proof.
  induction p as [|a p IH]; intros s Hp; [by destruct s|].
  destruct s as [|b s]; [done|]. simpl in Hp. destruct (ascii_dec a b) as [->|]; [|done].
  change (String b p +:+ Str.drop (String.length (String b p)) (String b s))
    with (String b (p +:+ Str.drop (String.length p) s)).
  f_equal. by apply IH.
Qed.

Lemma match_doc_first (before id after : string) :
  Str.includes "/doc/" (before +:+ "/doc") = false ->
  id <> EmptyString ->
  all_id id = true ->
  starts_with_id after = false ->
  match_doc (before +:+ "/doc/" +:+ id +:+ after) = Some id.
Proof.
  intros Hfirst Hne Hid Hafter. induction before as [|c before IH].
  - change (EmptyString +:+ "/doc/" +:+ id +:+ after)
      with (String "/" (String "d" (String "o" (String "c" (String "/" (id +:+ after)))))).
    cbn -[span_id]. rewrite (span_id_append _ _ Hid Hafter). simpl.
    by destruct id.
  - change (String c before +:+ "/doc") with (String c (before +:+ "/doc")) in Hfirst.
    cbn [Str.includes] in Hfirst. apply orb_false_iff in Hfirst as [Hhere Hrest].
    change (String c before +:+ "/doc/" +:+ id +:+ after)
      with (String c (before +:+ "/doc/" +:+ id +:+ after)).
    cbn [match_doc].
    assert (String.prefix "/doc/" (String c (before +:+ "/doc/" +:+ id +:+ after)) = false)
      as ->.
    { destruct (String.prefix "/doc/" (String c (before +:+ "/doc/" +:+ id +:+ after)))
        eqn:Hp; [|done].
      rewrite <- Hhere. symmetry.
      apply (prefix_short "/doc/" (String c (before +:+ "/doc")) ("/" +:+ id +:+ after)).
      - change (String c (before +:+ "/doc") +:+ "/" +:+ id +:+ after)
          with (String c ((before +:+ "/doc") +:+ "/" +:+ id +:+ after)).
        by rewrite append_assoc.
      - simpl. rewrite append_length. simpl. lia. }
    by apply IH.
Qed.

Lemma match_doc_sound (s id : string) :
  match_doc s = Some id ->
  id <> EmptyString /\ all_id id = true
  /\ exists before after,
       s = before +:+ "/doc/" +:+ id +:+ after /\ starts_with_id after = false.
Proof.
  induction s as [|c s IH].
  - by vm_compute.
  - cbn [match_doc]. remember (Str.drop 5 (String c s)) as rest eqn:Hrest.
    assert (Hlater : match_doc s = Some id ->
              id <> EmptyString /\ all_id id = true
              /\ exists before after,
                   String c s = before +:+ "/doc/" +:+ id +:+ after
                   /\ starts_with_id after = false).
    { intros Hs. destruct (IH Hs) as (Hne & Hid & before & after & -> & Hafter).
      split; [done|]. split; [done|]. by exists (String c before), after. }
    destruct (String.prefix "/doc/" (String c s)) eqn:Hp; [|done].
    destruct (span_id_spec rest) as (Hsplit & Hid & Hafter).
    destruct (span_id rest) as [found tl]. cbn [fst snd] in *.
    destruct (Str.is_empty found) eqn:Hempty; [done|].
    intros [= <-]. split; [by intros ->|]. split; [done|].
    exists EmptyString, tl. split; [|done].
    rewrite (prefix_drop _ _ Hp) at 1.
    change (String.length "/doc/") with 5%nat. rewrite <- Hrest, Hsplit. done.
Qed.

(** X27: what [parseGristUrl] finds is in the URL: the document id is
    not empty, holds no slash, question mark or hash, and stands whole in
    the path after [/doc/]; it comes with the protocol and the host of
    the URL, and the two are present or absent together, as
    [isValidGristUrl] tells. *)
Theorem parseGristUrl_sound :
  forall (new_URL : string -> option URL) (url : string),
    (parsed_docId (parseGristUrl new_URL url) = None
     <-> parsed_gristApiUrl (parseGristUrl new_URL url) = None)
    /\ (isValidGristUrl new_URL url = true
        <-> exists docId, parsed_docId (parseGristUrl new_URL url) = Some docId)
    /\ forall docId,
         parsed_docId (parseGristUrl new_URL url) = Some docId ->
         docId <> EmptyString
         /\ all_id docId = true
         /\ exists urlObj before after,
              new_URL url = Some urlObj
              /\ pathname urlObj = before +:+ "/doc/" +:+ docId +:+ after
              /\ starts_with_id after = false
              /\ parsed_gristApiUrl (parseGristUrl new_URL url)
                 = Some (protocol urlObj +:+ "//" +:+ host urlObj).
Proof.
  intros new_URL url. unfold isValidGristUrl, parseGristUrl.
  destruct (new_URL url) as [urlObj|]; cbn.
  2:{ split; [done|]. split; [|done]. split; [done | by intros [docId ?]]. }
  destruct (match_doc (pathname urlObj)) as [id|] eqn:Hmatch; cbn.
  2:{ split; [done|]. split; [|done]. split; [done | by intros [docId ?]]. }
  destruct (match_doc_sound _ _ Hmatch) as (Hne & Hid & before & after & Hpath & Hafter).
  destruct (Str.is_empty id) eqn:Hempty; cbn.
  { apply is_empty_true in Hempty. done. }
  split; [done|]. split; [split; [by exists id | done]|].
  intros docId [= <-]. split; [done|]. split; [done|].
  by exists urlObj, before, after.
Qed.

Lemma parseGristUrl_sound_witness :
  all_id "abc123xyz" = true.
Proof.
  destruct (parseGristUrl_sound
              (fun _ => Some {| protocol := "https:"; host := "docs.getgrist.com";
                                pathname := "/doc/abc123xyz" |})
              "https://docs.getgrist.com/doc/abc123xyz") as (_ & _ & H).
  destruct (H "abc123xyz" eq_refl) as (_ & Hid & _). exact Hid.
Defined.

(** X28: [parseGristUrl] finds the document of a URL whose path has it:
    when the path of the URL holds [/doc/] and, after the first one, an
    id that is not empty and ends at a slash, a question mark, a hash or
    the end, the id is the document, and the API is at the protocol and
    the host of the URL. *)
Theorem parseGristUrl_doc :
  forall (new_URL : string -> option URL) (url : string) (urlObj : URL)
         (before id after : string),
    new_URL url = Some urlObj ->
    pathname urlObj = before +:+ "/doc/" +:+ id +:+ after ->
    Str.includes "/doc/" (before +:+ "/doc") = false ->
    id <> EmptyString ->
    all_id id = true ->
    starts_with_id after = false ->
    parseGristUrl new_URL url
    = {| parsed_docId := Some id;
         parsed_gristApiUrl := Some (protocol urlObj +:+ "//" +:+ host urlObj) |}
    /\ isValidGristUrl new_URL url = true.
Proof.
  intros new_URL url urlObj before id after Hurl Hpath Hfirst Hne Hid Hafter.
  assert (Hparsed : parseGristUrl new_URL url
                    = {| parsed_docId := Some id;
                         parsed_gristApiUrl
                         := Some (protocol urlObj +:+ "//" +:+ host urlObj) |}).
  { unfold parseGristUrl. rewrite Hurl, Hpath, (match_doc_first _ _ _ Hfirst Hne Hid Hafter).
    destruct (Str.is_empty id) eqn:Hempty; [|done].
    apply is_empty_true in Hempty. done. }
  split; [done|]. unfold isValidGristUrl. by rewrite Hparsed.
Qed.

Lemma parseGristUrl_doc_witness :
  parseGristUrl
    (fun _ => Some {| protocol := "https:"; host := "grist.example.com";
                      pathname := "/o/myorg/doc/myDocId/p/5" |})
    "https://grist.example.com/o/myorg/doc/myDocId/p/5"
  = {| parsed_docId := Some "myDocId";
       parsed_gristApiUrl := Some "https://grist.example.com" |}.
Proof.
  destruct (parseGristUrl_doc
              (fun _ => Some {| protocol := "https:"; host := "grist.example.com";
                                pathname := "/o/myorg/doc/myDocId/p/5" |})
              "https://grist.example.com/o/myorg/doc/myDocId/p/5"
              {| protocol := "https:"; host := "grist.example.com";
                 pathname := "/o/myorg/doc/myDocId/p/5" |}
              "/o/myorg" "myDocId" "/p/5") as [H _];
    [reflexivity | reflexivity | reflexivity | discriminate | reflexivity | reflexivity |].
  exact H.
Defined.

End UrlsMore.

(** ** From the mappings to the columns *)

Section Pipeline.
Import Mapping Grist.

Context {p : Platform}.

Lemma transform_each_keys (records : list value) (mappings : list FieldMapping) :
  forall h out h',
    transform_each records mappings h = Ok (out, h') ->
    forall rec, rec ∈ out ->
      (forall key, key ∈ rec.*1 ->
         exists m, m ∈ mappings /\ applied m /\ gristColumn m = key)
      /\ (forall key, key <> "__proto__" ->
            (exists m, m ∈ mappings /\ applied m /\ gristColumn m = key) ->
            key ∈ rec.*1).
Proof.
  induction records as [|r rs IH]; intros h out h' Hrun rec Hrec; simpl in Hrun.
  - inversion Hrun; subst. by apply elem_of_nil in Hrec.
  - destruct (transformRecord r mappings h) as [[o h1]|e|] eqn:Hone; simpl in Hrun;
      [|done..].
    destruct (transform_each rs mappings h1) as [[os h2]|e|] eqn:Hrest; simpl in Hrun;
      [|done..].
    inversion Hrun; subst. apply elem_of_cons in Hrec as [->|Hrec]; [|by eapply IH].
    apply transformRecord_loop in Hone as [proto Hone].
    destruct (transform_loop_key_set _ _ _ _ _ _ Hone (NoDup_nil_2)) as (_ & _ & Hmakes).
    split.
    + intros key Hkey.
      destruct (transform_loop_keys _ _ _ _ _ _ Hone key Hkey) as [Hin|?]; [|done].
      simpl in Hin. by apply elem_of_nil in Hin.
    + intros key Hkey (m & Hm & Happlied & Hcol). by eapply Hmakes.
Qed.

(** X29: for the records [transformRecords] gives, when there are
    some, the columns the client finds missing, and asks the table to
    create, are Grist columns of mappings applied that the table does not
    have, each once; and every such column is among them, the name
    [__proto__] apart (an assignment to it need not make a key). *)
Theorem transformRecords_missingColumns :
  forall (apiRecords : value) (mappings : list FieldMapping) (h h' : store)
         (transformedData : list record) (existingColumnIds : list value),
    transformRecords apiRecords mappings h = Ok (transformedData, h') ->
    transformedData <> [] ->
    spec_id <$> columnsToCreate existingColumnIds transformedData
    = missingColumns existingColumnIds transformedData
    /\ NoDup (missingColumns existingColumnIds transformedData)
    /\ (forall key,
          key ∈ missingColumns existingColumnIds transformedData ->
          (VStr key ∉ existingColumnIds)
          /\ exists m, m ∈ mappings /\ applied m /\ gristColumn m = key)
    /\ (forall key,
          VStr key ∉ existingColumnIds ->
          key <> "__proto__" ->
          (exists m, m ∈ mappings /\ applied m /\ gristColumn m = key) ->
          key ∈ missingColumns existingColumnIds transformedData).
Proof.
  intros apiRecords mappings h h' transformedData existingColumnIds Hrun Hne.
  assert (Hkeys : forall rec, rec ∈ transformedData ->
            (forall key, key ∈ rec.*1 ->
               exists m, m ∈ mappings /\ applied m /\ gristColumn m = key)
            /\ (forall key, key <> "__proto__" ->
                  (exists m, m ∈ mappings /\ applied m /\ gristColumn m = key) ->
                  key ∈ rec.*1)).
  { unfold transformRecords in Hrun.
    destruct apiRecords as [| | | | | |l]; try (by inversion Hrun; subst).
    destruct (h !! l) as [[props|records]|]; try (by inversion Hrun; subst).
    by eapply transform_each_keys. }
  destruct (missingColumns_spec existingColumnIds transformedData) as [Hnodup Hin].
  split; [|split; [done|split]].
  - unfold columnsToCreate. generalize (missingColumns existingColumnIds transformedData).
    intros keys. induction keys as [|key keys IH]; [done|].
    rewrite !fmap_cons. by f_equal.
  - intros key Hkey. apply Hin in Hkey as [(rec & Hrec & Hkey) Hnew]. split; [done|].
    by apply (Hkeys rec Hrec).
  - intros key Hnew Hproto Hm. apply Hin. split; [|done].
    destruct transformedData as [|rec rest]; [done|].
    exists rec. split; [by apply elem_of_cons; left|].
    apply (Hkeys rec); [by apply elem_of_cons; left | done..].
Qed.

End Pipeline.

Lemma transformRecords_missingColumns_witness :
  Grist.missingColumns [VStr "id"] [[("Name", VStr "Alice")]; [("Name", VStr "Bob")]]
  = ["Name"]
  /\ NoDup (Grist.missingColumns [VStr "id"]
              [[("Name", VStr "Alice")]; [("Name", VStr "Bob")]]).
Proof.
  destruct (transformRecords_missingColumns (p := Sample.engine) (VRef 1) Sample.by_name
              Sample.people Sample.people
              [[("Name", VStr "Alice")]; [("Name", VStr "Bob")]] [VStr "id"])
    as (_ & Hnodup & _); [reflexivity | discriminate |].
  split; [by vm_compute | exact Hnodup].
Defined.

